(** * Nightwatch: the incident resolution engine

    The command validator, the command executor, the capabilities
    analyzeIncident, assessFeasibility, planRemediation, validatePlan,
    executePlan and verifyPlan, the orchestrator loop with its registry of
    handlers, the log listener, filter and batcher, the knowledge file,
    the prompts at the terminal, the retry helper and the inspection of a
    container, embedded from the TypeScript sources, one module per
    source file, followed by their properties.

    Strings are JavaScript strings: sequences of UTF-16 code units, here
    [list N].  Regular expressions are an abstract syntax with the
    matching rules of ECMAScript for the constructs the sources use;
    [RegExp.prototype.test] without the [g] flag is a pure search, so only
    the existence of a match matters and greedy and lazy quantifiers
    coincide.  What the program does not decide itself - the shell, the
    clock, the reasoner, the human at the terminal, the knowledge file -
    is a function of an abstract world that is passed along. *)

From Stdlib Require Import List Bool Arith NArith ZArith Lia String Ascii DecimalString.
Import ListNotations.


(* ================================================================== *)
(** ** JavaScript strings *)

Module JsString.

Definition jsstring := list N.

(** A string literal of the source, as code units (ASCII literals only). *)
Definition js (s : string) : jsstring :=
  map N_of_ascii (list_ascii_of_string s).

Definition eqb (a b : jsstring) : bool :=
  if list_eq_dec N.eq_dec a b then true else false.

(** ECMAScript LineTerminator. *)
Definition isLineTerminator (c : N) : bool :=
  existsb (N.eqb c) [10; 13; 8232; 8233]%N.

(** ECMAScript WhiteSpace: TAB, VT, FF, SP, NBSP, ZWNBSP and category Zs. *)
Definition isWhiteSpace (c : N) : bool :=
  existsb (N.eqb c) [9; 11; 12; 32; 160; 65279; 5760; 8239; 8287; 12288]%N
  || ((8192 <=? c) && (c <=? 8202))%N.

(** What [String.prototype.trim] strips and what [\s] matches. *)
Definition isSpace (c : N) : bool := isWhiteSpace c || isLineTerminator c.

Fixpoint trimStart (s : jsstring) : jsstring :=
  match s with
  | c :: s' => if isSpace c then trimStart s' else s
  | [] => []
  end.

Definition trimEnd (s : jsstring) : jsstring := rev (trimStart (rev s)).

Definition trim (s : jsstring) : jsstring := trimEnd (trimStart s).

Fixpoint startsWith (p s : jsstring) : bool :=
  match p, s with
  | [], _ => true
  | a :: p', b :: s' => N.eqb a b && startsWith p' s'
  | _ :: _, [] => false
  end.

(** [String.prototype.includes]. *)
Fixpoint includes (s k : jsstring) : bool :=
  startsWith k s ||
  match s with
  | [] => false
  | _ :: s' => includes s' k
  end.

(** [k] is a substring of [s]. *)
Definition contains (s k : jsstring) : Prop :=
  exists before after, s = before ++ k ++ after.

(** [Array.prototype.join]. *)
Fixpoint join (sep : jsstring) (l : list jsstring) : jsstring :=
  match l with
  | [] => []
  | [a] => a
  | a :: l' => a ++ sep ++ join sep l'
  end.

(** [toLowerCase] on the ASCII range; code units from 128 on are left
    alone.  The host's full mapping is a parameter of the log filter. *)
Definition asciiLower (c : N) : N :=
  if ((65 <=? c) && (c <=? 90))%N then (c + 32)%N else c.

Definition asciiToLowerCase (s : jsstring) : jsstring := map asciiLower s.

(** [new Set(array)]: first occurrences, in order. *)
Fixpoint newSet (l : list jsstring) (seen : list jsstring) : list jsstring :=
  match l with
  | [] => []
  | a :: l' =>
      if existsb (eqb a) seen then newSet l' seen
      else a :: newSet l' (a :: seen)
  end.

End JsString.

Import JsString.

(* ================================================================== *)
(** ** Regular expressions *)

Module RegExp.

(** Members of a character class. *)
Inductive cls : Type :=
  | CChar (c : N)            (* a literal code unit *)
  | CRange (lo hi : N)       (* lo-hi *)
  | CSpace                   (* \s *)
  | CWord                    (* \w *)
  | CDigit.                  (* \d *)

Inductive regex : Type :=
  | REmpty                                (* the empty pattern *)
  | RSet (negated : bool) (l : list cls)  (* [...] and [^...]; a literal is a one-element set *)
  | RAny                                  (* . *)
  | RSeq (a b : regex)
  | RAlt (a b : regex)
  | RStar (a : regex)                     (* a*  (and a*? for test) *)
  | RBol                                  (* ^ without the m flag *)
  | RWordB                                (* \b *)
  | RNegLook (a : regex).                 (* (?!a) *)

Definition RChar (c : N) : regex := RSet false [CChar c].
Definition RPlus (a : regex) : regex := RSeq a (RStar a).   (* a+ and a+? *)
Definition ROpt (a : regex) : regex := RAlt a REmpty.        (* a? *)
Definition RSpace : regex := RSet false [CSpace].
Definition RWord : regex := RSet false [CWord].
Definition RDigit : regex := RSet false [CDigit].

(** A run of literal code units. *)
Fixpoint RLit (s : jsstring) : regex :=
  match s with
  | [] => REmpty
  | [c] => RChar c
  | c :: s' => RSeq (RChar c) (RLit s')
  end.

Definition RStr (s : string) : regex := RLit (js s).

Definition isDigit (c : N) : bool := ((48 <=? c) && (c <=? 57))%N.

(** [\w] is [A-Za-z0-9_]. *)
Definition isWordChar (c : N) : bool :=
  ((65 <=? c) && (c <=? 90))%N || ((97 <=? c) && (c <=? 122))%N
  || isDigit c || (c =? 95)%N.

(** Canonicalize of the [i] flag (no [u] flag).  The patterns of the
    sources are ASCII, and a code unit from 128 on never canonicalizes
    into the ASCII range, so upper-casing a-z is all that can make a
    comparison with a pattern character succeed. *)
Definition canonicalize (icase : bool) (c : N) : N :=
  if icase && ((97 <=? c) && (c <=? 122))%N then (c - 32)%N else c.

Definition clsMatches (icase : bool) (m : cls) (c : N) : bool :=
  match m with
  | CChar p => (canonicalize icase p =? canonicalize icase c)%N
  | CRange lo hi =>
      ((lo <=? c) && (c <=? hi))%N
      || (icase && existsb (fun p => ((lo <=? p) && (p <=? hi))%N)
                     [canonicalize true c; asciiLower c])
  | CSpace => isSpace c
  | CWord => isWordChar c
  | CDigit => isDigit c
  end.

Definition setMatches (icase negated : bool) (l : list cls) (c : N) : bool :=
  xorb negated (existsb (fun m => clsMatches icase m c) l).

Section Matcher.

Variable icase : bool.
Variable s : jsstring.

Definition charAt (i : nat) : option N := nth_error s i.

Definition isWordAt (i : nat) : bool :=
  match charAt i with Some c => isWordChar c | None => false end.

(** IsWordChar(e-1) differs from IsWordChar(e). *)
Definition wordBoundary (i : nat) : bool :=
  xorb (match i with O => false | S p => isWordAt p end) (isWordAt i).

(** Positions of [l] that are neither in [seen] nor repeated. *)
Fixpoint fresh (seen l : list nat) : list nat :=
  match l with
  | [] => []
  | j :: l' =>
      if existsb (Nat.eqb j) seen then fresh seen l'
      else j :: fresh (j :: seen) l'
  end.

(** The positions reachable from [frontier] by repeating [f], added to
    [seen]; at most [n] rounds, and a round that adds nothing is the last. *)
Fixpoint closure (n : nat) (f : nat -> list nat) (frontier seen : list nat)
  : list nat :=
  match n with
  | O => seen
  | S n' =>
      match fresh seen (flat_map f frontier) with
      | [] => seen
      | new => closure n' f new (seen ++ new)
      end
  end.

(** [ends r i]: the positions where a match of [r] begun at [i] can end. *)
Fixpoint ends (r : regex) (i : nat) {struct r} : list nat :=
  match r with
  | REmpty => [i]
  | RSet negated l =>
      match charAt i with
      | Some c => if setMatches icase negated l c then [S i] else []
      | None => []
      end
  | RAny =>
      match charAt i with
      | Some c => if isLineTerminator c then [] else [S i]
      | None => []
      end
  | RSeq a b => flat_map (ends b) (ends a i)
  | RAlt a b => ends a i ++ ends b i
  | RStar a => closure (S (List.length s)) (ends a) [i] [i]
  | RBol => match i with O => [i] | S _ => [] end
  | RWordB => if wordBoundary i then [i] else []
  | RNegLook a => match ends a i with [] => [i] | _ :: _ => [] end
  end.

Definition matchesAt (r : regex) (i : nat) : bool :=
  match ends r i with [] => false | _ :: _ => true end.

End Matcher.

(** Zero or more steps of [R]. *)
Inductive star (R : nat -> nat -> Prop) : nat -> nat -> Prop :=
  | star_refl : forall i, star R i i
  | star_step : forall i k j, R i k -> star R k j -> star R i j.

Section Meaning.

Variable icase : bool.
Variable s : jsstring.

(** [Matches r i j]: the pattern [r] matches the code units of [s] from
    position [i] up to position [j]; assertions look at the whole of [s]. *)
Fixpoint Matches (r : regex) (i j : nat) {struct r} : Prop :=
  match r with
  | REmpty => j = i
  | RSet negated l =>
      exists c, charAt s i = Some c
                /\ setMatches icase negated l c = true /\ j = S i
  | RAny =>
      exists c, charAt s i = Some c /\ isLineTerminator c = false /\ j = S i
  | RSeq a b => exists k, Matches a i k /\ Matches b k j
  | RAlt a b => Matches a i j \/ Matches b i j
  | RStar a => star (Matches a) i j
  | RBol => i = 0 /\ j = i
  | RWordB => wordBoundary s i = true /\ j = i
  | RNegLook a => (forall k, ~ Matches a i k) /\ j = i
  end.

End Meaning.

(** A compiled pattern: its syntax and its [i] flag. *)
Record RegExp : Type := mkRegExp { source : regex; ignoreCase : bool }.

(** [pattern.test(str)] for a pattern without the [g] or [y] flag. *)
Definition test (p : RegExp) (str : jsstring) : bool :=
  existsb (matchesAt (ignoreCase p) str (source p)) (seq 0 (S (List.length str))).

End RegExp.

Import RegExp.

(* ================================================================== *)
(** ** types.ts *)

(** [Number.prototype.toString] of an integer. *)
Definition Number_toString (z : Z) : jsstring :=
  js (NilZero.string_of_int (Z.to_int z)).

(** [a || b] on strings: [a] unless it is empty. *)
Definition orElse (a b : jsstring) : jsstring :=
  match a with [] => b | _ :: _ => a end.

Module IncidentNode.
Record t : Type := mk {
  container : jsstring;
  type : jsstring;
  evidence : list jsstring;
  timestamp : jsstring
}.
End IncidentNode.

Module CausalLink.
Record t : Type := mk { from : Z; to : Z }.
End CausalLink.

Module IncidentGraph.
Record t : Type := mk {
  nodes : list IncidentNode.t;
  edges : list CausalLink.t;
  root : option Z;
  summary : jsstring
}.
End IncidentGraph.

Module FeasibilityAssessment.
Record t : Type := mk {
  feasible : bool;
  summary : jsstring;
  blocking_reason : option jsstring
}.
End FeasibilityAssessment.

Module PlanStep.
Record t : Type := mk { action : jsstring; reason : jsstring }.
End PlanStep.

Module RemediationPlan.
Record t : Type := mk {
  summary : jsstring;
  steps : list PlanStep.t;
  verification : list PlanStep.t
}.
End RemediationPlan.

Inductive Status : Type := Success | Failure.

Module StepResult.
Record t : Type := mk {
  step : jsstring;
  status : Status;
  exitCode : Z;
  stdout : jsstring;
  stderr : jsstring;
  timestamp : jsstring
}.
End StepResult.

Module ExecutionResult.
Record t : Type := mk {
  results : list StepResult.t;
  failedAtStep : Z
}.
End ExecutionResult.

Inductive FailureType : Type :=
  | remediation_command_rejected
  | verification_command_rejected
  | execution_failed
  | verification_failed
  | user_rejected.

Module FailureContext.
Record t : Type := mk {
  type : FailureType;
  step : option jsstring;
  reason : option jsstring;
  output : option jsstring
}.
End FailureContext.

Inductive Resolution : Type := pending | resolved | observed | dismissed.

Module HistoryEntry.
Record t : Type := mk {
  timestamp : jsstring;
  capability : jsstring;
  success : bool;
  summary : jsstring
}.
End HistoryEntry.

(** [array[i]] for a number [i]: undefined out of range. *)
Definition index {A : Type} (l : list A) (i : Z) : option A :=
  if (i <? 0)%Z then None else nth_error l (Z.to_nat i).

(** What a call either returns or throws. *)
Inductive completion (A : Type) : Type :=
  | Normal (a : A)
  | Throws (message : jsstring).
Arguments Normal {A} a.
Arguments Throws {A} message.

(* ================================================================== *)
(** ** execution/validator.ts *)

Module Validator.

Record CommandValidationError : Type := mkError {
  command : jsstring;
  reason : jsstring
}.

(** [validateCommand] returns nothing or throws a CommandValidationError. *)
Inductive validation : Type :=
  | Valid
  | Invalid (e : CommandValidationError).

Fixpoint RSeqs (l : list regex) : regex :=
  match l with
  | [] => REmpty
  | [a] => a
  | a :: l' => RSeq a (RSeqs l')
  end.

Definition az : cls := CRange 97 122.
Definition AZ : cls := CRange 65 90.
Definition d09 : cls := CRange 48 57.
Definition underscore : cls := CChar 95.

Record blocked : Type := mkBlocked { pattern : RegExp; why : jsstring }.

Definition BLOCKED_PATTERNS : list blocked := [
  (* /^(?!docker\s)/i *)
  mkBlocked (mkRegExp (RSeq RBol (RNegLook (RSeq (RStr "docker") RSpace))) true)
            (js "Command must start with 'docker'");
  (* /\bsh\s+-c\b/i *)
  mkBlocked (mkRegExp (RSeqs [RWordB; RStr "sh"; RPlus RSpace; RStr "-c"; RWordB]) true)
            (js "Shell invocation not allowed");
  (* /\bbash\s+-c\b/i *)
  mkBlocked (mkRegExp (RSeqs [RWordB; RStr "bash"; RPlus RSpace; RStr "-c"; RWordB]) true)
            (js "Shell invocation not allowed");
  (* /\|/ *)
  mkBlocked (mkRegExp (RStr "|") false) (js "Pipes not allowed");
  (* />/ *)
  mkBlocked (mkRegExp (RStr ">") false) (js "Output redirection not allowed");
  (* /</ *)
  mkBlocked (mkRegExp (RStr "<") false) (js "Input redirection not allowed");
  (* /\$\(/ *)
  mkBlocked (mkRegExp (RStr "$(") false) (js "Command substitution not allowed");
  (* /`/ *)
  mkBlocked (mkRegExp (RStr "`") false) (js "Backtick substitution not allowed");
  (* /&&/ *)
  mkBlocked (mkRegExp (RStr "&&") false) (js "Command chaining (&&) not allowed");
  (* /\|\|/ *)
  mkBlocked (mkRegExp (RStr "||") false) (js "Command chaining (||) not allowed");
  (* /;/ *)
  mkBlocked (mkRegExp (RStr ";") false) (js "Command chaining (;) not allowed");
  (* /\b[a-zA-Z_][a-zA-Z0-9_]*=/ *)
  mkBlocked (mkRegExp (RSeqs [RWordB; RSet false [az; AZ; underscore];
                              RStar (RSet false [az; AZ; d09; underscore]);
                              RStr "="]) false)
            (js "Variable assignment not allowed");
  (* /\(/ *)
  mkBlocked (mkRegExp (RStr "(") false) (js "Subshell not allowed");
  (* /\)/ *)
  mkBlocked (mkRegExp (RStr ")") false) (js "Subshell not allowed");
  (* /rm\s+-rf\s+\// *)
  mkBlocked (mkRegExp (RSeqs [RStr "rm"; RPlus RSpace; RStr "-rf"; RPlus RSpace;
                              RStr "/"]) false)
            (js "Destructive rm pattern blocked");
  (* /rm\s+-rf\s+\/\*/ *)
  mkBlocked (mkRegExp (RSeqs [RStr "rm"; RPlus RSpace; RStr "-rf"; RPlus RSpace;
                              RStr "/*"]) false)
            (js "Destructive rm pattern blocked");
  (* /dd\s+if=/ *)
  mkBlocked (mkRegExp (RSeqs [RStr "dd"; RPlus RSpace; RStr "if="]) false)
            (js "Destructive dd pattern blocked");
  (* /mkfs(\.\w+)?/ *)
  mkBlocked (mkRegExp (RSeq (RStr "mkfs") (ROpt (RSeq (RStr ".") (RPlus RWord)))) false)
            (js "Filesystem formatting blocked");
  (* />\s*\/dev\/sd[a-z]/ *)
  mkBlocked (mkRegExp (RSeqs [RStr ">"; RStar RSpace; RStr "/dev/sd";
                              RSet false [az]]) false)
            (js "Direct disk write blocked");
  (* /curl\s+.*\|\s*(bash|sh)/i *)
  mkBlocked (mkRegExp (RSeqs [RStr "curl"; RPlus RSpace; RStar RAny; RStr "|";
                              RStar RSpace; RAlt (RStr "bash") (RStr "sh")]) true)
            (js "Remote code execution blocked");
  (* /wget\s+.*\|\s*(bash|sh)/i *)
  mkBlocked (mkRegExp (RSeqs [RStr "wget"; RPlus RSpace; RStar RAny; RStr "|";
                              RStar RSpace; RAlt (RStr "bash") (RStr "sh")]) true)
            (js "Remote code execution blocked")
].

(** The class of [escapeRegex]: . * + ? ^ $ { } ( ) | [ ] and the
    backslash (code unit 92). *)
Definition isSyntaxCharacter (c : N) : bool :=
  existsb (N.eqb c) (js ".*+?^${}()|[]" ++ [92%N]).

(** [str.replace(/[...]/g, "\\$&")]: a backslash before every code unit of
    the class. *)
Definition escapeRegex (str : jsstring) : jsstring :=
  flat_map (fun c => if isSyntaxCharacter c then [92%N; c] else [c]) str.

(** [new RegExp(src)] for the sources built here: [\b], a backslash before
    a syntax character, and code units that stand for themselves.  Any
    other source is a SyntaxError or outside this fragment: [None]. *)
Fixpoint compileAtoms (src : jsstring) : option (list regex) :=
  match src with
  | [] => Some []
  | c :: rest =>
      if (c =? 92)%N then
        match rest with
        | [] => None
        | e :: rest' =>
            if (e =? 98)%N
            then option_map (cons RWordB) (compileAtoms rest')
            else if isSyntaxCharacter e
            then option_map (cons (RChar e)) (compileAtoms rest')
            else None
        end
      else if isSyntaxCharacter c then None
      else option_map (cons (RChar c)) (compileAtoms rest)
  end.

Definition newRegExp (src : jsstring) : option RegExp :=
  option_map (fun l => mkRegExp (RSeqs l) false) (compileAtoms src).

(** A pattern that matches nowhere: [(?!)]. *)
Definition neverMatches : RegExp := mkRegExp (RNegLook REmpty) false.

(** [new RegExp(`\\b${escapeRegex(name)}\\b`)]; the constructor cannot
    fail on an escaped name (lemma [containerRegExp_literal]). *)
Definition containerRegExp (name : jsstring) : RegExp :=
  match newRegExp (js "\b" ++ escapeRegex name ++ js "\b") with
  | Some p => p
  | None => neverMatches
  end.

Definition findTargetContainer (command : jsstring) (knownContainers : list jsstring)
  : option jsstring :=
  let '(found, count) :=
    fold_left
      (fun (acc : option jsstring * nat) name =>
         let '(found, count) := acc in
         if test (containerRegExp name) command
         then (Some name, S count)
         else (found, count))
      knownContainers (None, 0) in
  if Nat.eqb count 1 then found else None.

(** JavaScript truthiness of [string | null]: null and the empty string
    are falsy. *)
Definition truthy (v : option jsstring) : bool :=
  match v with
  | Some (_ :: _) => true
  | Some [] | None => false
  end.

(** [knownContainers] is a [Set<string>]: its elements in insertion order. *)
Definition validateCommand (command : jsstring) (knownContainers : list jsstring)
  : validation :=
  let trimmed := trim command in
  if negb (truthy (Some trimmed)) then
    Invalid (mkError command (js "Empty command not allowed"))
  else
    match find (fun b => test (pattern b) trimmed) BLOCKED_PATTERNS with
    | Some b => Invalid (mkError command (why b))
    | None =>
        let target := findTargetContainer trimmed knownContainers in
        if negb (truthy target) then
          let matches :=
            filter (fun c => test (containerRegExp c) trimmed) knownContainers in
          if Nat.eqb (List.length matches) 0 then
            Invalid (mkError command
                       (js "Command does not reference any known container"))
          else
            Invalid (mkError command
                       (js "Command references multiple containers: "
                        ++ join (js ", ") matches))
        else Valid
    end.

Fixpoint validateEach (steps : list PlanStep.t) (containerSet : list jsstring)
  : validation :=
  match steps with
  | [] => Valid
  | step :: rest =>
      match validateCommand (PlanStep.action step) containerSet with
      | Valid => validateEach rest containerSet
      | Invalid e => Invalid e
      end
  end.

(** The first step whose action does not validate throws. *)
Definition assertCommandsValid (steps : list PlanStep.t)
  (knownContainers : list jsstring) : validation :=
  let containerSet := newSet knownContainers [] in
  validateEach steps containerSet.

End Validator.

(* ================================================================== *)
(** ** The validator's rules, stated on strings *)

Module ValidatorSpec.

Import Validator.

(** [name] occurs in [t] with a word boundary on both sides. *)
Definition occursAsWord (name t : jsstring) : Prop :=
  exists i, firstn (List.length name) (skipn i t) = name
            /\ wordBoundary t i = true
            /\ wordBoundary t (i + List.length name) = true.

(** [c] is the lower-case letter [p] or its upper-case form. *)
Definition sameLetter (p c : N) : bool := ((c =? p) || (c + 32 =? p))%N.

(** Begins with the six letters of docker, each in either case, and a
    white space or line terminator. *)
Definition beginsWithDocker (t : jsstring) : bool :=
  match t with
  | c0 :: c1 :: c2 :: c3 :: c4 :: c5 :: ws :: _ =>
      sameLetter 100 c0 && sameLetter 111 c1 && sameLetter 99 c2
      && sameLetter 107 c3 && sameLetter 101 c4 && sameLetter 114 c5
      && isSpace ws
  | _ => false
  end.

(** The first entry of the table. *)
Definition dockerRule : blocked :=
  mkBlocked (mkRegExp (RSeq RBol (RNegLook (RSeq (RStr "docker") RSpace))) true)
            (js "Command must start with 'docker'").

(** The first entry of the table, in its order, whose pattern matches. *)
Definition firstBlocked (t : jsstring) : option blocked :=
  find (fun b => test (pattern b) t) BLOCKED_PATTERNS.

(** The known containers the command refers to, in the set's order. *)
Definition matchingContainers (t : jsstring) (known : list jsstring) :=
  filter (fun c => test (containerRegExp c) t) known.

(** The entries of the table that are plain substrings. *)
Definition blockedLiterals : list jsstring :=
  map js ["|"; ">"; "<"; "$("; "`"; "&&"; "||"; ";"; "("; ")"]%string.

(** The pattern of a table entry matches somewhere in [t]. *)
Definition applies (b : blocked) (t : jsstring) : Prop :=
  exists i j, i <= List.length t
              /\ Matches (ignoreCase (pattern b)) t (source (pattern b)) i j.

(** What [validateCommand] owes a command whose trim is not empty. *)
Definition validator_contract (command : jsstring) (known : list jsstring)
  : Prop :=
  let t := trim command in
  let rejected why :=
    validateCommand command known = Invalid (mkError command why) in
  (beginsWithDocker t = false -> rejected (js "Command must start with 'docker'"))
  /\ (forall k, In k blockedLiterals -> contains t k ->
        exists why, rejected why)
  /\ (forall b, In b BLOCKED_PATTERNS -> applies b t ->
        exists before b' after,
          BLOCKED_PATTERNS = before ++ b' :: after
          /\ applies b' t
          /\ (forall x, In x before -> ~ applies x t)
          /\ rejected (why b'))
  /\ ((forall b, In b BLOCKED_PATTERNS -> ~ applies b t) ->
        (validateCommand command known = Valid
         <-> exists c, In c known /\ occursAsWord c t
                       /\ forall c', In c' known -> occursAsWord c' t -> c' = c)
        /\ ((forall c, In c known -> ~ occursAsWord c t) ->
              rejected (js "Command does not reference any known container"))
        /\ (forall c1 c2, In c1 known -> In c2 known -> c1 <> c2 ->
              occursAsWord c1 t -> occursAsWord c2 t ->
              rejected (js "Command references multiple containers: "
                        ++ join (js ", ") (matchingContainers t known)))).

End ValidatorSpec.

(* ================================================================== *)
(** ** orchestration/state.ts *)

(** A message of a reasoner conversation ([Content] of the SDK); the
    conversations are carried around and appended to, never inspected. *)
Inductive Content : Type :=
  | UserText (text : jsstring)
  | ModelContent (parts : jsstring)
  | FunctionResponse (name : jsstring) (success : bool) (summary : jsstring).

Module State.
Record IncidentResolutionState : Type := mk {
  logs : option (list jsstring);
  incidentGraph : option IncidentGraph.t;
  feasibility : option FeasibilityAssessment.t;
  plan : option RemediationPlan.t;
  executionResult : option ExecutionResult.t;
  verificationResult : option ExecutionResult.t;
  failureContext : option FailureContext.t;
  plannerHistory : list Content;
  planValidated : bool;
  resolution : Resolution
}.

Record OrchestrationContext : Type := mkContext {
  attemptCount : nat;
  maxAttempts : nat;
  history : list HistoryEntry.t;
  orchestratorConversationHistory : list Content
}.

Definition createInitialState (logs : list jsstring) : IncidentResolutionState :=
  {| logs := Some logs;
     incidentGraph := None;
     feasibility := None;
     plan := None;
     executionResult := None;
     verificationResult := None;
     failureContext := None;
     plannerHistory := [];
     planValidated := false;
     resolution := pending |}.

Definition createInitialContext (maxAttempts : nat) : OrchestrationContext :=
  {| attemptCount := 0;
     maxAttempts := maxAttempts;
     history := [];
     orchestratorConversationHistory := [] |}.

(** The spreads [{ ...state, field: v }] of the sources. *)
Definition with_plan_validated (s : IncidentResolutionState) (b : bool) :=
  mk (logs s) (incidentGraph s) (feasibility s) (plan s) (executionResult s)
     (verificationResult s) (failureContext s) (plannerHistory s) b
     (resolution s).

Definition with_failureContext (s : IncidentResolutionState)
  (f : option FailureContext.t) :=
  mk (logs s) (incidentGraph s) (feasibility s) (plan s) (executionResult s)
     (verificationResult s) f (plannerHistory s) (planValidated s)
     (resolution s).

Definition with_feasibility (s : IncidentResolutionState)
  (f : option FeasibilityAssessment.t) :=
  mk (logs s) (incidentGraph s) f (plan s) (executionResult s)
     (verificationResult s) (failureContext s) (plannerHistory s)
     (planValidated s) (resolution s).

Definition with_executionResult (s : IncidentResolutionState)
  (r : option ExecutionResult.t) :=
  mk (logs s) (incidentGraph s) (feasibility s) (plan s) r
     (verificationResult s) (failureContext s) (plannerHistory s)
     (planValidated s) (resolution s).

Definition with_verificationResult (s : IncidentResolutionState)
  (r : option ExecutionResult.t) :=
  mk (logs s) (incidentGraph s) (feasibility s) (plan s) (executionResult s)
     r (failureContext s) (plannerHistory s) (planValidated s) (resolution s).

Definition with_resolution (s : IncidentResolutionState) (r : Resolution) :=
  mk (logs s) (incidentGraph s) (feasibility s) (plan s) (executionResult s)
     (verificationResult s) (failureContext s) (plannerHistory s)
     (planValidated s) r.

Definition with_incidentGraph (s : IncidentResolutionState)
  (g : option IncidentGraph.t) :=
  mk (logs s) g (feasibility s) (plan s) (executionResult s)
     (verificationResult s) (failureContext s) (plannerHistory s)
     (planValidated s) (resolution s).

Definition with_plan (s : IncidentResolutionState)
  (p : option RemediationPlan.t) :=
  mk (logs s) (incidentGraph s) (feasibility s) p (executionResult s)
     (verificationResult s) (failureContext s) (plannerHistory s)
     (planValidated s) (resolution s).

End State.

Import State.

(* ================================================================== *)
(** ** execution/executor.ts *)

Module Executor.

Record CommandResult : Type := mkResult {
  success : bool;
  exitCode : Z;
  stdout : jsstring;
  stderr : jsstring
}.

Section WithWorld.

(** The outside world: the shell behind [execCmd] and the clock. *)
Variable World : Type.
Variable execCmd : jsstring -> World -> CommandResult * World.
Variable now : World -> jsstring * World.  (* new Date().toISOString() *)

(** The [for] loop of [executeCommands], from index [i] on. *)
Fixpoint executeFrom (steps : list PlanStep.t) (i : Z)
  (results : list StepResult.t) (w : World) : ExecutionResult.t * World :=
  match steps with
  | [] => (ExecutionResult.mk results (-1), w)
  | s :: rest =>
      let command := PlanStep.action s in
      let (cmdResult, w1) := execCmd command w in
      let (stamp, w2) := now w1 in
      let results' :=
        results ++
        [StepResult.mk command
           (if success cmdResult then Success else Failure)
           (exitCode cmdResult) (stdout cmdResult) (stderr cmdResult) stamp] in
      if negb (success cmdResult)
      then (ExecutionResult.mk results' i, w2)
      else executeFrom rest (i + 1) results' w2
  end.

Definition executeCommands (steps : list PlanStep.t) (w : World)
  : ExecutionResult.t * World :=
  executeFrom steps 0 [] w.

End WithWorld.

Arguments executeFrom {World} execCmd now steps i results w.
Arguments executeCommands {World} execCmd now steps w.

End Executor.

(* ================================================================== *)
(** ** capabilities/types.ts *)

Module Capability.

Inductive Data : Type :=
  | NoData
  | ValidationData (valid : bool) (checkedSteps checkedVerification : nat)
  | VerificationData (verificationResult : ExecutionResult.t) (verified : bool)
  | ExecutionData (executionResult : ExecutionResult.t) (allSucceeded : bool)
  | PlanRemediationData (plan : RemediationPlan.t).

Module CapabilityResult.
Record t : Type := mk {
  success : bool;
  state : IncidentResolutionState;
  data : Data;
  error : option jsstring;
  idle : option bool
}.
End CapabilityResult.

Definition success (state : IncidentResolutionState) (data : Data)
  : CapabilityResult.t :=
  CapabilityResult.mk true state data None None.

Definition failure (state : IncidentResolutionState) (error : jsstring)
  : CapabilityResult.t :=
  CapabilityResult.mk false state NoData (Some error) None.

End Capability.

Import Capability.

(* ================================================================== *)
(** ** capabilities/validatePlan/capability.ts *)

Module ValidatePlan.

Import Validator.

(** [infrastructure.containers] is read from the compose file at start-up:
    a parameter here. *)
Definition validatePlan (containers : list jsstring)
  (state : IncidentResolutionState) : CapabilityResult.t :=
  match plan state with
  | None => failure state (js "Cannot validate: no plan exists.")
  | Some plan =>
      if planValidated state then failure state (js "Plan is already validated.")
      else
        let knownContainers := containers in
        let thrown :=
          match assertCommandsValid (RemediationPlan.steps plan) knownContainers with
          | Invalid e => Some e
          | Valid =>
              match assertCommandsValid (RemediationPlan.verification plan)
                      knownContainers with
              | Invalid e => Some e
              | Valid => None
              end
          end in
        match thrown with
        | None =>
            success (with_plan_validated state true)
              (ValidationData true
                 (List.length (RemediationPlan.steps plan))
                 (List.length (RemediationPlan.verification plan)))
        | Some err =>
            let isVerificationCommand :=
              existsb (fun v => JsString.eqb (PlanStep.action v) (command err))
                (RemediationPlan.verification plan) in
            let updatedState :=
              with_failureContext state
                (Some (FailureContext.mk
                         (if isVerificationCommand
                          then verification_command_rejected
                          else remediation_command_rejected)
                         (Some (command err))
                         (Some (reason err))
                         None)) in
            failure updatedState
              (js "Validation failed: " ++ reason err ++ js " (command: "
               ++ command err ++ js ")")
        end
  end.

End ValidatePlan.

(* ================================================================== *)
(** ** capabilities/executePlan/capability.ts *)

Module ExecutePlan.

Section WithWorld.

Variable World : Type.
Variable execCmd : jsstring -> World -> Executor.CommandResult * World.
Variable now : World -> jsstring * World.

Definition executePlan (state : IncidentResolutionState) (w : World)
  : completion CapabilityResult.t * World :=
  match plan state with
  | None => (Normal (failure state (js "Cannot execute: no plan exists.")), w)
  | Some plan =>
      if negb (planValidated state) then
        (Normal (failure state
                   (js "Cannot execute: plan has not been validated.")), w)
      else if Nat.eqb (List.length (RemediationPlan.steps plan)) 0 then
        (Normal (failure state
                   (js "Cannot execute: plan has no remediation steps.")), w)
      else
        let (result, w') :=
          Executor.executeCommands execCmd now (RemediationPlan.steps plan) w in
        let allSucceeded := (ExecutionResult.failedAtStep result =? -1)%Z in
        if allSucceeded then
          (Normal (success (with_executionResult state (Some result))
                     (ExecutionData result true)), w')
        else
          match index (ExecutionResult.results result)
                  (ExecutionResult.failedAtStep result),
                index (RemediationPlan.steps plan)
                  (ExecutionResult.failedAtStep result) with
          | Some failedStepResult, Some failedStep =>
              let failedStepAction := PlanStep.action failedStep in
              let output :=
                orElse (StepResult.stderr failedStepResult)
                       (StepResult.stdout failedStepResult) in
              let stepNo :=
                Number_toString (ExecutionResult.failedAtStep result + 1) in
              let updatedState :=
                with_failureContext
                  (with_executionResult state (Some result))
                  (Some (FailureContext.mk execution_failed
                           (Some failedStepAction)
                           (Some (js "Command failed at step " ++ stepNo))
                           (Some output))) in
              (Normal (failure updatedState
                         (js "Execution failed at step " ++ stepNo
                          ++ js ": " ++ orElse output failedStepAction)), w')
          | _, _ =>
              (* reading a property of undefined *)
              (Throws (js "TypeError"), w')
          end
  end.

End WithWorld.

Arguments executePlan {World} execCmd now state w.

End ExecutePlan.

(* ================================================================== *)
(** ** capabilities/verifyPlan/capability.ts *)

Module VerifyPlan.

Section WithWorld.

Variable World : Type.
Variable execCmd : jsstring -> World -> Executor.CommandResult * World.
Variable now : World -> jsstring * World.

Definition verifyPlan (state : IncidentResolutionState) (w : World)
  : completion CapabilityResult.t * World :=
  match plan state with
  | None => (Normal (failure state (js "Cannot verify: no plan exists.")), w)
  | Some plan =>
      match executionResult state with
      | None =>
          (Normal (failure state
                     (js "Cannot verify: execution has not been performed.")), w)
      | Some executionResult =>
          if negb (ExecutionResult.failedAtStep executionResult =? -1)%Z then
            (Normal (failure state
                       (js "Cannot verify: execution failed. Replanning required.")),
             w)
          else if Nat.eqb (List.length (RemediationPlan.verification plan)) 0 then
            let emptyResult := ExecutionResult.mk [] (-1) in
            (Normal (success
                       (with_resolution
                          (with_verificationResult state (Some emptyResult))
                          resolved)
                       (VerificationData emptyResult true)), w)
          else
            let (result, w') :=
              Executor.executeCommands execCmd now
                (RemediationPlan.verification plan) w in
            let verified := (ExecutionResult.failedAtStep result =? -1)%Z in
            if verified then
              (Normal (success
                         (with_resolution
                            (with_verificationResult state (Some result))
                            resolved)
                         (VerificationData result true)), w')
            else
              match index (ExecutionResult.results result)
                      (ExecutionResult.failedAtStep result),
                    index (RemediationPlan.verification plan)
                      (ExecutionResult.failedAtStep result) with
              | Some failedStepResult, Some failedStep =>
                  let failedStepAction := PlanStep.action failedStep in
                  let output :=
                    orElse (StepResult.stderr failedStepResult)
                           (StepResult.stdout failedStepResult) in
                  let stepNo :=
                    Number_toString (ExecutionResult.failedAtStep result + 1) in
                  let updatedState :=
                    with_failureContext
                      (with_verificationResult state (Some result))
                      (Some (FailureContext.mk verification_failed
                               (Some failedStepAction)
                               (Some (js "Verification failed at step " ++ stepNo))
                               (Some output))) in
                  (Normal (failure updatedState
                             (js "Verification failed at step " ++ stepNo
                              ++ js ": " ++ orElse output failedStepAction)), w')
              | _, _ =>
                  (* reading a property of undefined *)
                  (Throws (js "TypeError"), w')
              end
      end
  end.

End WithWorld.

Arguments verifyPlan {World} execCmd now state w.

End VerifyPlan.

(* ================================================================== *)
(** ** capabilities/planRemediation/capability.ts *)

Module PlanRemediation.

(** [`${v}`] for a [string | null]. *)
Definition show (v : option jsstring) : jsstring :=
  match v with Some t => t | None => js "null" end.

Section WithWorld.

Variable World : Type.

(** [runAgent<RemediationPlan>] on the prompt built from the compose file,
    the knowledge file, the incident graph, the previous plan and the
    failure context, with [state.plannerHistory]: the reasoner's answer and
    the grown conversation, or the error it throws. *)
Variable runAgent :
  IncidentResolutionState -> World ->
  completion (RemediationPlan.t * list Content) * World.

Definition planRemediation (state : IncidentResolutionState) (w : World)
  : CapabilityResult.t * World :=
  match incidentGraph state with
  | None => (failure state (js "Cannot plan: no incident identified."), w)
  | Some graph =>
      if Nat.eqb (List.length (IncidentGraph.nodes graph)) 0 then
        (failure state (js "Cannot plan: no incident identified."), w)
      else
        match feasibility state with
        | None => (failure state (js "Cannot plan: feasibility not assessed."), w)
        | Some feas =>
            if negb (FeasibilityAssessment.feasible feas) then
              (failure state
                 (js "Cannot plan: not feasible. Reason: "
                  ++ show (FeasibilityAssessment.blocking_reason feas)), w)
            else
              match plan state, failureContext state with
              | Some _, None =>
                  (failure state
                     (js "Plan already exists without failure context."), w)
              | _, _ =>
                  match IncidentGraph.root graph with
                  | None =>
                      (failure state
                         (js "Cannot plan: no root cause specified in graph."), w)
                  | Some root =>
                      match index (IncidentGraph.nodes graph) root with
                      | None =>
                          (failure state
                             (js "Cannot plan: root cause index out of bounds."),
                           w)
                      | Some rootNode =>
                          match runAgent state w with
                          | (Normal (result, conversationHistory), w') =>
                              let updatedState :=
                                State.mk (logs state) (incidentGraph state)
                                  (feasibility state)
                                  (Some result)          (* plan *)
                                  None                   (* executionResult *)
                                  None                   (* verificationResult *)
                                  None                   (* failureContext *)
                                  conversationHistory    (* plannerHistory *)
                                  false                  (* planValidated *)
                                  (resolution state) in
                              (success updatedState (PlanRemediationData result),
                               w')
                          | (Throws message, w') =>
                              (failure state (js "Planning failed: " ++ message),
                               w')
                          end
                      end
                  end
              end
        end
  end.

End WithWorld.

Arguments planRemediation {World} runAgent state w.

End PlanRemediation.

(* ================================================================== *)
(** ** orchestration/registry.ts and orchestration/workflow.ts *)

Module Workflow.

Inductive CapabilityName : Type :=
  | analyzeIncident
  | assessFeasibility
  | planRemediation
  | validatePlan
  | requestApproval
  | executePlan
  | verifyPlan
  | reportFindings
  | escalate.

Definition nameOf (c : CapabilityName) : jsstring :=
  match c with
  | analyzeIncident => js "analyzeIncident"
  | assessFeasibility => js "assessFeasibility"
  | planRemediation => js "planRemediation"
  | validatePlan => js "validatePlan"
  | requestApproval => js "requestApproval"
  | executePlan => js "executePlan"
  | verifyPlan => js "verifyPlan"
  | reportFindings => js "reportFindings"
  | escalate => js "escalate"
  end.

(** [CAPABILITY_REGISTRY[name]] for the names the registry defines.  (A
    name that only [Object.prototype] answers has no [config]: reading its
    [stage] throws inside the same [try], so such a name ends in the catch
    clause as well, with the engine's message.) *)
Definition CAPABILITY_REGISTRY (name : jsstring) : option CapabilityName :=
  find (fun c => JsString.eqb (nameOf c) name)
    [analyzeIncident; assessFeasibility; planRemediation; validatePlan;
     requestApproval; executePlan; verifyPlan; escalate; reportFindings].

Definition isPlanRemediation (c : CapabilityName) : bool :=
  match c with planRemediation => true | _ => false end.

(** utils/prompts.ts *)
Inductive EscalationResolution : Type :=
  | ContinueWith (context : jsstring)
  | Dismiss.

Inductive ApprovalChoice : Type :=
  | Approve
  | Reject (feedback : jsstring).

(** What one call of the reasoner comes to. *)
Inductive ReasonerResponse : Type :=
  | CallFailed (message : jsstring)        (* withRetry gave up and threw *)
  | NoParts                                (* no candidates[0].content.parts *)
  | NoFunctionCall (modelContent : Content)
  | FunctionCall (modelContent : Content) (name : jsstring)
      (reason needed_context : jsstring).

Record OrchestratorResult : Type := mkOrchestratorResult {
  finalState : IncidentResolutionState;
  isIdle : bool
}.

(** What one pass through the body of the [while] loop did; kept beside the
    run so that properties of whole runs can be stated. *)
Inductive Trace : Type :=
  | BreakerDismissed
  | BreakerContext (context : jsstring)
  | Caught (message : jsstring)
  | Nudged
  | EscalateDismissed
  | EscalateContinued (context : jsstring)
  | Approved
  | Rejected (feedback : jsstring)
  | Dispatched (capability : CapabilityName) (hadFailureContext : bool)
      (result : CapabilityResult.t).

(** How one pass leaves the loop body. *)
Inductive Next : Type :=
  | Continue (state : IncidentResolutionState)
  | Break (state : IncidentResolutionState)
  | Return (result : OrchestratorResult).

(** The reasoner, the human, the knowledge file, the clock and the
    capability handlers of the registry, as the loop calls them.  A
    handler hands its failures back as data: each capability catches what
    the reasoner throws and returns [failure], and the shell resolves with
    a failed result instead of rejecting.  The knowledge file is taken to
    be readable and writable. *)
Record Collaborators (World : Type) : Type := mkCollaborators {
  generateContent : list Content -> World -> ReasonerResponse * World;
  resolveEscalation :
    jsstring -> jsstring -> World -> EscalationResolution * World;
  askPlanApproval : World -> ApprovalChoice * World;
  addFact : jsstring -> jsstring -> World -> World;
  now : World -> jsstring * World;
  handler :
    CapabilityName -> IncidentResolutionState -> World ->
    CapabilityResult.t * World;
  (* JSON.stringify(state, null, 2) *)
  stringify : IncidentResolutionState -> jsstring
}.

Arguments mkCollaborators {World} _ _ _ _ _ _ _.
Arguments generateContent {World} c _ _.
Arguments resolveEscalation {World} c _ _ _.
Arguments askPlanApproval {World} c _.
Arguments addFact {World} c _ _ _.
Arguments now {World} c _.
Arguments handler {World} c _ _ _.
Arguments stringify {World} c _.

Definition traceOf {World : Type}
  (out : Trace * Next * OrchestrationContext * World) : Trace :=
  fst (fst (fst out)).

Definition nextOf {World : Type}
  (out : Trace * Next * OrchestrationContext * World) : Next :=
  snd (fst (fst out)).

Definition contextOf {World : Type}
  (out : Trace * Next * OrchestrationContext * World) : OrchestrationContext :=
  snd (fst out).

(** The texts the loop sends to the human, the reasoner and the audit
    history. *)
Definition breakerReason (maxAttempts : nat) : jsstring :=
  js "Maximum remediation attempts ("
  ++ Number_toString (Z.of_nat maxAttempts) ++ js ") exhausted.".

Definition breakerNeededContext : jsstring :=
  js "Provide additional context about the infrastructure or incident to help the agent try a different approach.".

Definition breakerFact : jsstring :=
  js "User context after max attempts reached".

Definition breakerContinue (ctx : jsstring) : Content :=
  UserText (js "User provided additional context after max attempts: "
            ++ ctx ++ js ". Attempt counter has been reset. Continue resolving the incident with this new information.").

Definition errorNudge (message : jsstring) : Content :=
  UserText (js "Error occurred: " ++ message
            ++ js ". Please select a capability to continue.").

Definition emptyResponse : jsstring := js "Empty response from orchestrator".

Definition unknownCapability (name : jsstring) : jsstring :=
  js "Unknown capability: " ++ name.

Definition selectionNudge : Content :=
  UserText (js "You must select a capability to invoke. Choose one of the available tools.").

Definition dismissedEntry (stamp : jsstring) : HistoryEntry.t :=
  HistoryEntry.mk stamp (js "escalate") true (js "User dismissed the incident").

Definition dismissedResponse : Content :=
  FunctionResponse (js "escalate") true
    (js "User chose to dismiss the incident.").

Definition continuedEntry (stamp ctx : jsstring) : HistoryEntry.t :=
  HistoryEntry.mk stamp (js "escalate") true
    (js "User provided context: " ++ ctx).

Definition continuedResponse : Content :=
  FunctionResponse (js "escalate") true
    (js "User provided additional context. Feasibility has been reset if it was false. failureContext has been cleared. Re-evaluate the situation with this new information.").

Definition approvedEntry (stamp : jsstring) : HistoryEntry.t :=
  HistoryEntry.mk stamp (js "requestApproval") true
    (js "User approved the plan").

Definition approvedResponse : Content :=
  FunctionResponse (js "requestApproval") true
    (js "User approved the plan. Proceed to executePlan.").

Definition rejectedEntry (stamp feedback : jsstring) : HistoryEntry.t :=
  HistoryEntry.mk stamp (js "requestApproval") false
    (js "User rejected: " ++ feedback).

Definition rejectedResponse (feedback : jsstring) : Content :=
  FunctionResponse (js "requestApproval") false
    (js "User rejected the plan. Feedback: " ++ [34%N] ++ feedback ++ [34%N]
     ++ js ". Use planRemediation to create a revised plan addressing this feedback.").

(** [result.success ? "Completed successfully" : (result.error ?? "Unknown error")]. *)
Definition summaryOf (result : CapabilityResult.t) : jsstring :=
  if CapabilityResult.success result
  then js "Completed successfully"
  else match CapabilityResult.error result with
       | Some e => e
       | None => js "Unknown error"
       end.

Section WithWorld.

Variable World : Type.
Variable env : Collaborators World.

Definition push {A : Type} (l : list A) (a : A) : list A := l ++ [a].

Definition pushHistory (c : OrchestrationContext) (e : HistoryEntry.t) :=
  mkContext (attemptCount c) (maxAttempts c) (push (history c) e)
    (orchestratorConversationHistory c).

Definition pushConversation (c : OrchestrationContext) (m : Content) :=
  mkContext (attemptCount c) (maxAttempts c) (history c)
    (push (orchestratorConversationHistory c) m).

Definition setAttemptCount (c : OrchestrationContext) (n : nat) :=
  mkContext n (maxAttempts c) (history c) (orchestratorConversationHistory c).

(** The user message that carries the current state to the reasoner. *)
Definition stateMessage (state : IncidentResolutionState) : Content :=
  UserText (js "Current State:" ++ [10%N] ++ stringify env state).

(** The [catch] clause at the end of the loop body. *)
Definition caught (state : IncidentResolutionState) (c : OrchestrationContext)
  (message : jsstring) (w : World)
  : Trace * Next * OrchestrationContext * World :=
  (Caught message, Continue state, pushConversation c (errorNudge message), w).

(** One pass through the loop body, entered with [state.resolution] pending. *)
Definition iteration (state : IncidentResolutionState)
  (context : OrchestrationContext) (w : World)
  : Trace * Next * OrchestrationContext * World :=
  if maxAttempts context <=? attemptCount context then
    (* circuit breaker *)
    let (choice, w1) :=
      resolveEscalation env (breakerReason (maxAttempts context))
        breakerNeededContext w in
    match choice with
    | Dismiss =>
        (BreakerDismissed, Break (with_resolution state dismissed), context, w1)
    | ContinueWith ctx =>
        let w2 := addFact env breakerFact ctx w1 in
        let context := setAttemptCount context 0 in
        let context := pushConversation context (breakerContinue ctx) in
        (BreakerContext ctx, Continue state, context, w2)
    end
  else
    let context := pushConversation context (stateMessage state) in
    let (response, w1) :=
      generateContent env (orchestratorConversationHistory context) w in
    match response with
    | CallFailed message => caught state context message w1
    | NoParts => caught state context emptyResponse w1
    | NoFunctionCall modelContent =>
        let context := pushConversation context modelContent in
        (Nudged, Continue state, pushConversation context selectionNudge, w1)
    | FunctionCall modelContent name reason neededContext =>
        let context := pushConversation context modelContent in
        match CAPABILITY_REGISTRY name with
        | None => caught state context (unknownCapability name) w1
        | Some escalate =>
            let (choice, w2) := resolveEscalation env reason neededContext w1 in
            match choice with
            | Dismiss =>
                let state := with_resolution state dismissed in
                let (stamp, w3) := now env w2 in
                let context := pushHistory context (dismissedEntry stamp) in
                let context := pushConversation context dismissedResponse in
                (EscalateDismissed, Continue state, context, w3)
            | ContinueWith ctx =>
                let w3 := addFact env reason ctx w2 in
                (* reset feasibility if it was false; clear failureContext *)
                let state :=
                  with_failureContext
                    (match feasibility state with
                     | Some f =>
                         if negb (FeasibilityAssessment.feasible f)
                         then with_feasibility state None
                         else state
                     | None => state
                     end)
                    None in
                let (stamp, w4) := now env w3 in
                let context := pushHistory context (continuedEntry stamp ctx) in
                let context := pushConversation context continuedResponse in
                (EscalateContinued ctx, Continue state, context, w4)
            end
        | Some requestApproval =>
            let (choice, w2) := askPlanApproval env w1 in
            match choice with
            | Approve =>
                let (stamp, w3) := now env w2 in
                let context := pushHistory context (approvedEntry stamp) in
                let context := pushConversation context approvedResponse in
                (Approved, Continue state, context, w3)
            | Reject feedback =>
                let state :=
                  State.mk (logs state) (incidentGraph state) (feasibility state)
                    (plan state)
                    None                         (* executionResult *)
                    None                         (* verificationResult *)
                    (Some (FailureContext.mk user_rejected None (Some feedback)
                             None))              (* failureContext *)
                    (plannerHistory state)
                    false                        (* planValidated *)
                    (resolution state) in
                let (stamp, w3) := now env w2 in
                let context :=
                  pushHistory context (rejectedEntry stamp feedback) in
                let context :=
                  pushConversation context (rejectedResponse feedback) in
                (Rejected feedback, Continue state, context, w3)
            end
        | Some capabilityName =>
            let hadFailureContext :=
              match failureContext state with Some _ => true | None => false end in
            let (result, w2) := handler env capabilityName state w1 in
            match CapabilityResult.idle result with
            | Some true =>
                (Dispatched capabilityName hadFailureContext result,
                 Return (mkOrchestratorResult (CapabilityResult.state result) true),
                 context, w2)
            | _ =>
                let finalState := CapabilityResult.state result in
                let (stamp, w3) := now env w2 in
                let context :=
                  pushHistory context
                    (HistoryEntry.mk stamp (nameOf capabilityName)
                       (CapabilityResult.success result) (summaryOf result)) in
                let context :=
                  pushConversation context
                    (FunctionResponse (nameOf capabilityName)
                       (CapabilityResult.success result) (summaryOf result)) in
                let context :=
                  if isPlanRemediation capabilityName && hadFailureContext
                  then setAttemptCount context (S (attemptCount context))
                  else context in
                (Dispatched capabilityName hadFailureContext result,
                 Continue finalState, context, w3)
            end
        end
    end.

(** The [while] loop, for at most [fuel] passes.  [None]: still running. *)
Fixpoint loop (fuel : nat) (state : IncidentResolutionState)
  (context : OrchestrationContext) (w : World)
  : list Trace * option OrchestratorResult * OrchestrationContext * World :=
  match resolution state with
  | pending =>
      match fuel with
      | O => ([], None, context, w)
      | S fuel' =>
          match iteration state context w with
          | (t, Continue state', context', w') =>
              let '(ts, r, c, w'') := loop fuel' state' context' w' in
              (t :: ts, r, c, w'')
          | (t, Break state', context', w') =>
              ([t], Some (mkOrchestratorResult state' false), context', w')
          | (t, Return r, context', w') => ([t], Some r, context', w')
          end
      end
  | _ => ([], Some (mkOrchestratorResult state false), context, w)
  end.

(** [policy.constraints.maxActionsPerIncident] is read at start-up. *)
Definition runOrchestrator (maxActionsPerIncident : nat) (fuel : nat)
  (logs : list jsstring) (w : World)
  : list Trace * option OrchestratorResult * OrchestrationContext * World :=
  let state := createInitialState logs in
  let context := createInitialContext maxActionsPerIncident in
  loop fuel state context w.

End WithWorld.

Arguments caught {World} state c message w.
Arguments stateMessage {World} env state.
Arguments iteration {World} env state context w.
Arguments loop {World} env fuel state context w.
Arguments runOrchestrator {World} env maxActionsPerIncident fuel logs w.

(** A planning call made with a failure context at hand. *)
Definition isReplan (t : Trace) : bool :=
  match t with
  | Dispatched planRemediation true _ => true
  | _ => false
  end.

(** The human answered the circuit breaker with new context. *)
Definition isInjection (t : Trace) : bool :=
  match t with
  | BreakerContext _ => true
  | _ => false
  end.

(** The pass asked the human at the circuit breaker and did nothing else. *)
Definition isBreaker (t : Trace) : bool :=
  match t with
  | BreakerDismissed | BreakerContext _ => true
  | _ => false
  end.

Definition replans (ts : list Trace) : nat := List.length (filter isReplan ts).

(** With [current] replans made since the last injection, no stretch of
    [ts] between injections holds more than [bound] replans. *)
Fixpoint bounded (bound current : nat) (ts : list Trace) : Prop :=
  match ts with
  | [] => True
  | t :: ts' =>
      if isInjection t then bounded bound 0 ts'
      else if isReplan t
           then S current <= bound /\ bounded bound (S current) ts'
           else bounded bound current ts'
  end.

End Workflow.

(* ================================================================== *)
(** ** observation/logBuffer.ts *)

Module LogBuffer.

Import Validator.

Inductive Stream : Type := stdout | stderr.

Record LogEvent : Type := mkEvent {
  container : jsstring;
  message : jsstring;
  stream : Stream;
  timestamp : N
}.

Record LogBatch : Type := mkBatch {
  logs : list jsstring;
  containers : list jsstring;
  triggeredAt : N
}.

Definition LIFECYCLE_KEYWORDS : list jsstring := map js [
  "sigterm"; "sigint"; "sighup"; "signal-handler"; "received signal";
  "scheduling shutdown";
  "shutdown"; "shutting down"; "stopping"; "stopped"; "exiting"; "bye bye";
  "graceful"; "gracefully"; "ready to exit";
  "starting"; "started"; "ready"; "listening"; "accepting connections";
  "server started"; "initialized";
  "health check"; "healthcheck"; "keepalive"; "heartbeat"
]%string.

Definition ERROR_KEYWORDS : list jsstring := map js [
  "error"; "exception"; "fatal"; "critical"; "panic"; "crash"; "crashed";
  "fail"; "failed"; "failure"; "econnrefused"; "timeout"; "timedout";
  "timed out"; "refused"; "denied"; "forbidden"; "unavailable";
  "unreachable"; "disconnected"; "cannot connect"; "unable to connect";
  "connection lost"; "oom"; "out of memory"; "memory allocation";
  "disk full"; "no space left"; "resource exhausted"; "oomkilled";
  "oom killed"; "aborted"; "segfault"; "core dumped"; "deadlock";
  "constraint"; "duplicate key"; "syntax error"; "connection pool";
  "nosuchbucket"; "access denied"; "invalid credentials"; "throttling";
  "cannot"; "unable"; "could not"; "invalid"; "missing"; "not found"
]%string.

Definition quote : regex := RChar 34.
Definition c45 : regex := RSet false [CChar 52; CChar 53].   (* [45] *)
Definition status3 : list regex := [c45; RDigit; RDigit].   (* [45]\d{2} *)

Fixpoint RAlts (l : list regex) : regex :=
  match l with
  | [] => RNegLook REmpty
  | [a] => a
  | a :: l' => RAlt a (RAlts l')
  end.

Definition levels : regex :=
  RAlts [RStr "error"; RStr "fatal"; RStr "critical"; RStr "panic"].

Definition ERROR_PATTERNS : list RegExp := [
  (* /\bHTTP[\/\s]\d\.\d\b.+?\b[45]\d{2}\b/ *)
  mkRegExp (RSeqs ([RWordB; RStr "HTTP"; RSet false [CChar 47; CSpace]; RDigit;
                    RStr "."; RDigit; RWordB; RPlus RAny; RWordB]
                   ++ status3 ++ [RWordB])) false;
  (* /(?:status[_\-\s]?(?:code)?[\s:=]+)[45]\d{2}\b/i *)
  mkRegExp (RSeqs ([RStr "status"; ROpt (RSet false [CChar 95; CChar 45; CSpace]);
                    ROpt (RStr "code");
                    RPlus (RSet false [CSpace; CChar 58; CChar 61])]
                   ++ status3 ++ [RWordB])) true;
  (* /"(?:status|code|statusCode|status_code)"\s*:\s*[45]\d{2}\b/ *)
  mkRegExp (RSeqs ([quote;
                    RAlts [RStr "status"; RStr "code"; RStr "statusCode";
                           RStr "status_code"];
                    quote; RStar RSpace; RStr ":"; RStar RSpace]
                   ++ status3 ++ [RWordB])) false;
  (* /\b[45]\d{2}\s+(?:Bad Request|...|Gateway Timeout)\b/ *)
  mkRegExp (RSeqs ([RWordB] ++ status3 ++
                   [RPlus RSpace;
                    RAlts [RStr "Bad Request"; RStr "Unauthorized";
                           RStr "Forbidden"; RStr "Not Found";
                           RStr "Method Not Allowed"; RStr "Conflict";
                           RStr "Gone"; RStr "Too Many Requests";
                           RStr "Internal Server Error"; RStr "Bad Gateway";
                           RStr "Service Unavailable"; RStr "Gateway Timeout"];
                    RWordB])) false;
  (* /"level"\s*:\s*"(error|fatal|critical|panic)"/i *)
  mkRegExp (RSeqs [quote; RStr "level"; quote; RStar RSpace; RStr ":";
                   RStar RSpace; quote; levels; quote]) true;
  (* /level=(error|fatal|critical|panic)/i *)
  mkRegExp (RSeq (RStr "level=") levels) true;
  (* /\[(error|fatal|critical|panic)\]/i *)
  mkRegExp (RSeqs [RStr "["; levels; RStr "]"]) true;
  (* /ERROR|FATAL|CRITICAL|SEVERE/ *)
  mkRegExp (RAlts [RStr "ERROR"; RStr "FATAL"; RStr "CRITICAL"; RStr "SEVERE"])
           false
].

Definition MAX_BUFFER_SIZE : nat := 100.

Section Filter.

(** [String.prototype.toLowerCase] of the host. *)
Variable toLowerCase : jsstring -> jsstring.

Definition isLifecycleEvent (msg : jsstring) : bool :=
  let lower := toLowerCase msg in
  existsb (fun keyword => includes lower keyword) LIFECYCLE_KEYWORDS.

Definition hasErrorIndicator (event : LogEvent) : bool :=
  let msg := toLowerCase (message event) in
  if existsb (fun keyword => includes msg keyword) ERROR_KEYWORDS then true
  else if existsb (fun pattern => test pattern (message event)) ERROR_PATTERNS
  then true
  else false.

Definition shouldInclude (event : LogEvent) : bool :=
  if isLifecycleEvent (message event) then false
  else match stream event with
       | stderr => true
       | stdout => hasErrorIndicator event
       end.

(** The closure variables of [startMonitoring], and the timeouts the
    runtime holds for it: handle and delay of each one not yet fired or
    cleared. *)
Record Monitor : Type := mkMonitor {
  buffer : list LogEvent;
  timer : option nat;
  isProcessing : bool;
  timeouts : list (nat * N);
  nextHandle : nat
}.

Definition start : Monitor := mkMonitor [] None false [] 0.

Variable windowMs : N.

(** [timer = setTimeout(() => void flush(), delay)]. *)
Definition setTimer (delay : N) (m : Monitor) : Monitor :=
  mkMonitor (buffer m) (Some (nextHandle m)) (isProcessing m)
    (timeouts m ++ [(nextHandle m, delay)]) (S (nextHandle m)).

Definition clearTimeout (h : nat) (m : Monitor) : Monitor :=
  mkMonitor (buffer m) (timer m) (isProcessing m)
    (filter (fun t => negb (Nat.eqb (fst t) h)) (timeouts m)) (nextHandle m).

Definition setTimerVar (v : option nat) (m : Monitor) : Monitor :=
  mkMonitor (buffer m) v (isProcessing m) (timeouts m) (nextHandle m).

Definition makeBatch (events : list LogEvent) (dateNow : N) : LogBatch :=
  mkBatch
    (map (fun e => js "[" ++ container e ++ js "] " ++ message e) events)
    (newSet (map container events) [])
    dateNow.

(** [flush] up to its [await]: the batch handed to [onBatchReady], if any. *)
Definition flush (dateNow : N) (m : Monitor) : Monitor * option LogBatch :=
  if Nat.eqb (List.length (buffer m)) 0 || isProcessing m then (m, None)
  else
    (mkMonitor [] None true (timeouts m) (nextHandle m),
     Some (makeBatch (buffer m) dateNow)).

(** The [finally] block of [flush], run when the callback has settled. *)
Definition settled (m : Monitor) : Monitor :=
  let m := mkMonitor (buffer m) (timer m) false (timeouts m) (nextHandle m) in
  match buffer m, timer m with
  | _ :: _, None =>
      let delay :=
        if MAX_BUFFER_SIZE <=? List.length (buffer m) then 0%N else windowMs in
      setTimer delay m
  | _, _ => m
  end.

Definition handleLogEvent (event : LogEvent) (dateNow : N) (m : Monitor)
  : Monitor * option LogBatch :=
  if negb (shouldInclude event) then (m, None)
  else
    let m := mkMonitor (buffer m ++ [event]) (timer m) (isProcessing m)
               (timeouts m) (nextHandle m) in
    if (MAX_BUFFER_SIZE <=? List.length (buffer m)) && negb (isProcessing m) then
      let m :=
        match timer m with
        | Some h => setTimerVar None (clearTimeout h m)
        | None => m
        end in
      flush dateNow m
    else if negb (isProcessing m) then
      let m :=
        match timer m with
        | Some h => clearTimeout h m
        | None => m
        end in
      (setTimer windowMs m, None)
    else (m, None).

Definition stop (m : Monitor) : Monitor :=
  match timer m with
  | Some h => setTimerVar None (clearTimeout h m)
  | None => m
  end.

(** What can happen to a running monitor. *)
Inductive Action : Type :=
  | Log (event : LogEvent) (dateNow : N)   (* a stream delivers an event *)
  | Fire (h : nat) (dateNow : N)           (* the runtime fires timeout h *)
  | Settle                                 (* the batch callback settles *)
  | Stop.

(** Which call of [flush] produced a batch. *)
Inductive Trigger : Type :=
  | ByCap                  (* the backpressure branch of handleLogEvent *)
  | ByTimer (delay : N).   (* a timeout set with this delay *)

Definition step (m : Monitor) (a : Action)
  : Monitor * option (Trigger * LogBatch) :=
  match a with
  | Log event dateNow =>
      let (m', b) := handleLogEvent event dateNow m in
      (m', option_map (pair ByCap) b)
  | Fire h dateNow =>
      match find (fun t => Nat.eqb (fst t) h) (timeouts m) with
      | Some (_, delay) =>
          let (m', b) := flush dateNow (clearTimeout h m) in
          (m', option_map (pair (ByTimer delay)) b)
      | None => (m, None)
      end
  | Settle => if isProcessing m then (settled m, None) else (m, None)
  | Stop => (stop m, None)
  end.

Fixpoint run (m : Monitor) (actions : list Action)
  : Monitor * list (Trigger * LogBatch) :=
  match actions with
  | [] => (m, [])
  | a :: rest =>
      let (m', out) := step m a in
      let (m'', outs) := run m' rest in
      (m'', match out with Some b => b :: outs | None => outs end)
  end.

End Filter.

End LogBuffer.

(* ================================================================== *)
(** ** What an execution result must look like *)

Module ExecutorSpec.

(** What the loop keeps true of the results gathered before index [i]. *)
Definition gathered (done : list PlanStep.t) (i : Z) (results : list StepResult.t)
  : Prop :=
  i = Z.of_nat (List.length results)
  /\ map StepResult.step results = map PlanStep.action done
  /\ Forall (fun r => StepResult.status r = Success) results.

(** What [executeCommands] promises of its result for the list [steps]. *)
Definition well_formed (steps : list PlanStep.t) (r : ExecutionResult.t) : Prop :=
  let results := ExecutionResult.results r in
  let failedAtStep := ExecutionResult.failedAtStep r in
  (failedAtStep = (-1)%Z
   <-> Forall (fun x => StepResult.status x = Success) results)
  /\ (failedAtStep <> (-1)%Z ->
      (exists x, index results failedAtStep = Some x
                 /\ StepResult.status x = Failure)
      /\ Z.of_nat (List.length results) = (failedAtStep + 1)%Z
      /\ forall i x, (Z.of_nat i < failedAtStep)%Z ->
                     nth_error results i = Some x ->
                     StepResult.status x = Success)
  /\ (failedAtStep = (-1)%Z -> List.length results = List.length steps)
  /\ map StepResult.step results
     = map PlanStep.action (firstn (List.length results) steps).

Section Runs.

Variable World : Type.
Variable execCmd : jsstring -> World -> Executor.CommandResult * World.
Variable now : World -> jsstring * World.

(** The step [s] was run in the world [w]: [x] records what the shell
    returned for its command there, with the time read next, and [w'] is
    the world after that. *)
Definition ran (s : PlanStep.t) (w : World) (x : StepResult.t) (w' : World)
  : Prop :=
  exists c w1 stamp,
    execCmd (PlanStep.action s) w = (c, w1)
    /\ now w1 = (stamp, w')
    /\ StepResult.step x = PlanStep.action s
    /\ StepResult.status x
       = (if Executor.success c then Success else Failure)
    /\ StepResult.exitCode x = Executor.exitCode c
    /\ StepResult.stdout x = Executor.stdout c
    /\ StepResult.stderr x = Executor.stderr c
    /\ StepResult.timestamp x = stamp.

(** The steps were run one after the other, each in the world the one
    before it left. *)
Inductive ranInTurn
  : list PlanStep.t -> World -> list StepResult.t -> World -> Prop :=
  | ranNone : forall w, ranInTurn [] w [] w
  | ranNext : forall s rest w x w1 xs w2,
      ran s w x w1 -> ranInTurn rest w1 xs w2 ->
      ranInTurn (s :: rest) w (x :: xs) w2.

End Runs.

Arguments ran {World} execCmd now s w x w'.
Arguments ranInTurn {World} execCmd now _ _ _ _.

End ExecutorSpec.

(* ================================================================== *)
(** ** Concrete collaborators and inputs *)

Module Examples.

Import Workflow.

(** A reasoner that always asks for approval and a human who always
    rejects. *)
Definition rejecting : Collaborators unit :=
  mkCollaborators
    (fun _ w => (FunctionCall (ModelContent []) (js "requestApproval") [] [], w))
    (fun _ _ w => (Dismiss, w))
    (fun w => (Reject (js "not now"), w))
    (fun _ _ w => w)
    (fun w => (js "2026-01-01T00:00:00.000Z", w))
    (fun _ s w => (failure s [], w))
    (fun _ => js "{}").

(** A reasoner that asks for approval first and for a new plan ever
    after, a human who rejects and then dismisses, and a planner that
    fails: the world counts the reasoner's calls. *)
Definition insisting : Collaborators nat :=
  mkCollaborators
    (fun _ w =>
       (FunctionCall (ModelContent [])
          (match w with
           | O => js "requestApproval"
           | S _ => js "planRemediation"
           end) [] [],
        S w))
    (fun _ _ w => (Dismiss, w))
    (fun w => (Reject (js "not now"), w))
    (fun _ _ w => w)
    (fun w => (js "2026-01-01T00:00:00.000Z", w))
    (fun _ s w => (failure s (js "Planning failed: offline"), w))
    (fun _ => js "{}").

(** A shell whose commands succeed or fail as the world scripts it. *)
Definition scripted (command : jsstring) (w : list bool)
  : Executor.CommandResult * list bool :=
  match w with
  | ok :: w' =>
      (Executor.mkResult ok (if ok then 0%Z else 1%Z) [] (if ok then [] else js "boom"), w')
  | [] => (Executor.mkResult true 0 [] [], [])
  end.

Definition frozen (w : list bool) : jsstring * list bool :=
  (js "2026-01-01T00:00:00.000Z", w).

Definition three : list PlanStep.t :=
  [PlanStep.mk (js "docker restart cache") (js "restart");
   PlanStep.mk (js "docker restart api") (js "restart");
   PlanStep.mk (js "docker restart db") (js "restart")].

Definition inspectRunning : jsstring :=
  js "docker inspect cache --format '{{.State.Running}}'".

Definition shellEcho : jsstring :=
  js "docker exec api sh -c " ++ [34%N] ++ js "echo test" ++ [34%N].

(** A laboratory for whole runs: the world holds the capability names the
    reasoner will pick, in order, and the outcomes of the shell's commands.
    The analyzer and the feasibility assessor answer for a stopped cache,
    the planner proposes to start it, the human approves; validation,
    execution and verification are the capabilities themselves. *)
Definition Lab : Type := (list jsstring * list bool)%type.

Definition labShell (command : jsstring) (w : Lab)
  : Executor.CommandResult * Lab :=
  let (r, rest) := scripted command (snd w) in (r, (fst w, rest)).

Definition labClock (w : Lab) : jsstring * Lab :=
  (js "2026-01-01T00:00:00.000Z", w).

Definition cacheStopped : IncidentGraph.t :=
  IncidentGraph.mk
    [IncidentNode.mk (js "cache") (js "container.cache.stopped")
       [js "[cache] Container stopped unexpectedly"]
       (js "2026-01-01T00:00:00.000Z")]
    [] (Some 0%Z) (js "cache stopped").

Definition startCache : RemediationPlan.t :=
  RemediationPlan.mk (js "start the cache")
    [PlanStep.mk (js "docker start cache") (js "start")]
    [PlanStep.mk inspectRunning (js "check")].

(** [executePlan] and [verifyPlan] always return (ExecutePlanFacts,
    VerifyPlanFacts); the second branch is never taken. *)
Definition returned (state : IncidentResolutionState)
  (out : completion CapabilityResult.t * Lab) : CapabilityResult.t * Lab :=
  match fst out with
  | Normal r => (r, snd out)
  | Throws message => (failure state message, snd out)
  end.

Definition lab : Collaborators Lab :=
  mkCollaborators
    (fun _ w =>
       match fst w with
       | name :: rest => (FunctionCall (ModelContent []) name [] [], (rest, snd w))
       | [] => (NoFunctionCall (ModelContent []), w)
       end)
    (fun _ _ w => (Dismiss, w))
    (fun w => (Approve, w))
    (fun _ _ w => w)
    labClock
    (fun c s w =>
       match c with
       | analyzeIncident =>
           (success (with_incidentGraph s (Some cacheStopped)) NoData, w)
       | assessFeasibility =>
           (success
              (with_feasibility s
                 (Some (FeasibilityAssessment.mk true (js "restartable") None)))
              NoData, w)
       | planRemediation =>
           PlanRemediation.planRemediation
             (fun _ w' => (Normal (startCache, []), w')) s w
       | validatePlan =>
           (ValidatePlan.validatePlan [js "cache"; js "api"] s, w)
       | executePlan =>
           returned s (ExecutePlan.executePlan labShell labClock s w)
       | verifyPlan =>
           returned s (VerifyPlan.verifyPlan labShell labClock s w)
       | _ => (failure s [], w)
       end)
    (fun _ => js "{}").

Definition happyPath : list jsstring :=
  map js ["analyzeIncident"; "assessFeasibility"; "planRemediation";
          "validatePlan"; "requestApproval"; "executePlan";
          "verifyPlan"]%string.

Definition secondTry : list jsstring :=
  map js ["analyzeIncident"; "assessFeasibility"; "planRemediation";
          "validatePlan"; "requestApproval"; "executePlan";
          "planRemediation"; "validatePlan"; "requestApproval";
          "executePlan"; "verifyPlan"]%string.

End Examples.

(* ================================================================== *)
(** ** The log filter and the batcher, stated on strings and runs *)

Module LogBufferSpec.

Import LogBuffer.

(** The number of events a batch carries. *)
Definition size (b : LogBatch) : nat := List.length (logs b).

(** While no batch is in flight the buffer stays below the cap. *)
Definition below (m : Monitor) : Prop :=
  isProcessing m = false -> List.length (buffer m) < MAX_BUFFER_SIZE.

(** The pattern matches somewhere in the string. *)
Definition matchesIn (p : RegExp) (t : jsstring) : Prop :=
  exists i j, i <= List.length t /\ Matches (ignoreCase p) t (source p) i j.

(** The error patterns by family: the four forms of an HTTP status 4xx or
    5xx, the three forms of a structured log level error, fatal, critical
    or panic, and the tokens of the last pattern, which has no [i] flag. *)
Definition STATUS_PATTERNS : list RegExp := firstn 4 ERROR_PATTERNS.
Definition LEVEL_PATTERNS : list RegExp := firstn 3 (skipn 4 ERROR_PATTERNS).
Definition UPPER_CASE_TOKENS : list jsstring :=
  map js ["ERROR"; "FATAL"; "CRITICAL"; "SEVERE"]%string.

(** A line on stdout with the token SEVERE and nothing else of note. *)
Definition severe : LogEvent :=
  mkEvent (js "api") (js "SEVERE: pool exhausted") stdout 0.

Section Runs.

Variable toLowerCase : jsstring -> jsstring.
Variable windowMs : N.

(** No batch callback of the run settles with [MAX_BUFFER_SIZE] or more
    events waiting in the buffer. *)
Fixpoint calm (m : Monitor) (actions : list Action) : Prop :=
  match actions with
  | [] => True
  | a :: rest =>
      (a = Settle -> isProcessing m = true ->
       List.length (buffer m) < MAX_BUFFER_SIZE)
      /\ calm (fst (step toLowerCase windowMs m a)) rest
  end.

End Runs.

(** A hundred events fill the buffer and are flushed; a hundred and one
    more arrive while the callback is in flight; the callback settles;
    one more event arrives before the zero-delay timeout fires. *)
Definition refused : LogEvent :=
  mkEvent (js "api") (js "connection refused") stdout 0.

Definition burst : list Action :=
  repeat (Log refused 0) 201 ++ [Settle; Log refused 0].

(** A hundred events, flushed by the cap; the callback settles; three
    more events and the debounce timeout. *)
Definition quiet : list Action :=
  repeat (Log refused 0) 100 ++ [Settle] ++ repeat (Log refused 0) 3
  ++ [Fire 101 0; Settle].

End LogBufferSpec.

(* ================================================================== *)
(** ** The orchestrator loop, stated on passes and runs *)

Module WorkflowSpec.

Import Workflow.

(** The state after the human answered an escalation with context:
    [{ ...state, ...(infeasible ? { feasibility: null } : {}),
       failureContext: null }]. *)
Definition afterContext (state : IncidentResolutionState)
  : IncidentResolutionState :=
  with_failureContext
    (match feasibility state with
     | Some f =>
         if negb (FeasibilityAssessment.feasible f)
         then with_feasibility state None
         else state
     | None => state
     end)
    None.

(** The state after the human rejected the plan. *)
Definition afterRejection (state : IncidentResolutionState)
  (feedback : jsstring) : IncidentResolutionState :=
  State.mk (logs state) (incidentGraph state) (feasibility state) (plan state)
    None None
    (Some (FailureContext.mk user_rejected None (Some feedback) None))
    (plannerHistory state) false (resolution state).

(** The entry a pass leaves in the audit history: the capability's name
    and the success flag.  A pass at the circuit breaker, a reasoner
    error, a nudge and a handler that reports idle leave none. *)
Definition audited (t : Trace) : list (jsstring * bool) :=
  match t with
  | EscalateDismissed | EscalateContinued _ => [(js "escalate", true)]
  | Approved => [(js "requestApproval", true)]
  | Rejected _ => [(js "requestApproval", false)]
  | Dispatched c _ result =>
      match CapabilityResult.idle result with
      | Some true => []
      | _ => [(nameOf c, CapabilityResult.success result)]
      end
  | BreakerDismissed | BreakerContext _ | Caught _ | Nudged => []
  end.

(** What an audit entry says of a pass. *)
Definition entryOf (e : HistoryEntry.t) : jsstring * bool :=
  (HistoryEntry.capability e, HistoryEntry.success e).

(** The collaborators with other capability handlers. *)
Definition withHandler {World : Type} (env : Collaborators World)
  (h : CapabilityName -> IncidentResolutionState -> World ->
       CapabilityResult.t * World) : Collaborators World :=
  mkCollaborators (generateContent env) (resolveEscalation env)
    (askPlanApproval env) (addFact env) (now env) h (stringify env).

(** The capabilities the loop handles itself. *)
Definition inline (c : CapabilityName) : bool :=
  match c with
  | escalate | requestApproval => true
  | _ => false
  end.

(** The state a pass hands on. *)
Definition stateOf (n : Next) : IncidentResolutionState :=
  match n with
  | Continue s | Break s => s
  | Return r => finalState r
  end.

Definition worldOf {World : Type}
  (out : Trace * Next * OrchestrationContext * World) : World :=
  snd out.

(** A reasoner that always escalates and a human who always answers with
    context. *)
Definition escalating : Collaborators unit :=
  mkCollaborators
    (fun _ w =>
       (FunctionCall (ModelContent []) (js "escalate")
          (js "memory limit unknown") (js "the limit of the cache"), w))
    (fun _ _ w => (ContinueWith (js "512m"), w))
    (fun w => (Approve, w))
    (fun _ _ w => w)
    (fun w => (js "2026-01-01T00:00:00.000Z", w))
    (fun _ s w => (failure s [], w))
    (fun _ => js "{}").

(** Handlers that differ from those of [escalating] on the two inline
    capabilities only. *)
Definition otherInline (c : CapabilityName) (s : IncidentResolutionState)
  (w : unit) : CapabilityResult.t * unit :=
  if inline c then (success (with_resolution s resolved) NoData, w)
  else handler escalating c s w.

End WorkflowSpec.

(* ================================================================== *)
(** ** capabilities/types.ts, with the type of the data *)

(** [CapabilityResult<T>].  The registry holds handlers of type
    [CapabilityHandler], whose results are [CapabilityResult<unknown>]:
    the loop reads [success], [state], [error] and [idle] and never the
    data. *)
Module Typed.

Record Result (T : Type) : Type := mkResult {
  success : bool;
  state : IncidentResolutionState;
  data : option T;             (* data?: T *)
  error : option jsstring;
  idle : option bool
}.

Arguments mkResult {T} _ _ _ _ _.
Arguments success {T} _.
Arguments state {T} _.
Arguments data {T} _.
Arguments error {T} _.
Arguments idle {T} _.

Definition succeed {T : Type} (s : IncidentResolutionState) (d : T) : Result T :=
  mkResult true s (Some d) None None.

Definition fail {T : Type} (s : IncidentResolutionState) (e : jsstring)
  : Result T :=
  mkResult false s None (Some e) None.

(** A typed result where a [CapabilityResult<unknown>] is expected. *)
Definition untyped {T : Type} (r : Result T) : CapabilityResult.t :=
  CapabilityResult.mk (success r) (state r) NoData (error r) (idle r).

End Typed.

(* ================================================================== *)
(** ** capabilities/analyzeIncident/capability.ts *)

Module AnalyzeIncident.

Import Typed.

Section WithWorld.

Variable World : Type.

(** [runAgent<IncidentGraphAnalysis>] on the numbered log lines: the
    reasoner's analysis, or the error it throws. *)
Variable runAgent :
  list jsstring -> World -> completion IncidentGraph.t * World.

(** The data is [IncidentGraph | null]. *)
Definition analyzeIncident (state : IncidentResolutionState) (w : World)
  : Result (option IncidentGraph.t) * World :=
  match logs state with
  | None => (fail state (js "Cannot analyze: no logs present."), w)
  | Some lines =>
      if Nat.eqb (List.length lines) 0 then
        (fail state (js "Cannot analyze: no logs present."), w)
      else
        match incidentGraph state with
        | Some _ => (fail state (js "Incident graph already identified."), w)
        | None =>
            match runAgent lines w with
            | (Normal result, w') =>
                (* no incident detected *)
                if match IncidentGraph.root result with
                   | None => true
                   | Some _ => false
                   end
                   || Nat.eqb (List.length (IncidentGraph.nodes result)) 0
                then (succeed state None, w')
                else
                  let incidentGraph :=
                    IncidentGraph.mk (IncidentGraph.nodes result)
                      (IncidentGraph.edges result) (IncidentGraph.root result)
                      (IncidentGraph.summary result) in
                  (succeed (with_incidentGraph state (Some incidentGraph))
                     (Some incidentGraph), w')
            | (Throws message, w') =>
                (fail state (js "Analysis failed: " ++ message), w')
            end
        end
  end.

(** [{ ...result, idle }]: idle when the analysis succeeded and found no
    incident. *)
Definition handler (state : IncidentResolutionState) (w : World)
  : Result (option IncidentGraph.t) * World :=
  let (result, w') := analyzeIncident state w in
  let idle :=
    success result
    && match incidentGraph (Typed.state result) with
       | None => true
       | Some g => Nat.eqb (List.length (IncidentGraph.nodes g)) 0
       end in
  (mkResult (success result) (Typed.state result) (data result) (error result)
     (Some idle), w').

End WithWorld.

Arguments analyzeIncident {World} runAgent state w.
Arguments handler {World} runAgent state w.

End AnalyzeIncident.

(* ================================================================== *)
(** ** capabilities/assessFeasibility/capability.ts *)

Module AssessFeasibility.

Import Typed.

Section WithWorld.

Variable World : Type.

(** [runAgent<FeasibilityAssessment>] on the prompt built from the compose
    file, the knowledge file and the incident graph; its tools inspect
    containers and ask the human, whose answers go to the knowledge file. *)
Variable runAgent :
  IncidentResolutionState -> World ->
  completion FeasibilityAssessment.t * World.

Definition assessFeasibility (state : IncidentResolutionState) (w : World)
  : Result FeasibilityAssessment.t * World :=
  match incidentGraph state with
  | None =>
      (fail state (js "Cannot assess feasibility: no incident identified."), w)
  | Some graph =>
      if Nat.eqb (List.length (IncidentGraph.nodes graph)) 0 then
        (fail state (js "Cannot assess feasibility: no incident identified."), w)
      else
        match IncidentGraph.root graph with
        | None =>
            (fail state
               (js "Cannot assess feasibility: no root cause specified in graph."),
             w)
        | Some root =>
            match index (IncidentGraph.nodes graph) root with
            | None =>
                (fail state
                   (js "Cannot assess feasibility: root cause index out of bounds."),
                 w)
            | Some rootNode =>
                match runAgent state w with
                | (Normal result, w') =>
                    (succeed (with_feasibility state (Some result)) result, w')
                | (Throws message, w') =>
                    (fail state
                       (js "Feasibility assessment failed: " ++ message), w')
                end
            end
        end
  end.

End WithWorld.

Arguments assessFeasibility {World} runAgent state w.

End AssessFeasibility.

(* ================================================================== *)
(** ** orchestration/workflow.ts: the registry of handlers *)

Module Registry.

Import Workflow.

(** What the engine does not decide itself. *)
Record Oracles (World : Type) : Type := mkOracles {
  reasoner : list Content -> World -> ReasonerResponse * World;
  escalation : jsstring -> jsstring -> World -> EscalationResolution * World;
  approval : World -> ApprovalChoice * World;
  knowledge : jsstring -> jsstring -> World -> World;
  clock : World -> jsstring * World;
  shell : jsstring -> World -> Executor.CommandResult * World;
  analyst : list jsstring -> World -> completion IncidentGraph.t * World;
  assessor :
    IncidentResolutionState -> World ->
    completion FeasibilityAssessment.t * World;
  planner :
    IncidentResolutionState -> World ->
    completion (RemediationPlan.t * list Content) * World;
  json : IncidentResolutionState -> jsstring
}.

Arguments mkOracles {World} _ _ _ _ _ _ _ _ _ _.
Arguments reasoner {World} o _ _.
Arguments escalation {World} o _ _ _.
Arguments approval {World} o _.
Arguments knowledge {World} o _ _ _.
Arguments clock {World} o _.
Arguments shell {World} o _ _.
Arguments analyst {World} o _ _.
Arguments assessor {World} o _ _.
Arguments planner {World} o _ _.
Arguments json {World} o _.

Section WithWorld.

Variable World : Type.

(** [infrastructure.containers]. *)
Variable containers : list jsstring.
Variable o : Oracles World.

(** [reportFindingsCapability.handler]. *)
Definition reportFindingsHandler (state : IncidentResolutionState)
  : CapabilityResult.t :=
  Capability.success (with_resolution state observed) NoData.

(** A handler's promise, awaited.  [executePlan] and [verifyPlan] never
    reject (SystemFacts.executePlan_settles, SystemFacts.verifyPlan_settles),
    so the second case never arises. *)
Definition awaited (state : IncidentResolutionState)
  (out : completion CapabilityResult.t * World) : CapabilityResult.t * World :=
  match fst out with
  | Normal result => (result, snd out)
  | Throws message => (Capability.failure state message, snd out)
  end.

(** [CAPABILITY_REGISTRY[name].handler].  The handlers registered for
    escalate and requestApproval only throw; no pass of the loop calls
    them (OrchestratorFacts.iteration_inline). *)
Definition handlerOf (c : CapabilityName) (state : IncidentResolutionState)
  (w : World) : CapabilityResult.t * World :=
  match c with
  | analyzeIncident =>
      let (r, w') := AnalyzeIncident.handler (analyst o) state w in
      (Typed.untyped r, w')
  | assessFeasibility =>
      let (r, w') := AssessFeasibility.assessFeasibility (assessor o) state w in
      (Typed.untyped r, w')
  | planRemediation => PlanRemediation.planRemediation (planner o) state w
  | validatePlan => (ValidatePlan.validatePlan containers state, w)
  | executePlan =>
      awaited state (ExecutePlan.executePlan (shell o) (clock o) state w)
  | verifyPlan =>
      awaited state (VerifyPlan.verifyPlan (shell o) (clock o) state w)
  | reportFindings => (reportFindingsHandler state, w)
  | requestApproval =>
      (Capability.failure state
         (js "requestApproval is handled inline in the orchestration loop"), w)
  | escalate =>
      (Capability.failure state
         (js "escalate is handled inline in the orchestration loop"), w)
  end.

(** The loop's collaborators, with the registry's handlers. *)
Definition engine : Collaborators World :=
  mkCollaborators (reasoner o) (escalation o) (approval o) (knowledge o)
    (clock o) handlerOf (json o).

End WithWorld.

Arguments awaited {World} state out.
Arguments handlerOf {World} containers o c state w.
Arguments engine {World} containers o.

End Registry.

(* ================================================================== *)
(** ** A journal of what was done to the world *)

Module Journal.

Section WithWorld.

Variable World : Type.
Variable Entry : Type.

(** The world and, beside it, the entries written so far. *)
Definition Journaled : Type := (World * list Entry)%type.

(** A call that writes nothing. *)
Definition silently {A : Type} (f : World -> A * World) (j : Journaled)
  : A * Journaled :=
  let (a, w') := f (fst j) in (a, (w', snd j)).

(** A call that is entered in the journal. *)
Definition recording {A : Type} (entry : Entry) (f : World -> A * World)
  (j : Journaled) : A * Journaled :=
  let (a, w') := f (fst j) in (a, (w', snd j ++ [entry])).

End WithWorld.

Arguments silently {World Entry A} f j.
Arguments recording {World Entry A} entry f j.

(** The engine's oracles over a journal of the commands handed to the
    shell. *)
Definition shellJournal {World : Type} (o : Registry.Oracles World)
  : Registry.Oracles (Journaled World jsstring) :=
  Registry.mkOracles
    (fun h => silently (Registry.reasoner o h))
    (fun a b => silently (Registry.escalation o a b))
    (silently (Registry.approval o))
    (fun a b j => (Registry.knowledge o a b (fst j), snd j))
    (silently (Registry.clock o))
    (fun command => recording command (Registry.shell o command))
    (fun l => silently (Registry.analyst o l))
    (fun s => silently (Registry.assessor o s))
    (fun s => silently (Registry.planner o s))
    (Registry.json o).

End Journal.

(* ================================================================== *)
(** ** What the engine keeps true of the state *)

Module SystemSpec.

Import Validator.

Section WithContainers.

Variable containers : list jsstring.

(** The validator accepts the command of a step for the known containers. *)
Definition accepted (command : jsstring) : Prop :=
  validateCommand command (newSet containers []) = Valid.

(** Every command of the plan, of both lists, is accepted. *)
Definition vetted (p : RemediationPlan.t) : Prop :=
  Forall (fun s => accepted (PlanStep.action s)) (RemediationPlan.steps p)
  /\ Forall (fun s => accepted (PlanStep.action s))
       (RemediationPlan.verification p).

(** A run of [steps] in which every command ran and succeeded. *)
Definition allSucceeded (steps : list PlanStep.t) (r : ExecutionResult.t)
  : Prop :=
  ExecutionResult.failedAtStep r = (-1)%Z
  /\ map StepResult.step (ExecutionResult.results r) = map PlanStep.action steps
  /\ Forall (fun x => StepResult.status x = Success) (ExecutionResult.results r).

(** The validated flag stands for a vetted plan, and an execution result
    is that of the present, validated plan. *)
Definition sound (s : IncidentResolutionState) : Prop :=
  (planValidated s = true -> exists p, plan s = Some p /\ vetted p)
  /\ (forall er, executionResult s = Some er ->
        planValidated s = true
        /\ exists p, plan s = Some p
                     /\ ExecutorSpec.well_formed (RemediationPlan.steps p) er).

(** What [resolved] stands for. *)
Definition verified (s : IncidentResolutionState) : Prop :=
  exists p er vr,
    plan s = Some p /\ planValidated s = true /\ vetted p
    /\ executionResult s = Some er
    /\ allSucceeded (RemediationPlan.steps p) er
    /\ verificationResult s = Some vr
    /\ allSucceeded (RemediationPlan.verification p) vr.

(** What the engine's loop keeps of a state and a world: the state is
    sound, resolved only when verified, and [Q] holds of the world. *)
Definition kept {World : Type} (Q : World -> Prop)
  (s : IncidentResolutionState) (w : World) : Prop :=
  sound s /\ (resolution s = resolved -> verified s) /\ Q w.

End WithContainers.

End SystemSpec.

(* ================================================================== *)
(** ** A laboratory for the engine *)

Module Laboratory.

Import Workflow Registry Examples.

(** The oracles of [Examples.lab]: a scripted reasoner and shell, a human
    who approves and dismisses, an analyst who finds the stopped cache, an
    assessor who finds it restartable and a planner who starts it. *)
Definition labOracles : Oracles Lab :=
  mkOracles
    (fun _ w =>
       match fst w with
       | name :: rest => (FunctionCall (ModelContent []) name [] [], (rest, snd w))
       | [] => (NoFunctionCall (ModelContent []), w)
       end)
    (fun _ _ w => (Dismiss, w))
    (fun w => (Approve, w))
    (fun _ _ w => w)
    labClock
    labShell
    (fun _ w => (Normal cacheStopped, w))
    (fun _ w =>
       (Normal (FeasibilityAssessment.mk true (js "restartable") None), w))
    (fun _ w => (Normal (startCache, []), w))
    (fun _ => js "{}").

Definition labContainers : list jsstring := [js "cache"; js "api"].

(** The run of scenario 1 and the result it returns. *)
Definition labRun :=
  runOrchestrator (engine labContainers labOracles) 3 20
    [js "[cache] Container stopped unexpectedly"] (happyPath, [true; true]).

Definition labResult : OrchestratorResult :=
  match snd (fst (fst labRun)) with
  | Some r => r
  | None => mkOrchestratorResult (createInitialState []) false
  end.

End Laboratory.

(* ================================================================== *)
(** ** The batcher, stated on runs *)

Module MonitorSpec.

Import LogBuffer.

(** The line a batch carries for an event: [`[${e.container}] ${e.message}`]. *)
Definition line (e : LogEvent) : jsstring :=
  js "[" ++ container e ++ js "] " ++ message e.

(** The lines handed to the callback, batch after batch. *)
Definition delivered (outs : list (Trigger * LogBatch)) : list jsstring :=
  List.concat (map (fun out => logs (snd out)) outs).

(** The batch [b] carries the events [events]: at least one; its lines are
    theirs, in order; its containers are those they came from, each once. *)
Definition carries (events : list LogEvent) (b : LogBatch) : Prop :=
  events <> []
  /\ logs b = map line events
  /\ NoDup (containers b)
  /\ forall c, In c (containers b) <-> exists e, In e events /\ container e = c.

(** How often the callback settles in a list of actions. *)
Fixpoint settles (actions : list Action) : nat :=
  match actions with
  | [] => 0
  | Settle :: rest => S (settles rest)
  | _ :: rest => settles rest
  end.

Section Runs.

Variable toLowerCase : jsstring -> jsstring.
Variable windowMs : N.

(** The events of a list of actions that pass the filter, in order. *)
Fixpoint arrivals (actions : list Action) : list LogEvent :=
  match actions with
  | [] => []
  | Log event _ :: rest =>
      if shouldInclude toLowerCase event then event :: arrivals rest
      else arrivals rest
  | _ :: rest => arrivals rest
  end.

(** The timeouts the runtime holds are those the monitor knows of: none
    while a batch is in flight or when [timer] is null, otherwise the one
    [timer] names, set for a buffer that is not empty - with the window's
    delay below the cap, with no delay at or above it. *)
Definition tidy (m : Monitor) : Prop :=
  match timer m with
  | None => timeouts m = []
  | Some h =>
      isProcessing m = false
      /\ h < nextHandle m
      /\ exists delay,
           timeouts m = [(h, delay)]
           /\ buffer m <> []
           /\ (delay = windowMs /\ List.length (buffer m) < MAX_BUFFER_SIZE
               \/ delay = 0%N /\ MAX_BUFFER_SIZE <= List.length (buffer m))
  end.

End Runs.

End MonitorSpec.

(* ================================================================== *)
(** ** observation/observeContainerLogs.ts *)

Module ObserveContainerLogs.

Import LogBuffer.

(** [String.prototype.split] on a separator of one code unit; [current]
    is the piece being read. *)
Fixpoint splitFrom (sep : N) (current s : jsstring) : list jsstring :=
  match s with
  | [] => [current]
  | c :: rest =>
      if (c =? sep)%N then current :: splitFrom sep [] rest
      else splitFrom sep (current ++ [c]) rest
  end.

Definition split (sep : N) (s : jsstring) : list jsstring := splitFrom sep [] s.

Definition isEmpty (s : jsstring) : bool :=
  match s with [] => true | _ :: _ => false end.

Section WithWorld.

Variable World : Type.

(** [Date.now()]. *)
Variable dateNow : World -> N * World.

(** The loop over the lines of a chunk; the events are handed to [onLog]
    one by one, in this order. *)
Fixpoint deliver (containerName : jsstring) (streamType : Stream)
  (lines : list jsstring) (w : World) : list LogEvent * World :=
  match lines with
  | [] => ([], w)
  | line :: rest =>
      let trimmed := trim line in
      if isEmpty trimmed then deliver containerName streamType rest w
      else
        let (timestamp, w1) := dateNow w in
        let (events, w2) := deliver containerName streamType rest w1 in
        (mkEvent containerName trimmed streamType timestamp :: events, w2)
  end.

(** The ["data"] listener of a stream, on the decoded chunk. *)
Definition onData (containerName : jsstring) (streamType : Stream)
  (chunk : jsstring) (w : World) : list LogEvent * World :=
  let message := trim chunk in
  if isEmpty message then ([], w)
  else deliver containerName streamType (split 10 message) w.

End WithWorld.

Arguments deliver {World} dateNow containerName streamType lines w.
Arguments onData {World} dateNow containerName streamType chunk w.

End ObserveContainerLogs.

(** What the listener is expected to hand on. *)
Module ObserveSpec.

Import ObserveContainerLogs.

(** The messages of a chunk: its lines, trimmed, the blank ones left out. *)
Definition messages (chunk : jsstring) : list jsstring :=
  filter (fun l => negb (isEmpty l)) (map trim (split 10 chunk)).

End ObserveSpec.

(* ================================================================== *)
(** ** infrastructure/knowledge.ts *)

(** The knowledge file is the world here: absent, or the text it holds.
    The file is written and read as UTF-8, which has no encoding for a
    surrogate code unit that is not part of a pair: [writeFileSync] writes
    U+FFFD in its place, and what [readFileSync] returns is always
    well-formed.  So a text comes back from the file in its well-formed
    form, that of [String.prototype.toWellFormed]; a byte order mark is
    kept. *)
Module Knowledge.

Definition isHighSurrogate (c : N) : bool := ((55296 <=? c) && (c <=? 56319))%N.
Definition isLowSurrogate (c : N) : bool := ((56320 <=? c) && (c <=? 57343))%N.

(** U+FFFD. *)
Definition REPLACEMENT : N := 65533.

(** The string with every surrogate code unit that is not part of a pair
    replaced by U+FFFD. *)
Fixpoint toWellFormed (s : jsstring) : jsstring :=
  match s with
  | [] => []
  | c :: rest =>
      if isHighSurrogate c then
        match rest with
        | d :: rest' =>
            if isLowSurrogate d then c :: d :: toWellFormed rest'
            else REPLACEMENT :: toWellFormed rest
        | [] => [REPLACEMENT]
        end
      else if isLowSurrogate c then REPLACEMENT :: toWellFormed rest
      else c :: toWellFormed rest
  end.

Definition File : Type := option jsstring.

(** [readFileSync(KNOWLEDGE_PATH, "utf-8")] of a file that exists. *)
Definition readFileSync (text : jsstring) : jsstring := toWellFormed text.

(** [writeFileSync(KNOWLEDGE_PATH, content, "utf-8")]. *)
Definition writeFileSync (content : jsstring) : File :=
  Some (toWellFormed content).

Definition HEADER : jsstring := js "# Nightwatch Knowledge".

(** The arrow of a fact's line, U+2192. *)
Definition arrow : N := 8594.

Definition loadKnowledge (file : File) : option jsstring :=
  match file with
  | None => None
  | Some text =>
      let content := trim (readFileSync text) in
      (* only header, no actual facts *)
      if JsString.eqb content HEADER then None else Some content
  end.

(** [`\n\n- ${question} → ${answer}`]. *)
Definition factLine (question answer : jsstring) : jsstring :=
  [10; 10]%N ++ js "- " ++ question ++ js " " ++ [arrow] ++ js " " ++ answer.

Definition addFact (question answer : jsstring) (file : File) : File :=
  let content :=
    match file with
    | None => HEADER
    | Some text => trimEnd (readFileSync text)
    end in
  writeFileSync (content ++ factLine question answer).

End Knowledge.

(** What is expected to be read back from the knowledge file. *)
Module KnowledgeSpec.

Import Knowledge.

(** A surrogate code unit. *)
Definition isSurrogate (c : N) : bool := isHighSurrogate c || isLowSurrogate c.

(** The line of a fact, as it is read back: the question and the answer
    in their well-formed form, without the white space the answer ends
    with. *)
Definition line (question answer : jsstring) : jsstring :=
  js "- " ++ toWellFormed question ++ js " " ++ [arrow]
  ++ trimEnd (js " " ++ toWellFormed answer).

(** What [loadKnowledge] finds after [addFact]. *)
Definition after (question answer : jsstring) (file : File) : jsstring :=
  match file with
  | None => HEADER ++ [10; 10]%N ++ line question answer
  | Some text =>
      match trim (toWellFormed text) with
      | [] => line question answer
      | known => known ++ [10; 10]%N ++ line question answer
      end
  end.

(** The facts of a session, added one after the other. *)
Definition learn (facts : list (jsstring * jsstring)) (file : File) : File :=
  fold_left (fun f fact => addFact (fst fact) (snd fact) f) facts file.

(** The paragraphs of the facts, as they are read back. *)
Definition paragraphs (facts : list (jsstring * jsstring)) : jsstring :=
  List.concat (map (fun fact => [10; 10]%N ++ line (fst fact) (snd fact)) facts).

End KnowledgeSpec.

(* ================================================================== *)
(** ** utils/prompts.ts *)

(** The terminal is the world here: the lines the human is going to
    enter, one for every question asked.  When the lines run out the
    question is never answered and the promise stays pending: [None].
    What is printed is left out. *)
Module Prompts.

Import Workflow.

Definition Terminal : Type := list jsstring.

Definition truthy (s : jsstring) : bool :=
  match s with [] => false | _ :: _ => true end.

Section Host.

(** [String.prototype.toLowerCase] of the host. *)
Variable toLowerCase : jsstring -> jsstring.

Definition askFeasibilityQuestion (question : jsstring) (t : Terminal)
  : option (option jsstring * Terminal) :=
  match t with
  | [] => None
  | answer :: rest =>
      let trimmed := toLowerCase (trim answer) in
      if JsString.eqb trimmed (js "skip") || JsString.eqb trimmed []
      then Some (None, rest)
      else Some (Some (trim answer), rest)
  end.

(** [askFeedback], which asks again until the feedback is not blank. *)
Fixpoint askFeedback (t : Terminal) : option (jsstring * Terminal) :=
  match t with
  | [] => None
  | feedback :: rest =>
      if truthy (trim feedback) then Some (trim feedback, rest)
      else askFeedback rest
  end.

Definition askPlanApproval (t : Terminal) : option (ApprovalChoice * Terminal) :=
  match t with
  | [] => None
  | answer :: rest =>
      let trimmed := toLowerCase (trim answer) in
      if JsString.eqb trimmed (js "y") || JsString.eqb trimmed (js "yes")
      then Some (Approve, rest)
      else
        match askFeedback rest with
        | Some (feedback, rest') => Some (Reject feedback, rest')
        | None => None
        end
  end.

Definition resolveEscalation (reason neededContext : jsstring) (t : Terminal)
  : option (EscalationResolution * Terminal) :=
  match t with
  | [] => None
  | answer :: rest =>
      let trimmed := toLowerCase (trim answer) in
      if JsString.eqb trimmed (js "stop") || JsString.eqb trimmed (js "dismiss")
         || JsString.eqb trimmed []
      then Some (Dismiss, rest)
      else Some (ContinueWith (trim answer), rest)
  end.

End Host.

End Prompts.

(* ================================================================== *)
(** ** tools/user.ts *)

Module UserTool.

Import Prompts Knowledge.

Definition declined : jsstring :=
  js "User chose not to answer. If this information is required, assess as not feasible and state what is missing in the blocking reason.".

Section Host.

Variable toLowerCase : jsstring -> jsstring.

(** The world is the terminal and the knowledge file. *)
Definition askUserTool (question : jsstring) (w : Terminal * File)
  : option (jsstring * (Terminal * File)) :=
  match askFeasibilityQuestion toLowerCase question (fst w) with
  | None => None
  | Some (None, rest) => Some (declined, (rest, snd w))
  | Some (Some answer, rest) =>
      (* persist for future sessions *)
      Some (answer, (rest, addFact question answer (snd w)))
  end.

End Host.

End UserTool.

(* ================================================================== *)
(** ** utils/helpers.ts *)

Module Helpers.

(** What [fn] rejects with, as far as [withRetry] looks at it: the
    [status] property, a number or undefined. *)
Record Failure : Type := mkFailure {
  message : jsstring;
  status : option Z
}.

(** How a promise settles. *)
Inductive Settled (T : Type) : Type :=
  | Resolved (value : T)
  | Rejected (err : option Failure).   (* [None]: the value [undefined] *)

Arguments Resolved {T} value.
Arguments Rejected {T} err.

(** [status && status >= 400 && status < 500]. *)
Definition clientError (err : option Failure) : bool :=
  match err with
  | Some e =>
      match status e with
      | Some s => negb (s =? 0)%Z && (400 <=? s)%Z && (s <? 500)%Z
      | None => false
      end
  | None => false
  end.

Section WithWorld.

Variable World : Type.
Variable T : Type.
Variable fn : World -> Settled T * World.

(** [await new Promise((resolve) => setTimeout(resolve, delay))]. *)
Variable sleep : Z -> World -> World.

Variable maxRetries : Z.
Variable baseDelayMs : Z.

(** The [for] loop, entered with [attempt] and [budget] rounds to go
    ([attempt < maxRetries] holds exactly when [budget] is not 0). *)
Fixpoint attempts (budget : nat) (attempt : Z) (lastError : option Failure)
  (w : World) : Settled T * World :=
  match budget with
  | O => (Rejected lastError, w)             (* throw lastError! *)
  | S budget' =>
      match fn w with
      | (Resolved value, w1) => (Resolved value, w1)
      | (Rejected err, w1) =>
          if clientError err then (Rejected err, w1)
          else if (attempt =? maxRetries - 1)%Z then (Rejected err, w1)
          else
            let delay := (baseDelayMs * 2 ^ attempt)%Z in
            attempts budget' (attempt + 1)%Z err (sleep delay w1)
      end
  end.

Definition withRetry (w : World) : Settled T * World :=
  attempts (Z.to_nat maxRetries) 0%Z None w.

End WithWorld.

Arguments attempts {World T} fn sleep maxRetries baseDelayMs budget attempt lastError w.
Arguments withRetry {World T} fn sleep maxRetries baseDelayMs w.

End Helpers.

(* ================================================================== *)
(** ** withRetry, stated on a journal of calls and sleeps *)

Module RetrySpec.

Import Helpers.

(** What [withRetry] did to the world, in order. *)
Inductive Entry (T : Type) : Type :=
  | Called (outcome : Settled T)
  | Slept (delay : Z).

Arguments Called {T} outcome.
Arguments Slept {T} delay.

Section WithWorld.

Variable World : Type.
Variable T : Type.

Definition Journaled : Type := (World * list (Entry T))%type.

Definition calling (fn : World -> Settled T * World) (j : Journaled)
  : Settled T * Journaled :=
  let (outcome, w') := fn (fst j) in
  (outcome, (w', snd j ++ [Called outcome])).

Definition sleeping (sleep : Z -> World -> World) (delay : Z) (j : Journaled)
  : Journaled :=
  (sleep delay (fst j), snd j ++ [Slept delay]).

(** A rejection that is tried again, rounds permitting. *)
Definition retryable (outcome : Settled T) : bool :=
  match outcome with
  | Resolved _ => false
  | Rejected err => negb (clientError err)
  end.

(** The calls with outcomes [outcomes], from round [attempt] on, with the
    sleep between one call and the next. *)
Fixpoint schedule (baseDelayMs : Z) (attempt : Z) (outcomes : list (Settled T))
  : list (Entry T) :=
  match outcomes with
  | [] => []
  | [outcome] => [Called outcome]
  | outcome :: rest =>
      Called outcome :: Slept (baseDelayMs * 2 ^ attempt)
      :: schedule baseDelayMs (attempt + 1) rest
  end.

(** How the whole settles: as the last call did, or with [lastError]
    thrown when there was no call. *)
Definition settled (lastError : option Failure) (outcomes : list (Settled T))
  : Settled T :=
  last outcomes (Rejected lastError).

End WithWorld.

Arguments calling {World T} fn j.
Arguments settled {T} lastError outcomes.
Arguments sleeping {World T} sleep delay j.
Arguments retryable {T} outcome.
Arguments schedule {T} baseDelayMs attempt outcomes.

(** A flaky call: the world is the list of outcomes still to come. *)
Definition flaky (w : list (Settled nat)) : Settled nat * list (Settled nat) :=
  match w with
  | outcome :: rest => (outcome, rest)
  | [] => (Resolved 0, [])
  end.

End RetrySpec.

(* ================================================================== *)
(** ** tools/docker.ts *)

Module DockerTools.

Import ObserveContainerLogs.

(** The part of Docker's answer to [container.inspect()] that the tool
    reads; every property may be missing. *)
Record StateInfo : Type := mkState {
  Status : option jsstring;
  Running : option bool;
  OOMKilled : option bool;
  ExitCode : option Z;
  StartedAt : option jsstring;
  HealthStatus : option jsstring        (* Health?.Status *)
}.

Record HostConfigInfo : Type := mkHostConfig {
  Memory : option Z;
  MemorySwap : option Z;
  CpuQuota : option Z;
  CpuPeriod : option Z;
  CpuShares : option Z;
  RestartPolicyName : option jsstring;  (* RestartPolicy?.Name *)
  NetworkMode : option jsstring
}.

Record ConfigInfo : Type := mkConfig {
  Image : option jsstring;
  Env : option (list jsstring)
}.

Record MountInfo : Type := mkMountInfo {
  Source : option jsstring;
  Destination : option jsstring;
  Mode : option jsstring;
  RW : option bool
}.

Record Mount : Type := mkMount {
  source : jsstring;
  destination : jsstring;
  mode : jsstring;
  rw : bool
}.

Section WithPorts.

(** [NetworkSettings.Ports], handed on as it is. *)
Variable Ports : Type.
Variable noPorts : Ports.               (* {} *)

Record InspectInfo : Type := mkInspectInfo {
  Name : option jsstring;
  State : option StateInfo;
  HostConfig : option HostConfigInfo;
  Config : option ConfigInfo;
  RestartCount : option Z;
  Mounts : option (list MountInfo);
  NetworkPorts : option Ports           (* NetworkSettings?.Ports *)
}.

Record ContainerInspection : Type := mkInspection {
  name : jsstring;
  state_status : jsstring;
  state_running : bool;
  state_oomKilled : bool;
  state_restartCount : Z;
  state_exitCode : Z;
  state_startedAt : option jsstring;
  state_health : option jsstring;
  memoryLimitBytes : option Z;
  memorySwapBytes : option Z;
  cpuQuota : option Z;
  cpuPeriod : option Z;
  cpuShares : option Z;
  config_image : jsstring;
  envKeys : list jsstring;
  restartPolicy : jsstring;
  mounts : list Mount;
  network_mode : jsstring;
  network_ports : Ports
}.

(** [a ?? b]. *)
Definition orDefault {A : Type} (a : option A) (b : A) : A :=
  match a with Some x => x | None => b end.

(** [x?.p] of an object that may be missing. *)
Definition field {A B : Type} (x : option A) (p : A -> option B) : option B :=
  match x with Some a => p a | None => None end.

(** [str.replace(/^\//, "")]. *)
Definition stripSlash (s : jsstring) : jsstring :=
  match s with
  | 47%N :: rest => rest
  | _ => s
  end.

(** [typeof v === "number" && v > 0 ? v : null]. *)
Definition positive (v : option Z) : option Z :=
  match v with
  | Some n => if (0 <? n)%Z then Some n else None
  | None => None
  end.

(** [env.split("=")[0]]. *)
Definition envKey (env : jsstring) : jsstring := hd [] (split 61 env).

(** [inspectContainerTool], from Docker's answer on. *)
Definition inspection (containerName : jsstring) (data : InspectInfo)
  : ContainerInspection :=
  let state := State data in
  let hostConfig := HostConfig data in
  let config := Config data in
  mkInspection
    (orDefault (option_map stripSlash (Name data)) containerName)
    (orDefault (field state Status) (js "unknown"))
    (orDefault (field state Running) false)
    (orDefault (field state OOMKilled) false)
    (orDefault (RestartCount data) 0%Z)
    (orDefault (field state ExitCode) 0%Z)
    (field state StartedAt)
    (field state HealthStatus)
    (positive (field hostConfig Memory))
    (positive (field hostConfig MemorySwap))
    (positive (field hostConfig CpuQuota))
    (positive (field hostConfig CpuPeriod))
    (positive (field hostConfig CpuShares))
    (orDefault (field config Image) [])
    (map envKey (orDefault (field config Env) []))
    (orDefault (field hostConfig RestartPolicyName) (js "none"))
    (map (fun m =>
            mkMount (orDefault (Source m) []) (orDefault (Destination m) [])
              (orDefault (Mode m) []) (orDefault (RW m) false))
       (orDefault (Mounts data) []))
    (orDefault (field hostConfig NetworkMode) (js "unknown"))
    (orDefault (NetworkPorts data) noPorts).

End WithPorts.

Arguments inspection {Ports} noPorts containerName data.

End DockerTools.

(* ================================================================== *)
(** * Properties *)

(** ** Strings *)

Module JsStringFacts.

Lemma startsWith_prefix k s :
  startsWith k s = true <-> exists after, s = k ++ after.
Proof.
  revert s. induction k as [|a k IH]; intros s; cbn [startsWith].
  - split; [intros _; exists s; reflexivity|reflexivity].
  - destruct s as [|b s].
    + split; [discriminate|]. intros (after & H). discriminate.
    + rewrite andb_true_iff, N.eqb_eq, IH. split.
      * intros (-> & after & ->). exists after. reflexivity.
      * intros (after & [= -> ->]). eauto.
Qed.

Lemma includes_contains s k : includes s k = true <-> contains s k.
Proof.
  unfold contains. induction s as [|a s IH]; cbn [includes].
  - rewrite orb_false_r, startsWith_prefix. split.
    + intros (after & ->). exists [], after. reflexivity.
    + intros (before & after & H). destruct before; [|discriminate].
      exists after. exact H.
  - rewrite orb_true_iff, startsWith_prefix, IH. split.
    + intros [(after & ->)|(before & after & ->)].
      * exists [], after. reflexivity.
      * exists (a :: before), after. reflexivity.
    + intros (before & after & H). destruct before as [|b before].
      * left. exists after. exact H.
      * right. injection H as -> ->. eauto.
Qed.

End JsStringFacts.

(** ** The matcher computes the meaning of a pattern *)

Module RegExpFacts.

Lemma existsb_eqb_In j l : existsb (Nat.eqb j) l = true <-> In j l.
Proof.
  rewrite existsb_exists. split.
  - intros (x & Hx & E). apply Nat.eqb_eq in E. subst. exact Hx.
  - intros H. exists j. split; [exact H|apply Nat.eqb_refl].
Qed.

Lemma fresh_In seen l y :
  In y (fresh seen l) -> In y l /\ ~ In y seen.
Proof.
  revert seen. induction l as [|j l IH]; intros seen; cbn [fresh]; [intros []|].
  destruct (existsb (Nat.eqb j) seen) eqn:E.
  - intros H. destruct (IH _ H). split; [right|]; assumption.
  - intros [<-|H].
    + split; [left; reflexivity|]. intros H. apply existsb_eqb_In in H. congruence.
    + destruct (IH _ H) as [H1 H2]. split; [right; exact H1|].
      intros H3. apply H2. right. exact H3.
Qed.

Lemma fresh_complete seen l y :
  In y l -> In y seen \/ In y (fresh seen l).
Proof.
  revert seen. induction l as [|j l IH]; intros seen; cbn [fresh]; [intros []|].
  destruct (existsb (Nat.eqb j) seen) eqn:E.
  - intros [<-|H]; [left; apply existsb_eqb_In; exact E|apply IH; exact H].
  - intros [<-|H]; [right; left; reflexivity|].
    destruct (IH (j :: seen) H) as [[<-|H1]|H1].
    + right. left. reflexivity.
    + left. exact H1.
    + right. right. exact H1.
Qed.

Lemma fresh_NoDup seen l : NoDup (fresh seen l).
Proof.
  revert seen. induction l as [|j l IH]; intros seen; cbn [fresh]; [constructor|].
  destruct (existsb (Nat.eqb j) seen); [apply IH|].
  constructor; [|apply IH]. intros H. apply fresh_In in H.
  destruct H as [_ H]. apply H. left. reflexivity.
Qed.

Lemma star_right (R : nat -> nat -> Prop) i k j :
  star R i k -> R k j -> star R i j.
Proof.
  intros H. induction H as [i|i k' k H1 H2 IH]; intros Hk.
  - eapply star_step; [exact Hk|apply star_refl].
  - eapply star_step; [exact H1|apply IH; exact Hk].
Qed.

(** Whatever holds of the start and is kept by [f] holds of the closure. *)
Lemma closure_sound (P : nat -> Prop) f n frontier seen :
  (forall x, P x -> forall y, In y (f x) -> P y) ->
  (forall x, In x frontier -> P x) ->
  (forall x, In x seen -> P x) ->
  forall y, In y (closure n f frontier seen) -> P y.
Proof.
  intros Hf. revert frontier seen.
  induction n as [|n IH]; intros frontier seen Hfr Hseen y; cbn [closure].
  - apply Hseen.
  - destruct (fresh seen (flat_map f frontier)) as [|a new] eqn:E.
    + apply Hseen.
    + apply IH.
      * intros x Hx. rewrite <- E in Hx. apply fresh_In in Hx.
        destruct Hx as [Hx _]. apply in_flat_map in Hx.
        destruct Hx as (z & Hz & Hx). eapply Hf; eauto.
      * intros x Hx. apply in_app_or in Hx. destruct Hx as [Hx|Hx]; auto.
        rewrite <- E in Hx. apply fresh_In in Hx.
        destruct Hx as [Hx _]. apply in_flat_map in Hx.
        destruct Hx as (z & Hz & Hx). eapply Hf; eauto.
Qed.

(** With fuel for every position, the closure holds all that [f] reaches. *)
Lemma closure_complete (L : nat) f n i frontier seen :
  (forall x, x <= L -> forall y, In y (f x) -> y <= L) ->
  In i seen ->
  (forall x, In x frontier -> In x seen) ->
  (forall x, In x seen -> forall y, In y (f x) -> In y seen \/ In x frontier) ->
  NoDup seen ->
  (forall x, In x seen -> x <= L) ->
  L + 2 <= List.length seen + n ->
  forall j, star (fun x y => In y (f x)) i j -> In j (closure n f frontier seen).
Proof.
  intros Hf. revert frontier seen.
  induction n as [|n IH]; intros frontier seen Hi Hfr Hcl ND Hb Hn j Hj.
  - exfalso.
    assert (Hincl : incl seen (seq 0 (S L))).
    { intros x Hx. apply in_seq. specialize (Hb x Hx). lia. }
    pose proof (NoDup_incl_length ND Hincl) as Hlen.
    rewrite length_seq in Hlen. lia.
  - cbn [closure].
    destruct (fresh seen (flat_map f frontier)) as [|a new] eqn:E.
    + assert (Closed : forall x, In x seen -> forall y, In y (f x) -> In y seen).
      { intros x Hx y Hy. destruct (Hcl x Hx y Hy) as [H|H]; [exact H|].
        assert (Hy' : In y (flat_map f frontier))
          by (apply in_flat_map; exists x; split; assumption).
        destruct (fresh_complete seen _ _ Hy') as [H'|H']; [exact H'|].
        rewrite E in H'. destruct H'. }
      clear -Closed Hi Hj. revert Hi.
      induction Hj as [i|i k j H1 H2 IHj]; intros Hi; [exact Hi|].
      apply IHj. eapply Closed; eauto.
    + assert (Hnew : forall x, In x (a :: new) ->
                       In x (flat_map f frontier) /\ ~ In x seen).
      { intros x Hx. rewrite <- E in Hx. apply fresh_In. exact Hx. }
      apply (IH (a :: new) (seen ++ a :: new)); auto.
      * apply in_or_app. left. exact Hi.
      * intros x Hx. apply in_or_app. right. exact Hx.
      * intros x Hx y Hy. apply in_app_or in Hx. destruct Hx as [Hx|Hx].
        -- destruct (Hcl x Hx y Hy) as [H|H].
           ++ left. apply in_or_app. left. exact H.
           ++ assert (Hy' : In y (flat_map f frontier))
                by (apply in_flat_map; exists x; split; assumption).
              left. apply in_or_app.
              destruct (fresh_complete seen _ _ Hy') as [H'|H'];
                [left; exact H'|right; rewrite <- E; exact H'].
        -- right. exact Hx.
      * apply NoDup_app.
        -- exact ND.
        -- rewrite <- E. apply fresh_NoDup.
        -- intros x Hx Hx'. destruct (Hnew x Hx') as [_ N]. contradiction.
      * intros x Hx. apply in_app_or in Hx. destruct Hx as [Hx|Hx]; [auto|].
        destruct (Hnew x Hx) as [Hx' _]. apply in_flat_map in Hx'.
        destruct Hx' as (z & Hz & Hx'). eapply Hf; [|exact Hx']. auto.
      * rewrite length_app. cbn [List.length]. lia.
Qed.

Section Meaning.

Variable icase : bool.
Variable s : jsstring.

Lemma charAt_bound i c : charAt s i = Some c -> S i <= List.length s.
Proof.
  unfold charAt. intros H.
  assert (N : nth_error s i <> None) by congruence.
  apply nth_error_Some in N. lia.
Qed.

(** A match begun inside the string ends inside it. *)
Lemma ends_bound r i j :
  i <= List.length s -> In j (ends icase s r i) -> j <= List.length s.
Proof.
  revert i j. induction r as [|neg l| |a IHa b IHb|a IHa b IHb|a IHa| | |a IHa];
    intros i j Hi; cbn [ends].
  - intros [<-|[]]. exact Hi.
  - destruct (charAt s i) as [c|] eqn:C; [|intros []].
    destruct (setMatches icase neg l c); [|intros []].
    intros [<-|[]]. eapply charAt_bound; eauto.
  - destruct (charAt s i) as [c|] eqn:C; [|intros []].
    destruct (isLineTerminator c); [intros []|].
    intros [<-|[]]. eapply charAt_bound; eauto.
  - intros H. apply in_flat_map in H. destruct H as (k & Hk & H). eauto.
  - intros H. apply in_app_or in H. destruct H; eauto.
  - apply (closure_sound (fun y => y <= List.length s)).
    + intros x Hx y Hy. eauto.
    + intros x [<-|[]]. exact Hi.
    + intros x [<-|[]]. exact Hi.
  - destruct i; [intros [<-|[]]; lia|intros []].
  - destruct (wordBoundary s i); [intros [<-|[]]; exact Hi|intros []].
  - destruct (ends icase s a i); [intros [<-|[]]; exact Hi|intros []].
Qed.

(** The matcher is sound and complete for the meaning of patterns. *)
Theorem ends_spec r i j :
  i <= List.length s ->
  (In j (ends icase s r i) <-> Matches icase s r i j).
Proof.
  revert i j. induction r as [|neg l| |a IHa b IHb|a IHa b IHb|a IHa| | |a IHa];
    intros i j Hi; cbn [ends Matches].
  - split; [intros [<-|[]]; reflexivity|intros ->; left; reflexivity].
  - destruct (charAt s i) as [c|] eqn:C.
    + destruct (setMatches icase neg l c) eqn:M.
      * split; [intros [<-|[]]; eauto|intros (c' & _ & _ & ->); left; reflexivity].
      * split; [intros []|]. intros (c' & [= <-] & M' & _). congruence.
    + split; [intros []|]. intros (c' & N & _). discriminate.
  - destruct (charAt s i) as [c|] eqn:C.
    + destruct (isLineTerminator c) eqn:M.
      * split; [intros []|]. intros (c' & [= <-] & M' & _). congruence.
      * split; [intros [<-|[]]; eauto|intros (c' & _ & _ & ->); left; reflexivity].
    + split; [intros []|]. intros (c' & N & _). discriminate.
  - rewrite in_flat_map. split.
    + intros (k & Hk & H). exists k.
      pose proof (ends_bound a i k Hi Hk) as Hb.
      split; [apply IHa|apply IHb]; assumption.
    + intros (k & Hk & H). exists k. apply IHa in Hk; [|exact Hi].
      pose proof (ends_bound a i k Hi Hk) as Hb.
      split; [exact Hk|apply IHb; assumption].
  - rewrite in_app_iff, IHa, IHb by exact Hi. reflexivity.
  - split.
    + intros H.
      apply (closure_sound
               (fun y => y <= List.length s /\ star (Matches icase s a) i y)
               (ends icase s a) (S (List.length s)) [i] [i]); auto.
      * intros x [Hx Sx] y Hy. split; [eapply ends_bound; eauto|].
        eapply star_right; [exact Sx|]. apply IHa; assumption.
      * intros x [<-|[]]. split; [exact Hi|apply star_refl].
      * intros x [<-|[]]. split; [exact Hi|apply star_refl].
    + intros H.
      apply (closure_complete (List.length s) (ends icase s a)
               (S (List.length s)) i [i] [i]).
      * intros x Hx y Hy. eapply ends_bound; eauto.
      * left. reflexivity.
      * auto.
      * intros x [<-|[]] y Hy. right. left. reflexivity.
      * constructor; [intros []|constructor].
      * intros x [<-|[]]. exact Hi.
      * cbn [List.length]. lia.
      * clear -H Hi IHa. revert Hi.
        induction H as [i|i k j H1 H2 IH]; intros Hi; [apply star_refl|].
        assert (Hk : In k (ends icase s a i)) by (apply IHa; assumption).
        eapply star_step; [exact Hk|]. apply IH.
        eapply ends_bound; eauto.
  - destruct i.
    + split; [intros [<-|[]]; auto|intros [_ ->]; left; reflexivity].
    + split; [intros []|intros [N _]; discriminate].
  - destruct (wordBoundary s i).
    + split; [intros [<-|[]]; auto|intros [_ ->]; left; reflexivity].
    + split; [intros []|intros [N _]; discriminate].
  - destruct (ends icase s a i) as [|k ks] eqn:E.
    + split; [|intros [_ ->]; left; reflexivity].
      intros [<-|[]]. split; [|reflexivity].
      intros k Hk. apply IHa in Hk; [|exact Hi]. rewrite E in Hk. destruct Hk.
    + split; [intros []|]. intros [N _]. exfalso. apply (N k).
      apply IHa; [exact Hi|]. rewrite E. left. reflexivity.
Qed.

End Meaning.

(** [test] succeeds exactly when the pattern matches somewhere. *)
Theorem test_spec (p : RegExp) (str : jsstring) :
  test p str = true
  <-> exists i j, i <= List.length str
                  /\ Matches (ignoreCase p) str (source p) i j.
Proof.
  unfold test, matchesAt. rewrite existsb_exists. split.
  - intros (i & Hi & H). apply in_seq in Hi.
    destruct (ends (ignoreCase p) str (source p) i) as [|j js] eqn:E;
      [discriminate|].
    exists i, j. split; [lia|]. apply ends_spec; [lia|]. rewrite E. left. reflexivity.
  - intros (i & j & Hi & H). exists i. split; [apply in_seq; lia|].
    apply ends_spec in H; [|exact Hi].
    destruct (ends (ignoreCase p) str (source p) i); [destruct H|reflexivity].
Qed.

End RegExpFacts.
(** ** trim, trimStart and trimEnd *)

Module TrimFacts.

Lemma trimStart_spaces sp s :
  forallb isSpace sp = true -> trimStart (sp ++ s) = trimStart s.
Proof.
  induction sp as [|c sp IH]; intros H; [reflexivity|].
  cbn [forallb] in H. apply andb_prop in H. destruct H as [Hc H].
  cbn [app trimStart]. rewrite Hc. auto.
Qed.

(** [trimStart] strips white space and nothing else. *)
Lemma trimStart_split s :
  exists sp, s = sp ++ trimStart s /\ forallb isSpace sp = true.
Proof.
  induction s as [|c s (sp & E & H)]; [exists []; auto|].
  cbn [trimStart]. destruct (isSpace c) eqn:Hc.
  - exists (c :: sp). cbn [app forallb]. rewrite Hc, H.
    split; [congruence|reflexivity].
  - exists []. auto.
Qed.

Lemma trimStart_head s :
  match trimStart s with
  | c :: _ => isSpace c = false
  | [] => True
  end.
Proof.
  induction s as [|c s IH]; [exact I|]. cbn [trimStart].
  destruct (isSpace c) eqn:Hc; [exact IH|exact Hc].
Qed.

Lemma trimStart_fixed s :
  match s with c :: _ => isSpace c = false | [] => True end -> trimStart s = s.
Proof. destruct s as [|c s]; [reflexivity|]. cbn. intros ->. reflexivity. Qed.

Lemma trimStart_idem s : trimStart (trimStart s) = trimStart s.
Proof. apply trimStart_fixed, trimStart_head. Qed.

Lemma trimStart_snoc l c :
  trimStart (l ++ [c])
  = if isSpace c
    then match trimStart l with [] => [] | x => x ++ [c] end
    else trimStart l ++ [c].
Proof.
  induction l as [|a l IH]; cbn [app trimStart].
  - destruct (isSpace c); reflexivity.
  - destruct (isSpace a); [exact IH|]. destruct (isSpace c); reflexivity.
Qed.

Lemma trimEnd_snoc s c :
  trimEnd (s ++ [c]) = if isSpace c then trimEnd s else s ++ [c].
Proof.
  unfold trimEnd. rewrite rev_app_distr. cbn [rev app trimStart].
  destruct (isSpace c); [reflexivity|]. cbn [rev]. rewrite rev_involutive.
  reflexivity.
Qed.

Lemma trimEnd_cons c s :
  trimEnd (c :: s)
  = if isSpace c
    then match trimEnd s with [] => [] | x => c :: x end
    else c :: trimEnd s.
Proof.
  unfold trimEnd. cbn [rev]. rewrite trimStart_snoc.
  destruct (isSpace c).
  - destruct (trimStart (rev s)) as [|x xs] eqn:E; [reflexivity|].
    rewrite rev_app_distr. cbn [rev app].
    destruct (rev xs ++ [x]) eqn:E2; [|reflexivity].
    apply app_eq_nil in E2. destruct E2; discriminate.
  - rewrite rev_app_distr. reflexivity.
Qed.

Lemma trimEnd_nil s : trimEnd s = [] <-> forallb isSpace s = true.
Proof.
  induction s as [|c s IH]; [cbn; tauto|].
  rewrite trimEnd_cons. cbn [forallb]. destruct (isSpace c); cbn [andb].
  - destruct (trimEnd s); [tauto|]. split; [discriminate|].
    intros H. apply IH in H. discriminate.
  - split; discriminate.
Qed.

Lemma trimEnd_spaces s sp :
  forallb isSpace sp = true -> trimEnd (s ++ sp) = trimEnd s.
Proof.
  induction sp as [|c sp IH] using rev_ind; intros H; [rewrite app_nil_r; auto|].
  rewrite forallb_app in H. apply andb_prop in H. destruct H as [H Hc].
  cbn in Hc. rewrite andb_true_r in Hc.
  rewrite app_assoc, trimEnd_snoc, Hc. auto.
Qed.

(** [trimEnd] strips white space and nothing else. *)
Lemma trimEnd_split s :
  exists sp, s = trimEnd s ++ sp /\ forallb isSpace sp = true.
Proof.
  unfold trimEnd. destruct (trimStart_split (rev s)) as (sp & E & H).
  exists (rev sp). split.
  - rewrite <- rev_app_distr, <- E, rev_involutive. reflexivity.
  - rewrite forallb_forall in *. intros x Hx. apply H. apply in_rev. exact Hx.
Qed.

(** The two ends are trimmed independently. *)
Lemma trimStart_trimEnd s : trimStart (trimEnd s) = trimEnd (trimStart s).
Proof.
  induction s as [|c s IH]; [reflexivity|].
  rewrite trimEnd_cons. cbn [trimStart]. destruct (isSpace c) eqn:Hc.
  - destruct (trimEnd s) as [|x xs] eqn:E.
    + cbn [trimStart] in *. exact IH.
    + cbn [trimStart]. rewrite Hc. exact IH.
  - cbn [trimStart]. rewrite Hc. rewrite trimEnd_cons, Hc. reflexivity.
Qed.

Lemma trimEnd_idem s : trimEnd (trimEnd s) = trimEnd s.
Proof.
  unfold trimEnd. rewrite rev_involutive, trimStart_idem. reflexivity.
Qed.

(** [trim] is idempotent: a trimmed string has no white space at either
    end. *)
Lemma trim_idem s : trim (trim s) = trim s.
Proof.
  unfold trim. rewrite trimStart_trimEnd, trimStart_idem, trimEnd_idem.
  reflexivity.
Qed.

Lemma trim_cons_space c s : isSpace c = true -> trim (c :: s) = trim s.
Proof. intros H. unfold trim. cbn [trimStart]. rewrite H. reflexivity. Qed.

Lemma trim_snoc_space s c : isSpace c = true -> trim (s ++ [c]) = trim s.
Proof.
  intros H. unfold trim. rewrite <- !trimStart_trimEnd, trimEnd_snoc, H.
  reflexivity.
Qed.

Lemma trim_spaces_left sp s :
  forallb isSpace sp = true -> trim (sp ++ s) = trim s.
Proof. intros H. unfold trim. rewrite trimStart_spaces; auto. Qed.

Lemma trim_spaces_right s sp :
  forallb isSpace sp = true -> trim (s ++ sp) = trim s.
Proof.
  intros H. unfold trim. rewrite <- !trimStart_trimEnd, trimEnd_spaces; auto.
Qed.

(** A string is its trim between two runs of white space. *)
Lemma trim_split s :
  exists before after,
    s = before ++ trim s ++ after
    /\ forallb isSpace before = true /\ forallb isSpace after = true.
Proof.
  destruct (trimStart_split s) as (sp1 & E1 & H1).
  destruct (trimEnd_split (trimStart s)) as (sp2 & E2 & H2).
  exists sp1, sp2. unfold trim. rewrite <- E2. auto.
Qed.

Lemma trim_whitespace s : trim s = [] <-> forallb isSpace s = true.
Proof.
  split.
  - intros H. destruct (trim_split s) as (b & a & E & Hb & Ha).
    rewrite H in E. rewrite E. cbn [app]. rewrite forallb_app, Hb, Ha. reflexivity.
  - intros H. unfold trim. apply trimEnd_nil.
    destruct (trimStart_split s) as (sp & E & _).
    rewrite E, forallb_app in H. apply andb_prop in H. tauto.
Qed.

(** What is not white space survives the trim. *)
Lemma trim_keeps c s : In c s -> isSpace c = false -> In c (trim s).
Proof.
  intros Hin Hc. destruct (trim_split s) as (b & a & E & Hb & Ha).
  rewrite E in Hin. rewrite !in_app_iff in Hin.
  rewrite forallb_forall in Hb, Ha.
  destruct Hin as [H|[H|H]]; [apply Hb in H; congruence|exact H|
                              apply Ha in H; congruence].
Qed.

Lemma trim_In c s : In c (trim s) -> In c s.
Proof.
  intros H. destruct (trim_split s) as (b & a & E & _). rewrite E.
  rewrite !in_app_iff. auto.
Qed.

(** A string that begins and ends with something else than white space is
    its own trim. *)
Lemma trim_fixed a s b :
  isSpace a = false -> isSpace b = false ->
  trim (a :: s ++ [b]) = a :: s ++ [b] /\ trim [a] = [a].
Proof.
  intros Ha Hb. unfold trim. cbn [trimStart]. rewrite Ha. split.
  - change (a :: s ++ [b]) with ((a :: s) ++ [b]). rewrite trimEnd_snoc, Hb.
    reflexivity.
  - change [a] with ([] ++ [a]). rewrite trimEnd_snoc, Ha. reflexivity.
Qed.

(** The trim of a string that ends with something else than white space
    keeps the end. *)
Lemma trim_app_kept s t :
  trimEnd t = t -> t <> [] -> trim (s ++ t) = trimStart (s ++ t).
Proof.
  intros Ht Hne. unfold trim.
  destruct (trimStart_split (s ++ t)) as (sp & E & Hsp).
  destruct t as [|x t _] using rev_ind; [contradiction|].
  rewrite trimEnd_snoc in Ht.
  destruct (isSpace x) eqn:Hx.
  { exfalso. destruct (trimEnd_split t) as (sp' & E' & _).
    assert (L : List.length (trimEnd t) <= List.length t).
    { rewrite E' at 2. rewrite length_app. lia. }
    rewrite Ht, length_app in L. cbn in L. lia. }
  rewrite app_assoc, trimStart_snoc, Hx, trimEnd_snoc, Hx. reflexivity.
Qed.

End TrimFacts.


(** ** The validator *)

Module ValidatorFacts.

Import Validator ValidatorSpec JsStringFacts RegExpFacts.

Lemma find_first {A} (f : A -> bool) l b :
  find f l = Some b ->
  exists l1 l2, l = l1 ++ b :: l2 /\ f b = true /\ forall x, In x l1 -> f x = false.
Proof.
  induction l as [|a l IH]; simpl; [discriminate|].
  destruct (f a) eqn:E.
  - intros [= ->]. exists [], l. repeat split; auto. intros x [].
  - intros H. destruct (IH H) as (l1 & l2 & -> & Hb & Hl).
    exists (a :: l1), l2. repeat split; auto.
    intros x [<-|Hx]; auto.
Qed.

Lemma fold_count (f : jsstring -> bool) l found n :
  fold_left (fun (acc : option jsstring * nat) name =>
               let '(found, count) := acc in
               if f name then (Some name, S count) else (found, count))
            l (found, n)
  = (match rev (filter f l) with [] => found | c :: _ => Some c end,
     n + List.length (filter f l)).
Proof.
  revert found n. induction l as [|a l IH]; intros; simpl.
  - f_equal. lia.
  - destruct (f a) eqn:E; rewrite IH; simpl.
    + f_equal.
      * destruct (rev (filter f l)) eqn:R; simpl; auto.
      * lia.
    + reflexivity.
Qed.

Lemma compile_escaped name tail :
  compileAtoms (escapeRegex name ++ tail)
  = option_map (app (map RChar name)) (compileAtoms tail).
Proof.
  induction name as [|c name IH]; simpl.
  - destruct (compileAtoms tail); reflexivity.
  - destruct (isSyntaxCharacter c) eqn:S; simpl.
    + assert (E : (c =? 98)%N = false).
      { destruct (N.eqb_spec c 98); auto. subst. discriminate. }
      rewrite E, S, IH. destruct (compileAtoms tail); reflexivity.
    + assert (E : (c =? 92)%N = false).
      { destruct (N.eqb_spec c 92); auto. subst. discriminate. }
      rewrite E, S, IH. destruct (compileAtoms tail); reflexivity.
Qed.

Lemma containerRegExp_literal name :
  containerRegExp name
  = mkRegExp (RSeqs (RWordB :: map RChar name ++ [RWordB])) false.
Proof.
  unfold containerRegExp, newRegExp.
  change (js "\b" ++ escapeRegex name ++ js "\b")
    with (92%N :: 98%N :: escapeRegex name ++ js "\b").
  cbn [compileAtoms]. 
  change ((92 =? 92)%N) with true. change ((98 =? 98)%N) with true. cbv iota.
  rewrite compile_escaped. reflexivity.
Qed.

(* literal matching *)
Lemma nth_error_skipn {A} (l : list A) i :
  nth_error l i = hd_error (skipn i l).
Proof.
  revert l; induction i; destruct l; simpl; auto.
Qed.

Lemma skipn_S_tl {A} (l : list A) i : skipn (S i) l = tl (skipn i l).
Proof.
  revert l; induction i as [|i IH]; intros [|a l]; try reflexivity.
  change (skipn (S i) l = tl (skipn i l)). apply IH.
Qed.

Lemma ends_char t c i :
  ends false t (RChar c) i
  = if startsWith [c] (skipn i t) then [S i] else [].
Proof.
  unfold RChar. cbn [ends]. unfold charAt. rewrite nth_error_skipn.
  destruct (skipn i t) as [|x rest]; simpl; auto.
Qed.

Lemma ends_chars_then t k r i :
  ends false t (RSeqs (map RChar k ++ [r])) i
  = if startsWith k (skipn i t) then ends false t r (i + List.length k) else [].
Proof.
  revert i. induction k as [|c k IH]; intros i.
  - simpl. rewrite Nat.add_0_r. reflexivity.
  - change (map RChar (c :: k) ++ [r]) with (RChar c :: (map RChar k ++ [r])).
    assert (E : RSeqs (RChar c :: (map RChar k ++ [r]))
                = RSeq (RChar c) (RSeqs (map RChar k ++ [r]))).
    { simpl. destruct (map RChar k ++ [r]) eqn:M; auto.
      destruct (map RChar k); discriminate. }
    rewrite E. cbn [ends]. rewrite ends_char.
    destruct (skipn i t) as [|x rest] eqn:Sk.
    + reflexivity.
    + cbn [startsWith]. rewrite andb_true_r.
      destruct (N.eqb c x) eqn:Ecx; cbn [flat_map andb].
      * rewrite app_nil_r, IH, skipn_S_tl, Sk. cbn [tl List.length].
        rewrite Nat.add_succ_r. reflexivity.
      * reflexivity.
Qed.

Lemma existsb_seq_exists f a n :
  existsb f (seq a n) = true <-> exists i, a <= i < a + n /\ f i = true.
Proof.
  rewrite existsb_exists. split.
  - intros (i & Hi & Hf). apply in_seq in Hi. eauto.
  - intros (i & Hi & Hf). exists i. split; auto. apply in_seq; auto.
Qed.

Lemma startsWith_firstn k s :
  startsWith k s = true <-> firstn (List.length k) s = k.
Proof.
  revert s; induction k as [|a k IH]; intros s; simpl.
  - tauto.
  - destruct s as [|b s]; simpl; [split; discriminate|].
    rewrite andb_true_iff, IH, N.eqb_eq. split.
    + intros [-> ->]. reflexivity.
    + intros [= -> ->]. auto.
Qed.


Lemma containerRegExp_test name t :
  test (containerRegExp name) t = true <-> occursAsWord name t.
Proof.
  rewrite containerRegExp_literal. unfold test. cbn [source ignoreCase].
  rewrite existsb_seq_exists. unfold occursAsWord, matchesAt.
  assert (E : forall i,
    ends false t (RSeqs (RWordB :: map RChar name ++ [RWordB])) i
    = if wordBoundary t i && startsWith name (skipn i t)
         && wordBoundary t (i + List.length name)
      then [i + List.length name] else []).
  { intros i.
    assert (E0 : RSeqs (RWordB :: map RChar name ++ [RWordB])
                 = RSeq RWordB (RSeqs (map RChar name ++ [RWordB]))).
    { simpl. destruct (map RChar name ++ [RWordB]) eqn:M; auto.
      destruct (map RChar name); discriminate. }
    rewrite E0. cbn [ends]. destruct (wordBoundary t i); cbn [flat_map andb]; auto.
    rewrite app_nil_r, ends_chars_then.
    destruct (startsWith name (skipn i t)); cbn [andb]; auto. }
  split.
  - intros (i & Hi & H). rewrite E in H. exists i.
    destruct (wordBoundary t i); try discriminate.
    destruct (startsWith name (skipn i t)) eqn:S; try discriminate.
    destruct (wordBoundary t (i + List.length name)); try discriminate.
    apply startsWith_firstn in S. auto.
  - intros (i & Hf & H1 & H2).
    assert (Hi : i <= List.length t).
    { destruct (Nat.le_gt_cases i (List.length t)); auto.
      exfalso. unfold wordBoundary in H1.
      destruct i; [lia|]. unfold isWordAt, charAt in H1.
      rewrite (proj2 (nth_error_None t (S i))) in H1 by lia.
      destruct (Nat.eq_dec i (List.length t)).
      - subst. rewrite (proj2 (nth_error_None t _)) in H1 by lia. discriminate.
      - rewrite (proj2 (nth_error_None t i)) in H1 by lia. discriminate. }
    exists i. split; [lia|]. rewrite E, H1, H2.
    apply startsWith_firstn in Hf. rewrite Hf. reflexivity.
Qed.

(* literal patterns *)
Lemma ends_lit t k i :
  k <> [] ->
  ends false t (RLit k) i
  = if startsWith k (skipn i t) then [i + List.length k] else [].
Proof.
  revert i. induction k as [|c k IH]; intros i Hk; [congruence|].
  destruct k as [|c' k].
  - change (RLit [c]) with (RChar c). rewrite ends_char.
    cbn [List.length]. rewrite Nat.add_1_r. reflexivity.
  - change (RLit (c :: c' :: k)) with (RSeq (RChar c) (RLit (c' :: k))).
    cbn [ends]. rewrite ends_char.
    destruct (skipn i t) as [|x rest] eqn:Sk; [reflexivity|].
    change (startsWith [c] (x :: rest)) with (N.eqb c x && true).
    change (startsWith (c :: c' :: k) (x :: rest))
      with (N.eqb c x && startsWith (c' :: k) rest).
    rewrite andb_true_r.
    destruct (N.eqb c x); cbn [flat_map andb]; [|reflexivity].
    rewrite app_nil_r, IH by discriminate.
    rewrite skipn_S_tl, Sk. cbn [tl].
    change (List.length (c :: c' :: k)) with (S (List.length (c' :: k))).
    rewrite Nat.add_succ_r. reflexivity.
Qed.

Lemma includes_exists s k :
  includes s k = true
  <-> exists i, i <= List.length s /\ startsWith k (skipn i s) = true.
Proof.
  induction s as [|a s IH].
  - simpl. rewrite orb_false_r. split.
    + intros H. exists 0. auto.
    + intros (i & _ & H). destruct i; exact H.
  - cbn [includes]. rewrite orb_true_iff, IH. split.
    + intros [H|(i & Hi & H)].
      * exists 0. split; [lia|exact H].
      * exists (S i). split; [simpl; lia|exact H].
    + intros (i & Hi & H). destruct i.
      * left. exact H.
      * right. exists i. split; [simpl in Hi; lia|exact H].
Qed.

Lemma test_literal k t :
  k <> [] -> test (mkRegExp (RLit k) false) t = includes t k.
Proof.
  intros Hk. apply eq_true_iff_eq. unfold test. cbn [source ignoreCase].
  rewrite existsb_seq_exists, includes_exists. unfold matchesAt.
  split; intros (i & Hi & H); exists i; (split; [lia|]);
    rewrite ends_lit in * by assumption;
    destruct (startsWith k (skipn i t)); auto; discriminate.
Qed.


Lemma canon_letter p c :
  (97 <= p <= 122)%N ->
  (canonicalize true p =? canonicalize true c)%N = sameLetter p c.
Proof.
  intros Hp. unfold canonicalize, sameLetter. cbn [andb].
  destruct (N.leb_spec 97 p); [|lia]. destruct (N.leb_spec p 122); [|lia].
  cbn [andb].
  destruct (N.leb_spec 97 c); destruct (N.leb_spec c 122); cbn [andb];
  destruct (N.eqb_spec c p); destruct (N.eqb_spec (c + 32) p); cbn [orb];
  try (apply N.eqb_eq; lia); apply N.eqb_neq; lia.
Qed.

Lemma existsb_seq_S_false (f : nat -> bool) n :
  (forall i, f (S i) = false) -> existsb f (seq 1 n) = false.
Proof.
  intros H. destruct (existsb f (seq 1 n)) eqn:E; auto.
  apply existsb_seq_exists in E. destruct E as (i & Hi & Hf).
  destruct i; [lia|]. rewrite H in Hf. discriminate.
Qed.

Lemma dockerRule_first : hd_error BLOCKED_PATTERNS = Some dockerRule.
Proof. reflexivity. Qed.

Lemma dockerRule_test t :
  test (pattern dockerRule) t = negb (beginsWithDocker t).
Proof.
  unfold test. cbn [pattern dockerRule source ignoreCase seq existsb].
  rewrite existsb_seq_S_false by reflexivity.
  rewrite orb_false_r. unfold matchesAt.
  cbn [ends flat_map]. rewrite app_nil_r.
  assert (E : ends true t (RSeq (RStr "docker") RSpace) 0
              = if beginsWithDocker t then [7] else []).
  { unfold RStr, RSpace, beginsWithDocker.
    destruct t as [|c0 [|c1 [|c2 [|c3 [|c4 [|c5 [|ws t]]]]]]];
      cbn -[canonicalize sameLetter isSpace N.eqb];
      unfold setMatches; cbn -[canonicalize sameLetter isSpace N.eqb];
      rewrite ?orb_false_r, ?canon_letter by lia;
      repeat match goal with
             | |- context [sameLetter ?p ?c] =>
                 destruct (sameLetter p c);
                 cbn -[canonicalize sameLetter isSpace N.eqb];
                 rewrite ?orb_false_r, ?canon_letter by lia
             end; auto;
      destruct (isSpace ws); reflexivity. }
  cbn [ends] in E. rewrite E. destruct (beginsWithDocker t); reflexivity.
Qed.


Lemma validateCommand_cases command known :
  trim command <> [] ->
  validateCommand command known
  = match firstBlocked (trim command) with
    | Some b => Invalid (mkError command (why b))
    | None =>
        match matchingContainers (trim command) known with
        | [] => Invalid (mkError command
                           (js "Command does not reference any known container"))
        | [_ :: _] => Valid
        | l => Invalid (mkError command
                          (js "Command references multiple containers: "
                           ++ join (js ", ") l))
        end
    end.
Proof.
  intros Ht. unfold validateCommand, firstBlocked, matchingContainers.
  destruct (trim command) as [|c0 t0] eqn:Et; [congruence|].
  cbn [truthy negb].
  destruct (find _ BLOCKED_PATTERNS); [reflexivity|].
  unfold findTargetContainer. rewrite fold_count.
  set (m := filter _ known).
  destruct m as [|a [|b m]]; cbn [rev app List.length Nat.add Nat.eqb truthy negb].
  - reflexivity.
  - destruct a; reflexivity.
  - destruct a; reflexivity.
Qed.

Lemma filter_singleton {A} (f : A -> bool) l c :
  NoDup l ->
  (filter f l = [c]
   <-> In c l /\ f c = true /\ forall x, In x l -> f x = true -> x = c).
Proof.
  intros ND. split.
  - intros E. assert (Hc : In c (filter f l)) by (rewrite E; left; auto).
    apply filter_In in Hc. destruct Hc as [Hc Hf]. repeat split; auto.
    intros x Hx Hfx. assert (Hin : In x (filter f l)) by (apply filter_In; auto).
    rewrite E in Hin. destruct Hin as [<-|[]]. reflexivity.
  - intros (Hc & Hf & Hu).
    assert (NDf : NoDup (filter f l)) by (apply NoDup_filter; exact ND).
    assert (Hall : forall x, In x (filter f l) -> x = c).
    { intros x Hx. apply filter_In in Hx. destruct Hx. auto. }
    assert (Hin : In c (filter f l)) by (apply filter_In; auto).
    destruct (filter f l) as [|a [|b m]].
    + destruct Hin.
    + rewrite (Hall a) by (left; auto). reflexivity.
    + exfalso. inversion NDf as [|? ? Hna _]. subst. apply Hna.
      rewrite (Hall a), (Hall b); simpl; auto.
Qed.

Lemma blockedLiterals_patterns k :
  In k blockedLiterals ->
  k <> [] /\ exists b, In b BLOCKED_PATTERNS /\ pattern b = mkRegExp (RLit k) false.
Proof.
  unfold blockedLiterals. cbn [map In].
  assert (W : forall n, n < 21 ->
            In (nth n BLOCKED_PATTERNS dockerRule) BLOCKED_PATTERNS).
  { intros n Hn. apply nth_In. exact Hn. }
  intros [<-|[<-|[<-|[<-|[<-|[<-|[<-|[<-|[<-|[<-|[]]]]]]]]]]];
    (split; [discriminate|]).
  - exists (nth 3 BLOCKED_PATTERNS dockerRule). split; [apply W; lia|reflexivity].
  - exists (nth 4 BLOCKED_PATTERNS dockerRule). split; [apply W; lia|reflexivity].
  - exists (nth 5 BLOCKED_PATTERNS dockerRule). split; [apply W; lia|reflexivity].
  - exists (nth 6 BLOCKED_PATTERNS dockerRule). split; [apply W; lia|reflexivity].
  - exists (nth 7 BLOCKED_PATTERNS dockerRule). split; [apply W; lia|reflexivity].
  - exists (nth 8 BLOCKED_PATTERNS dockerRule). split; [apply W; lia|reflexivity].
  - exists (nth 9 BLOCKED_PATTERNS dockerRule). split; [apply W; lia|reflexivity].
  - exists (nth 10 BLOCKED_PATTERNS dockerRule). split; [apply W; lia|reflexivity].
  - exists (nth 12 BLOCKED_PATTERNS dockerRule). split; [apply W; lia|reflexivity].
  - exists (nth 13 BLOCKED_PATTERNS dockerRule). split; [apply W; lia|reflexivity].
Qed.

(** C1 (amended).  For a command whose trim is not empty and a set of
    non-empty container names: a command that does not begin with the
    letters of docker, in either case, and a whitespace character is
    rejected with the first reason of the table; a command containing one
    of the literal entries is rejected; whenever an entry of the table
    matches, the command is rejected with the reason of the first entry
    that matches; and when none matches, the command is accepted exactly
    when exactly one known container occurs in it between word boundaries,
    rejected as referencing no known container when none does, and rejected
    with the list of those that do when several do. *)
Theorem validateCommand_decides (command : jsstring) (known : list jsstring) :
  trim command <> [] -> NoDup known -> ~ In [] known ->
  validator_contract command known.
Proof.
  intros Ht ND Hne. unfold validator_contract.
  set (t := trim command). cbv beta zeta.
  pose proof (validateCommand_cases command known Ht) as VC. fold t in VC.
  assert (Yes : forall b, test (pattern b) t = true <-> applies b t)
    by (intros b; apply test_spec).
  assert (No : forall b, test (pattern b) t = false <-> ~ applies b t).
  { intros b. rewrite <- Yes. destruct (test (pattern b) t); split;
      congruence. }
  assert (P3 : forall b, In b BLOCKED_PATTERNS -> applies b t ->
        exists before b' after,
          BLOCKED_PATTERNS = before ++ b' :: after
          /\ applies b' t
          /\ (forall x, In x before -> ~ applies x t)
          /\ validateCommand command known = Invalid (mkError command (why b'))).
  { intros b Hb Htest. apply Yes in Htest. unfold firstBlocked in VC.
    destruct (find (fun b => test (pattern b) t) BLOCKED_PATTERNS) as [b'|] eqn:F.
    - destruct (find_first _ _ _ F) as (l1 & l2 & E & Hb' & Hl1).
      exists l1, b', l2. split; [exact E|]. split; [apply Yes; exact Hb'|].
      split; [|exact VC]. intros x Hx. apply No. auto.
    - pose proof (find_none _ _ F b Hb) as N. cbv beta in N. congruence. }
  split; [|split; [|split]].
  - intros Hd. unfold firstBlocked in VC.
    change BLOCKED_PATTERNS with (dockerRule :: tl BLOCKED_PATTERNS) in VC.
    cbn [find] in VC. rewrite dockerRule_test, Hd in VC. exact VC.
  - intros k Hk Hinc. destruct (blockedLiterals_patterns k Hk) as (Hk0 & b & Hb & Hp).
    destruct (P3 b Hb) as (? & b' & ? & _ & _ & _ & R).
    + apply Yes. rewrite Hp, test_literal by assumption.
      apply includes_contains. exact Hinc.
    + eauto.
  - exact P3.
  - intros Hnone.
    assert (F : firstBlocked t = None).
    { unfold firstBlocked.
      destruct (find (fun b => test (pattern b) t) BLOCKED_PATTERNS) as [b|] eqn:F; auto.
      apply find_some in F. destruct F as [Hb Hb']. cbv beta in Hb'.
      apply Yes in Hb'. exfalso. exact (Hnone b Hb Hb'). }
    rewrite F in VC. unfold matchingContainers in *.
    set (f := fun c => test (containerRegExp c) t) in *.
    assert (Hf : forall c, f c = true <-> occursAsWord c t).
    { intros c. apply containerRegExp_test. }
    split; [|split].
    + split.
      * intros V. rewrite V in VC.
        destruct (filter f known) as [|a [|b m]] eqn:E;
          [discriminate| |destruct a; discriminate].
        destruct a as [|a0 a]; try discriminate.
        apply (filter_singleton f known (a0 :: a) ND) in E. destruct E as (Hin & Hfa & Hu).
        exists (a0 :: a). split; [exact Hin|]. split.
        -- apply Hf; auto.
        -- intros c' Hc' Ho. apply Hu; auto. apply Hf; auto.
      * intros (c & Hin & Ho & Hu).
        assert (E : filter f known = [c]).
        { apply filter_singleton; auto. split; [exact Hin|]. split.
          - apply Hf; auto.
          - intros x Hx Hfx. apply Hu; auto. apply Hf; auto. }
        rewrite E in VC. destruct c; [contradiction|exact VC].
    + intros Hz.
      assert (E : filter f known = []).
      { destruct (filter f known) as [|a m] eqn:E; auto.
        assert (Ha : In a (filter f known)) by (rewrite E; left; auto).
        apply filter_In in Ha. destruct Ha as [Ha Hfa].
        exfalso. apply (Hz a Ha). apply Hf; auto. }
      rewrite E in VC. exact VC.
    + intros c1 c2 H1 H2 Hneq O1 O2.
      assert (I1 : In c1 (filter f known)) by (apply filter_In; split; auto; apply Hf; auto).
      assert (I2 : In c2 (filter f known)) by (apply filter_In; split; auto; apply Hf; auto).
      destruct (filter f known) as [|a [|b m]] eqn:E.
      * destruct I1.
      * destruct I1 as [<-|[]]. destruct I2 as [<-|[]]. congruence.
      * destruct a; exact VC.
Qed.

Lemma trimStart_nil s : trimStart s = [] <-> forallb isSpace s = true.
Proof.
  induction s as [|c s IH]; simpl; [tauto|].
  destruct (isSpace c); simpl; [exact IH|]. split; discriminate.
Qed.

(** The trim of a string is empty exactly when the string is empty or
    holds white space and line terminators only. *)
Lemma trim_nil s : trim s = [] <-> forallb isSpace s = true.
Proof.
  unfold trim, trimEnd. rewrite <- trimStart_nil. split.
  - intros H. apply (f_equal (@rev N)) in H. rewrite rev_involutive in H.
    simpl in H. destruct (trimStart s) as [|c r] eqn:E; auto.
    exfalso. assert (Hc : trimStart (rev (c :: r)) = []) by exact H.
    apply trimStart_nil in Hc. rewrite forallb_forall in Hc.
    assert (Sc : isSpace c = true) by (apply Hc, in_rev; rewrite rev_involutive; left; auto).
    clear -E Sc. induction s as [|a s IH]; simpl in E; [discriminate|].
    destruct (isSpace a) eqn:Sa; auto. injection E as -> _. congruence.
  - intros ->. reflexivity.
Qed.

(** C10.  A command whose trim is empty is rejected with the reason
    'Empty command not allowed', whatever the known containers; the first
    entry of the table matches the empty string too, so the reason shows
    that the emptiness check is made before the table is consulted. *)
Theorem validateCommand_empty (command : jsstring) (known : list jsstring) :
  trim command = [] ->
  validateCommand command known
  = Invalid (mkError command (js "Empty command not allowed"))
  /\ js "Empty command not allowed" <> why dockerRule
  /\ test (pattern dockerRule) (trim command) = true.
Proof.
  intros H. unfold validateCommand. rewrite H. split; [reflexivity|].
  split; [discriminate|reflexivity].
Qed.

(** A command of three spaces is rejected as empty. *)
Lemma validateCommand_empty_witness :
  trim (js "   ") = []
  /\ validateCommand (js "   ") [js "api"]
     = Invalid (mkError (js "   ") (js "Empty command not allowed")).
Proof.
  split; [reflexivity|].
  apply (validateCommand_empty (js "   ") [js "api"]). reflexivity.
Defined.

(** C1 as stated fails: a command in upper case does not begin with the
    literal [docker ] and is accepted all the same. *)
Lemma validateCommand_literal_docker_counterexample :
  startsWith (js "docker ") (trim (js "DOCKER start api")) = false
  /\ validateCommand (js "DOCKER start api") [js "api"] = Valid.
Proof. split; vm_compute; reflexivity. Qed.

(** The contract at a start command and a set of two containers. *)
Lemma validateCommand_decides_witness :
  trim (js "docker start api") <> []
  /\ NoDup [js "api"; js "cache"]
  /\ ~ In [] [js "api"; js "cache"]
  /\ validator_contract (js "docker start api") [js "api"; js "cache"].
Proof.
  assert (H1 : trim (js "docker start api") <> []) by (vm_compute; discriminate).
  assert (H2 : NoDup [js "api"; js "cache"]).
  { constructor; [simpl; intros [H|[]]; discriminate H|].
    constructor; [intros []|constructor]. }
  assert (H3 : ~ In [] [js "api"; js "cache"]).
  { simpl. intros [H|[H|[]]]; discriminate H. }
  split; [exact H1|]. split; [exact H2|]. split; [exact H3|].
  exact (validateCommand_decides (js "docker start api")
           [js "api"; js "cache"] H1 H2 H3).
Defined.

End ValidatorFacts.

(** ** The executor *)

Module ExecutorFacts.

Import Executor ExecutorSpec Journal.

Section WithWorld.

Variable World : Type.
Variable execCmd : jsstring -> World -> CommandResult * World.
Variable now : World -> jsstring * World.

Lemma executeFrom_gathered steps done i results w :
  gathered done i results ->
  well_formed (done ++ steps) (fst (executeFrom execCmd now steps i results w)).
Proof.
  revert done i results w.
  induction steps as [|s rest IH]; intros done i results w (Hi & Hmap & Hall).
  - cbn [executeFrom fst]. unfold well_formed. cbn [ExecutionResult.results
      ExecutionResult.failedAtStep]. rewrite app_nil_r.
    assert (Hlen : List.length results = List.length done).
    { apply (f_equal (@List.length _)) in Hmap. rewrite !length_map in Hmap.
      exact Hmap. }
    split; [tauto|]. split; [congruence|]. split; [auto|].
    rewrite Hlen, firstn_all. exact Hmap.
  - cbn [executeFrom]. destruct (execCmd (PlanStep.action s) w) as [c w1].
    destruct (now w1) as [stamp w2].
    set (x := StepResult.mk _ _ _ _ _ _).
    assert (Hlen : List.length results = List.length done).
    { apply (f_equal (@List.length _)) in Hmap. rewrite !length_map in Hmap.
      exact Hmap. }
    destruct (success c) eqn:Hs; cbn [negb].
    + replace (done ++ s :: rest) with ((done ++ [s]) ++ rest)
        by (rewrite <- app_assoc; reflexivity).
      apply IH. split; [|split].
      * rewrite length_app. cbn [List.length]. lia.
      * rewrite !map_app, Hmap. reflexivity.
      * apply Forall_app. split; [exact Hall|].
        constructor; [|constructor]. subst x. cbn. try rewrite Hs. reflexivity.
    + cbn [fst]. unfold well_formed.
      cbn [ExecutionResult.results ExecutionResult.failedAtStep].
      assert (Hx : nth_error (results ++ [x]) (List.length results) = Some x).
      { rewrite nth_error_app2 by lia. rewrite Nat.sub_diag. reflexivity. }
      assert (Hi0 : (0 <= i)%Z) by lia.
      split; [|split; [|split]].
      * split; [lia|]. intros HF. exfalso.
        rewrite Forall_forall in HF.
        assert (Hin : In x (results ++ [x])) by (apply in_or_app; right; left; auto).
        apply HF in Hin. subst x. cbn in Hin. try rewrite Hs in Hin. discriminate.
      * intros _. split; [|split].
        -- exists x. split.
           ++ unfold index. destruct (Z.ltb_spec i 0); [lia|].
              rewrite Hi, Nat2Z.id. exact Hx.
           ++ subst x. cbn. try rewrite Hs. reflexivity.
        -- rewrite length_app. cbn [List.length]. lia.
        -- intros k y Hk Hy. rewrite nth_error_app1 in Hy by lia.
           rewrite Forall_forall in Hall. apply Hall.
           eapply nth_error_In; eauto.
      * lia.
      * rewrite length_app. cbn [List.length].
        rewrite map_app, Hmap. cbn [map].
        replace (List.length results + 1) with (List.length done + 1) by lia.
        rewrite firstn_app, firstn_all2 by lia.
        replace (List.length done + 1 - List.length done) with 1 by lia.
        cbn [firstn]. rewrite map_app. reflexivity.
Qed.

(** The results of a run belong, index by index, to the commands given. *)
Lemma results_follow_steps (steps : list PlanStep.t) (r : ExecutionResult.t) :
  well_formed steps r ->
  forall i x, nth_error (ExecutionResult.results r) i = Some x ->
    exists s, nth_error steps i = Some s
              /\ StepResult.step x = PlanStep.action s.
Proof.
  intros (_ & _ & _ & Hmap) i x Hx.
  assert (Hm : nth_error (map StepResult.step (ExecutionResult.results r)) i
               = Some (StepResult.step x)).
  { rewrite nth_error_map, Hx. reflexivity. }
  rewrite Hmap, nth_error_map in Hm.
  destruct (nth_error (firstn (List.length (ExecutionResult.results r)) steps) i)
    as [s|] eqn:E; [|discriminate].
  exists s. split; [|cbn in Hm; congruence].
  assert (Hi : i < List.length (ExecutionResult.results r)).
  { apply nth_error_Some. congruence. }
  rewrite nth_error_firstn in E.
  destruct (Nat.ltb_spec i (List.length (ExecutionResult.results r))); [exact E|lia].
Qed.

(** A whole run is well formed. *)
Lemma executeCommands_shape (steps : list PlanStep.t) (w : World) :
  well_formed steps (fst (executeCommands execCmd now steps w)).
Proof.
  apply (executeFrom_gathered steps [] 0 [] w).
  repeat split; constructor.
Qed.

(** A failed run names a step of the list. *)
Lemma failed_step_exists (steps : list PlanStep.t) (w : World) :
  let r := fst (executeCommands execCmd now steps w) in
  ExecutionResult.failedAtStep r <> (-1)%Z ->
  exists x s,
    index (ExecutionResult.results r) (ExecutionResult.failedAtStep r) = Some x
    /\ index steps (ExecutionResult.failedAtStep r) = Some s
    /\ StepResult.status x = Failure
    /\ StepResult.step x = PlanStep.action s.
Proof.
  intros r Hf.
  pose proof (executeCommands_shape steps w) as WF.
  pose proof (results_follow_steps steps _ WF) as Hnth.
  fold r in WF, Hnth.
  destruct WF as (_ & Hfail & _ & _).
  destruct (Hfail Hf) as ((x & Hx & Hst) & Hlen & _).
  unfold index in Hx.
  destruct (Z.ltb_spec (ExecutionResult.failedAtStep r) 0); [discriminate|].
  destruct (Hnth _ _ Hx) as (s & Hs & Hstep).
  exists x, s. unfold index.
  destruct (Z.ltb_spec (ExecutionResult.failedAtStep r) 0); [lia|]. auto.
Qed.

(** A run never drops a result. *)
Lemma executeFrom_grows (steps : list PlanStep.t) (i : Z)
  (results : list StepResult.t) (w : World) :
  List.length results
  <= List.length (ExecutionResult.results
                    (fst (executeFrom execCmd now steps i results w))).
Proof.
  revert i results w. induction steps as [|s rest IH]; intros i results w;
    cbn [executeFrom]; [cbn; lia|].
  destruct (execCmd (PlanStep.action s) w) as [c w1].
  destruct (now w1) as [stamp w2].
  destruct (success c); cbn [negb].
  - etransitivity; [|apply IH]. rewrite length_app. cbn. lia.
  - cbn [fst ExecutionResult.results]. rewrite length_app. cbn. lia.
Qed.

(** The commands after the one that fails play no part in the run. *)
Lemma executeFrom_stops (steps : list PlanStep.t) (i : Z)
  (results : list StepResult.t) (w : World) :
  let out := executeFrom execCmd now steps i results w in
  executeFrom execCmd now
    (firstn (List.length (ExecutionResult.results (fst out))
             - List.length results) steps)
    i results w
  = out.
Proof.
  revert i results w. induction steps as [|s rest IH]; intros i results w.
  - cbn [executeFrom fst ExecutionResult.results]. rewrite firstn_nil. reflexivity.
  - cbv zeta. cbn [executeFrom].
    destruct (execCmd (PlanStep.action s) w) as [c w1] eqn:E.
    destruct (now w1) as [stamp w2] eqn:N.
    set (x := StepResult.mk _ _ _ _ _ _).
    destruct (success c) eqn:Hs; cbn [negb].
    + specialize (IH (i + 1)%Z (results ++ [x]) w2). cbv zeta in IH.
      set (out := executeFrom execCmd now rest (i + 1) (results ++ [x]) w2) in *.
      assert (Hlen : List.length results + 1
                     <= List.length (ExecutionResult.results (fst out))).
      { pose proof (executeFrom_grows rest (i + 1)%Z (results ++ [x]) w2) as L.
        rewrite length_app in L. cbn [List.length] in L. exact L. }
      rewrite length_app in IH. cbn [List.length] in IH.
      replace (List.length (ExecutionResult.results (fst out)) - List.length results)
        with (S (List.length (ExecutionResult.results (fst out))
                 - (List.length results + 1))) by lia.
      cbn [firstn executeFrom]. rewrite E, N. fold x. rewrite Hs. cbn [negb].
      exact IH.
    + cbn [fst ExecutionResult.results]. rewrite length_app. cbn [List.length].
      replace (List.length results + 1 - List.length results) with 1 by lia.
      cbn [firstn executeFrom]. rewrite E, N. fold x. rewrite Hs. reflexivity.
Qed.

(** The loop runs the steps in turn, up to the one that fails, and adds
    their results to those it was given. *)
Lemma executeFrom_ranInTurn (steps : list PlanStep.t) (i : Z)
  (results : list StepResult.t) (w : World) :
  let out := executeFrom execCmd now steps i results w in
  exists more,
    ExecutionResult.results (fst out) = results ++ more
    /\ ranInTurn execCmd now (firstn (List.length more) steps) w more (snd out).
Proof.
  revert i results w. induction steps as [|s rest IH]; intros i results w;
    cbv zeta; cbn [executeFrom].
  - exists []. cbn. rewrite app_nil_r. split; [reflexivity|constructor].
  - destruct (execCmd (PlanStep.action s) w) as [c w1] eqn:E.
    destruct (now w1) as [stamp w2] eqn:N.
    set (x := StepResult.mk _ _ _ _ _ _).
    assert (R : ran execCmd now s w x w2).
    { exists c, w1, stamp. subst x. cbn. repeat split; auto. }
    destruct (success c); cbn [negb].
    + destruct (IH (i + 1)%Z (results ++ [x]) w2) as (more & Hm & Hr).
      cbv zeta in Hm, Hr. exists (x :: more). split.
      * rewrite Hm, <- app_assoc. reflexivity.
      * cbn [List.length firstn]. econstructor; eauto.
    + exists [x]. cbn [fst snd ExecutionResult.results List.length firstn].
      split; [reflexivity|]. econstructor; [exact R|constructor].
Qed.

(** The shell is handed the commands of the results, and no other. *)
Lemma executeFrom_journal (steps : list PlanStep.t) (i : Z)
  (results : list StepResult.t) (w : World) (l : list jsstring) :
  let out := executeFrom execCmd now steps i results w in
  exists more,
    ExecutionResult.results (fst out) = results ++ more
    /\ executeFrom (fun command => recording command (execCmd command))
         (silently now) steps i results (w, l)
       = (fst out, (snd out, l ++ map StepResult.step more)).
Proof.
  revert i results w l. induction steps as [|s rest IH]; intros i results w l;
    cbv zeta; cbn [executeFrom].
  - exists []. cbn. rewrite !app_nil_r. auto.
  - unfold recording at 1, silently at 1. cbn [fst snd].
    destruct (execCmd (PlanStep.action s) w) as [c w1] eqn:E.
    cbn [fst snd].
    destruct (now w1) as [stamp w2] eqn:N.
    set (x := StepResult.mk _ _ _ _ _ _).
    destruct (success c); cbn [negb].
    + destruct (IH (i + 1)%Z (results ++ [x]) w2 (l ++ [PlanStep.action s]))
        as (more & Hm & Hr).
      cbv zeta in Hm, Hr. exists (x :: more). split.
      * rewrite Hm, <- app_assoc. reflexivity.
      * rewrite Hr. cbn [map]. rewrite <- app_assoc. reflexivity.
    + exists [x]. cbn [fst snd ExecutionResult.results map].
      split; reflexivity.
Qed.

(** C2.  [executeCommands] runs the commands one after the other and stops
    at the first that fails.  The results are those of a prefix of the
    commands: each command of the prefix was handed to the shell, in
    order, in the world its predecessor left, and its result records the
    command, what the shell returned for it - status success exactly when
    the shell reports success, exit code, stdout and stderr - and the
    time read after it; the shell is handed these commands and no other,
    and the world returned is the one the last of them left.
    [failedAtStep] is -1 exactly when every result has status success, and
    then every command was run; otherwise the result at [failedAtStep] has
    status failure, it is the last one, and all results before it have
    status success.  The commands after the prefix play no part: the run
    of the prefix alone gives the same result and leaves the same world.
    An empty list of commands yields no results and -1. *)
Theorem executeCommands_well_formed (steps : list PlanStep.t) (w : World) :
  let out := executeCommands execCmd now steps w in
  let r := fst out in
  well_formed steps r
  /\ (forall i x, nth_error (ExecutionResult.results r) i = Some x ->
        exists s, nth_error steps i = Some s
                  /\ StepResult.step x = PlanStep.action s)
  /\ executeCommands execCmd now
       (firstn (List.length (ExecutionResult.results r)) steps) w
     = executeCommands execCmd now steps w
  /\ (steps = [] ->
      executeCommands execCmd now steps w = (ExecutionResult.mk [] (-1), w))
  /\ ranInTurn execCmd now
       (firstn (List.length (ExecutionResult.results r)) steps) w
       (ExecutionResult.results r) (snd out)
  /\ executeCommands (fun command => recording command (execCmd command))
       (silently now) steps (w, [])
     = (r, (snd out, map StepResult.step (ExecutionResult.results r)))
  /\ (forall i s x,
        nth_error steps i = Some s ->
        nth_error (ExecutionResult.results r) i = Some x ->
        (StepResult.status x = Failure ->
         ExecutionResult.failedAtStep r = Z.of_nat i
         /\ List.length (ExecutionResult.results r) = S i)).
Proof.
  intros out r. split; [apply executeCommands_shape|]. split; [|split; [|split]].
  - apply results_follow_steps. apply executeCommands_shape.
  - pose proof (executeFrom_stops steps 0 [] w) as H. cbv zeta in H.
    cbn [List.length] in H. rewrite Nat.sub_0_r in H. exact H.
  - intros ->. reflexivity.
  - split; [|split].
    + destruct (executeFrom_ranInTurn steps 0 [] w) as (more & Hm & Hr).
      cbv zeta in Hm, Hr. cbn [app] in Hm. subst r out. unfold executeCommands.
      rewrite Hm. exact Hr.
    + destruct (executeFrom_journal steps 0 [] w []) as (more & Hm & Hr).
      cbv zeta in Hm, Hr. cbn [app] in Hm, Hr. subst r out.
      unfold executeCommands. rewrite Hr, Hm. reflexivity.
    + intros i s x Hs Hx Hf.
      pose proof (executeCommands_shape steps w) as WF.
      fold out in WF. fold r in WF.
      destruct WF as (Hiff & Hfail & _ & _).
      assert (Hne : ExecutionResult.failedAtStep r <> (-1)%Z).
      { intros E. apply Hiff in E. rewrite Forall_forall in E.
        apply nth_error_In in Hx. apply E in Hx. congruence. }
      destruct (Hfail Hne) as (_ & Hlen & Hbefore).
      assert (Hi : i < List.length (ExecutionResult.results r))
        by (apply nth_error_Some; congruence).
      destruct (Z.lt_ge_cases (Z.of_nat i) (ExecutionResult.failedAtStep r))
        as [Hlt|Hge].
      * specialize (Hbefore i x Hlt Hx). congruence.
      * split; lia.
Qed.

End WithWorld.

End ExecutorFacts.

(** ** validatePlan *)

Module ValidatePlanFacts.

Import Validator ValidatePlan.

Lemma validateCommand_reports command known e :
  validateCommand command known = Invalid e -> Validator.command e = command.
Proof.
  unfold validateCommand.
  destruct (negb (truthy (Some (trim command)))); [intros [= <-]; reflexivity|].
  destruct (find _ BLOCKED_PATTERNS); [intros [= <-]; reflexivity|].
  destruct (negb (truthy _)); [|discriminate].
  destruct (Nat.eqb _ 0); intros [= <-]; reflexivity.
Qed.

(** [validateEach] stops at the first step that does not validate. *)
Lemma validateEach_first steps set :
  match validateEach steps set with
  | Valid =>
      forall s, In s steps -> validateCommand (PlanStep.action s) set = Valid
  | Invalid e =>
      exists before s after,
        steps = before ++ s :: after
        /\ (forall x, In x before ->
              validateCommand (PlanStep.action x) set = Valid)
        /\ validateCommand (PlanStep.action s) set = Invalid e
  end.
Proof.
  induction steps as [|a steps IH]; cbn [validateEach].
  - intros s [].
  - destruct (validateCommand (PlanStep.action a) set) as [|e] eqn:E.
    + destruct (validateEach steps set) as [|e'].
      * intros s [<-|Hs]; auto.
      * destruct IH as (before & s & after & -> & Hb & Hs).
        exists (a :: before), s, after. repeat split; auto.
        intros x [<-|Hx]; auto.
    + exists [], a, steps. repeat split; auto. intros x [].
Qed.

Lemma validateEach_app l1 l2 set :
  validateEach (l1 ++ l2) set
  = match validateEach l1 set with
    | Valid => validateEach l2 set
    | Invalid e => Invalid e
    end.
Proof.
  induction l1 as [|a l1 IH]; cbn [validateEach app]; auto.
  destruct (validateCommand (PlanStep.action a) set); auto.
Qed.

Lemma existsb_action (c : jsstring) (l : list PlanStep.t) :
  existsb (fun v => JsString.eqb (PlanStep.action v) c) l = true
  <-> In c (map PlanStep.action l).
Proof.
  rewrite existsb_exists, in_map_iff. unfold JsString.eqb.
  split; intros (v & H1 & H2); exists v.
  - destruct (list_eq_dec N.eq_dec (PlanStep.action v) c); [auto|discriminate].
  - split; auto. destruct (list_eq_dec N.eq_dec (PlanStep.action v) c); auto.
Qed.

(** C3.  [validatePlan] fails with the state untouched when there is no
    plan; fails with the reason 'Plan is already validated.' and the state
    untouched when the plan is already validated; when every command of
    the steps and of the verification validates it succeeds and changes
    [planValidated] to true and nothing else, and it succeeds in no other
    case; when some command does not validate, the first such command, in
    the order steps then verification, is reported: the state changes in
    [failureContext] only, which carries that very command and the
    validator's reason, tagged verification_command_rejected when the
    command is the action of a verification step and
    remediation_command_rejected otherwise. *)
Theorem validatePlan_contract (containers : list jsstring)
  (state : IncidentResolutionState) :
  let r := validatePlan containers state in
  let known := newSet containers [] in
  (plan state = None ->
     CapabilityResult.success r = false /\ CapabilityResult.state r = state)
  /\ (forall p, plan state = Some p -> planValidated state = true ->
        r = failure state (js "Plan is already validated."))
  /\ (forall p, plan state = Some p -> planValidated state = false ->
        (forall s, In s (RemediationPlan.steps p ++ RemediationPlan.verification p) ->
           validateCommand (PlanStep.action s) known = Valid) ->
        CapabilityResult.success r = true
        /\ CapabilityResult.state r = with_plan_validated state true)
  /\ (CapabilityResult.success r = true ->
        exists p, plan state = Some p /\ planValidated state = false
          /\ forall s, In s (RemediationPlan.steps p ++ RemediationPlan.verification p) ->
               validateCommand (PlanStep.action s) known = Valid)
  /\ (forall p before s after e,
        plan state = Some p -> planValidated state = false ->
        RemediationPlan.steps p ++ RemediationPlan.verification p
        = before ++ s :: after ->
        (forall x, In x before -> validateCommand (PlanStep.action x) known = Valid) ->
        validateCommand (PlanStep.action s) known = Invalid e ->
        CapabilityResult.success r = false
        /\ exists tag,
             CapabilityResult.state r
             = with_failureContext state
                 (Some (FailureContext.mk tag (Some (PlanStep.action s))
                          (Some (reason e)) None))
             /\ (In (PlanStep.action s)
                    (map PlanStep.action (RemediationPlan.verification p)) ->
                 tag = verification_command_rejected)
             /\ (~ In (PlanStep.action s)
                      (map PlanStep.action (RemediationPlan.verification p)) ->
                 tag = remediation_command_rejected)).
Proof.
  intros r known. subst r. unfold validatePlan.
  destruct (plan state) as [p|] eqn:Hp.
  2:{ repeat split; discriminate. }
  destruct (planValidated state) eqn:Hv.
  { split; [discriminate|]. split; [reflexivity|].
    split; [discriminate|]. split; [discriminate|].
    intros; discriminate. }
  unfold assertCommandsValid. fold known.
  pose proof (validateEach_first
                (RemediationPlan.steps p ++ RemediationPlan.verification p) known) as F.
  rewrite validateEach_app in F.
  set (thrown := match validateEach (RemediationPlan.steps p) known with
                 | Valid => match validateEach (RemediationPlan.verification p) known with
                            | Valid => None
                            | Invalid e => Some e
                            end
                 | Invalid e => Some e
                 end).
  assert (T : match thrown with
              | None => forall s, In s (RemediationPlan.steps p ++ RemediationPlan.verification p) ->
                          validateCommand (PlanStep.action s) known = Valid
              | Some e => exists before s after,
                  RemediationPlan.steps p ++ RemediationPlan.verification p
                  = before ++ s :: after
                  /\ (forall x, In x before ->
                        validateCommand (PlanStep.action x) known = Valid)
                  /\ validateCommand (PlanStep.action s) known = Invalid e
              end).
  { subst thrown. destruct (validateEach (RemediationPlan.steps p) known);
      [destruct (validateEach (RemediationPlan.verification p) known)|]; exact F. }
  clear F.
  assert (Huniq : forall before s after e before' s' after' e',
    before ++ s :: after = before' ++ s' :: after' ->
    (forall x, In x before -> validateCommand (PlanStep.action x) known = Valid) ->
    validateCommand (PlanStep.action s) known = Invalid e ->
    (forall x, In x before' -> validateCommand (PlanStep.action x) known = Valid) ->
    validateCommand (PlanStep.action s') known = Invalid e' ->
    s = s' /\ e = e').
  { induction before as [|b before IH]; intros s after e before' s' after' e' E Hb Hs Hb' Hs'.
    - destruct before' as [|b' before'].
      + injection E as -> _. split; congruence.
      + injection E as -> _. rewrite Hb' in Hs by (left; auto). discriminate.
    - destruct before' as [|b' before'].
      + injection E as <- _. rewrite Hb in Hs' by (left; auto). discriminate.
      + injection E as -> E. eapply IH; eauto.
        * intros x Hx. apply Hb. right; auto.
        * intros x Hx. apply Hb'. right; auto. }
  destruct thrown as [err|].
  - destruct T as (before & s & after & E & Hb & Hs).
    split; [discriminate|]. split; [discriminate|]. split.
    { intros p' [= <-] _ Hall. rewrite Hall in Hs; [discriminate|].
      rewrite E. apply in_or_app. right. left. reflexivity. }
    split; [discriminate|].
    intros p' before' s' after' e' [= <-] _ E' Hb' Hs'.
    rewrite E in E'.
    destruct (Huniq _ _ _ _ _ _ _ _ E' Hb Hs Hb' Hs') as [<- <-].
    pose proof (validateCommand_reports _ _ _ Hs) as Hc. rewrite Hc.
    split; [reflexivity|].
    eexists. split; [reflexivity|]. split.
    + intros Hin. apply existsb_action in Hin. rewrite Hin. reflexivity.
    + intros Hin.
      destruct (existsb _ (RemediationPlan.verification p)) eqn:Hex; auto.
      apply existsb_action in Hex. contradiction.
  - split; [discriminate|]. split; [discriminate|]. split.
    { intros p' [= <-] _ _. split; reflexivity. }
    split.
    { intros _. exists p. auto. }
    intros p' before s after e [= <-] _ E _ Hs.
    rewrite T in Hs; [discriminate|]. rewrite E. apply in_or_app. right. left. auto.
Qed.

End ValidatePlanFacts.

(** ** verifyPlan *)

Module VerifyPlanFacts.

Import Executor ExecutorSpec VerifyPlan ExecutorFacts.

Section WithWorld.

Variable World : Type.
Variable execCmd : jsstring -> World -> CommandResult * World.
Variable now : World -> jsstring * World.


End WithWorld.

End VerifyPlanFacts.
(** ** executePlan *)

Module ExecutePlanFacts.

Import Executor ExecutePlan ExecutorFacts.

Section WithWorld.

Variable World : Type.
Variable execCmd : jsstring -> World -> CommandResult * World.
Variable now : World -> jsstring * World.

(** [executePlan] always returns a result: the failing index of a run is an
    index of its results and of the plan's steps.  Without a validated,
    non-empty plan nothing runs; otherwise the steps run through
    [executeCommands] and the call succeeds exactly when none fails. *)
Lemma executePlan_returns (state : IncidentResolutionState) (w : World) :
  let out := executePlan execCmd now state w in
  exists r,
    fst out = Normal r
    /\ (plan state = None -> r = failure state (js "Cannot execute: no plan exists.")
                             /\ snd out = w)
    /\ (forall p, plan state = Some p ->
          (planValidated state = false \/ RemediationPlan.steps p = [] ->
             CapabilityResult.success r = false
             /\ CapabilityResult.state r = state /\ snd out = w)
          /\ (planValidated state = true -> RemediationPlan.steps p <> [] ->
              let run := executeCommands execCmd now (RemediationPlan.steps p) w in
              snd out = snd run
              /\ executionResult (CapabilityResult.state r) = Some (fst run)
              /\ (CapabilityResult.success r = true
                  <-> ExecutionResult.failedAtStep (fst run) = (-1)%Z))).
Proof.
  intros out. subst out. unfold executePlan.
  destruct (plan state) as [p|] eqn:Hp.
  2:{ eexists. split; [reflexivity|]. cbn [fst snd].
      split; [intros _; split; reflexivity|]. intros; discriminate. }
  destruct (planValidated state) eqn:Hv; cbn [negb].
  2:{ eexists. split; [reflexivity|]. cbn [fst snd].
      split; [discriminate|]. intros p' [= <-].
      split; [intros _; repeat split|]. discriminate. }
  destruct (RemediationPlan.steps p) as [|s ss] eqn:Hs.
  { cbn [List.length Nat.eqb]. eexists. split; [reflexivity|]. cbn [fst snd].
    split; [discriminate|]. intros p' [= <-]. rewrite Hs.
    split; [intros _; repeat split|]. intros _ N. contradiction. }
  cbn [List.length Nat.eqb].
  pose proof (failed_step_exists World execCmd now (s :: ss) w) as FS. cbv zeta in FS.
  destruct (executeCommands execCmd now (s :: ss) w) as [result w'] eqn:Hrun.
  cbn [fst snd] in FS.
  destruct (Z.eqb_spec (ExecutionResult.failedAtStep result) (-1)) as [Hr|Hr].
  { eexists. split; [reflexivity|]. cbn [fst snd].
    split; [discriminate|]. intros p' [= <-]. rewrite Hs.
    split; [intros [N|N]; discriminate|]. intros _ _.
    rewrite Hrun. cbn [fst snd]. repeat split; auto. }
  destruct (FS Hr) as (x & st & Hx & Hst & _).
  rewrite Hx, Hst.
  eexists. split; [reflexivity|]. cbn [fst snd].
  split; [discriminate|]. intros p' [= <-]. rewrite Hs.
  split; [intros [N|N]; discriminate|]. intros _ _.
  rewrite Hrun. cbn [fst snd].
  split; [reflexivity|]. split; [reflexivity|].
  split; [discriminate|]. intros N. contradiction.
Qed.

End WithWorld.

End ExecutePlanFacts.

(** ** planRemediation *)

Module PlanRemediationFacts.

Import PlanRemediation.

Section WithWorld.

Variable World : Type.
Variable runAgent :
  IncidentResolutionState -> World ->
  completion (RemediationPlan.t * list Content) * World.

(** C5.  [planRemediation] fails, and leaves the state and the world as
    they were - the reasoner is not consulted - unless feasibility is
    present with [feasible] true and either there is no plan or there is
    a plan together with a failure context; every failure leaves the
    state as it was.  When it succeeds, the plan is the reasoner's new
    plan, [planValidated] is false, [executionResult],
    [verificationResult] and [failureContext] are absent, and logs,
    incident graph, feasibility and resolution are those of the input
    state; the precondition held, and the planner history is the one the
    reasoner returned.  And it does succeed: when the precondition holds
    and the incident graph has a node and a root that is an index of its
    nodes, the reasoner runs once; if it answers with a plan the call
    succeeds with that plan in place of the old one and the fields above
    reset, and if it throws the call fails with the state as it was. *)
Theorem planRemediation_contract (state : IncidentResolutionState) (w : World) :
  let out := planRemediation runAgent state w in
  let r := fst out in
  ((~ (exists f, feasibility state = Some f
                 /\ FeasibilityAssessment.feasible f = true)
    \/ (plan state <> None /\ failureContext state = None)) ->
   CapabilityResult.success r = false /\ CapabilityResult.state r = state)
  /\ (CapabilityResult.success r = false -> CapabilityResult.state r = state)
  /\ (CapabilityResult.success r = true ->
      exists newPlan conversation w',
        runAgent state w = (Normal (newPlan, conversation), w')
        /\ CapabilityResult.data r = PlanRemediationData newPlan
        /\ plan (CapabilityResult.state r) = Some newPlan
        /\ planValidated (CapabilityResult.state r) = false
        /\ executionResult (CapabilityResult.state r) = None
        /\ verificationResult (CapabilityResult.state r) = None
        /\ failureContext (CapabilityResult.state r) = None
        /\ logs (CapabilityResult.state r) = logs state
        /\ incidentGraph (CapabilityResult.state r) = incidentGraph state
        /\ feasibility (CapabilityResult.state r) = feasibility state
        /\ resolution (CapabilityResult.state r) = resolution state
        /\ plannerHistory (CapabilityResult.state r) = conversation
        /\ (exists f, feasibility state = Some f
                      /\ FeasibilityAssessment.feasible f = true)
        /\ (plan state = None \/ failureContext state <> None))
  /\ ((~ (exists f, feasibility state = Some f
                    /\ FeasibilityAssessment.feasible f = true)
       \/ (plan state <> None /\ failureContext state = None)) ->
      snd out = w)
  /\ (forall f graph root rootNode,
        feasibility state = Some f ->
        FeasibilityAssessment.feasible f = true ->
        plan state = None \/ failureContext state <> None ->
        incidentGraph state = Some graph ->
        IncidentGraph.nodes graph <> [] ->
        IncidentGraph.root graph = Some root ->
        index (IncidentGraph.nodes graph) root = Some rootNode ->
        snd out = snd (runAgent state w)
        /\ match fst (runAgent state w) with
           | Normal (newPlan, conversation) =>
               CapabilityResult.success r = true
               /\ CapabilityResult.data r = PlanRemediationData newPlan
               /\ CapabilityResult.error r = None
               /\ plan (CapabilityResult.state r) = Some newPlan
               /\ planValidated (CapabilityResult.state r) = false
               /\ executionResult (CapabilityResult.state r) = None
               /\ verificationResult (CapabilityResult.state r) = None
               /\ failureContext (CapabilityResult.state r) = None
               /\ plannerHistory (CapabilityResult.state r) = conversation
               /\ logs (CapabilityResult.state r) = logs state
               /\ incidentGraph (CapabilityResult.state r) = incidentGraph state
               /\ feasibility (CapabilityResult.state r) = feasibility state
               /\ resolution (CapabilityResult.state r) = resolution state
           | Throws message =>
               CapabilityResult.success r = false
               /\ CapabilityResult.state r = state
               /\ CapabilityResult.error r
                  = Some (js "Planning failed: " ++ message)
           end).
Proof.
  intros out r.
  assert (Old :
    ((~ (exists f, feasibility state = Some f
                   /\ FeasibilityAssessment.feasible f = true)
      \/ (plan state <> None /\ failureContext state = None)) ->
     CapabilityResult.success r = false /\ CapabilityResult.state r = state)
    /\ (CapabilityResult.success r = false -> CapabilityResult.state r = state)
    /\ (CapabilityResult.success r = true ->
        exists newPlan conversation w',
          runAgent state w = (Normal (newPlan, conversation), w')
          /\ CapabilityResult.data r = PlanRemediationData newPlan
          /\ plan (CapabilityResult.state r) = Some newPlan
          /\ planValidated (CapabilityResult.state r) = false
          /\ executionResult (CapabilityResult.state r) = None
          /\ verificationResult (CapabilityResult.state r) = None
          /\ failureContext (CapabilityResult.state r) = None
          /\ logs (CapabilityResult.state r) = logs state
          /\ incidentGraph (CapabilityResult.state r) = incidentGraph state
          /\ feasibility (CapabilityResult.state r) = feasibility state
          /\ resolution (CapabilityResult.state r) = resolution state
          /\ plannerHistory (CapabilityResult.state r) = conversation
          /\ (exists f, feasibility state = Some f
                        /\ FeasibilityAssessment.feasible f = true)
          /\ (plan state = None \/ failureContext state <> None))).
  { subst r out. unfold planRemediation.
    destruct (incidentGraph state) as [graph|];
      [|repeat split; try discriminate; intros; reflexivity].
    destruct (Nat.eqb (List.length (IncidentGraph.nodes graph)) 0);
      [repeat split; try discriminate; intros; reflexivity|].
    destruct (feasibility state) as [feas|] eqn:Hfeas;
      [|repeat split; try discriminate; intros; reflexivity].
    destruct (FeasibilityAssessment.feasible feas) eqn:Hf; cbn [negb];
      [|repeat split; try discriminate; intros; reflexivity].
    assert (Pre : exists f, Some feas = Some f
                            /\ FeasibilityAssessment.feasible f = true) by eauto.
    destruct (plan state) as [old|] eqn:Hplan;
      destruct (failureContext state) as [fc|] eqn:Hfc;
      try (repeat split; try discriminate; intros; reflexivity);
      (destruct (IncidentGraph.root graph) as [root|];
         [|repeat split; try discriminate; intros; reflexivity]);
      (destruct (index (IncidentGraph.nodes graph) root) as [rootNode|];
         [|repeat split; try discriminate; intros; reflexivity]);
      (destruct (runAgent state w) as [[[newPlan conversation]|message] w'];
         [|repeat split; try discriminate; intros; reflexivity]);
      cbn [fst CapabilityResult.success CapabilityResult.state
           CapabilityResult.data success];
      (split; [intros [N|[N1 N2]]; [contradiction|try discriminate; try congruence]|]);
      (split; [discriminate|]);
      intros _; exists newPlan, conversation, w';
      repeat (split; [reflexivity|]); (split; [exact Pre|]);
      solve [left; reflexivity | right; discriminate]. }
  destruct Old as (O1 & O2 & O3).
  split; [exact O1|]. split; [exact O2|]. split; [exact O3|]. split.
  - subst r out. unfold planRemediation. intros Pre.
    destruct (incidentGraph state) as [graph|]; [|reflexivity].
    destruct (Nat.eqb (List.length (IncidentGraph.nodes graph)) 0); [reflexivity|].
    destruct (feasibility state) as [feas|] eqn:Hfeas; [|reflexivity].
    destruct (FeasibilityAssessment.feasible feas) eqn:Hf; cbn [negb];
      [|reflexivity].
    destruct Pre as [N|[N1 N2]]; [exfalso; apply N; eauto|].
    destruct (plan state) as [old|]; [|congruence].
    rewrite N2. reflexivity.
  - intros f graph root rootNode Hfeas Hf Hplan Hgraph Hnodes Hroot Hindex.
    subst r out. unfold planRemediation. rewrite Hgraph, Hfeas, Hf, Hroot, Hindex.
    destruct (Nat.eqb_spec (List.length (IncidentGraph.nodes graph)) 0) as [E|_].
    { destruct (IncidentGraph.nodes graph); [contradiction|discriminate]. }
    cbn [negb].
    assert (G : forall (A : Type) (a b : A),
              match plan state, failureContext state with
              | Some _, None => a
              | _, _ => b
              end = b).
    { intros A a b. destruct Hplan as [->|N]; [reflexivity|].
      destruct (plan state); destruct (failureContext state);
        try reflexivity. contradiction. }
    rewrite G.
    destruct (runAgent state w) as [[[newPlan conversation]|message] w'];
      cbn; repeat split.
Qed.

End WithWorld.

(** A feasible incident without a plan: the planner's plan is stored. *)
Lemma planRemediation_contract_witness :
  let state :=
    with_feasibility
      (with_incidentGraph
         (createInitialState [js "[cache] Container stopped unexpectedly"])
         (Some Examples.cacheStopped))
      (Some (FeasibilityAssessment.mk true (js "restartable") None)) in
  let out :=
    planRemediation (fun _ (w : unit) => (Normal (Examples.startCache, []), w))
      state tt in
  CapabilityResult.success (fst out) = true
  /\ plan (CapabilityResult.state (fst out)) = Some Examples.startCache
  /\ planValidated (CapabilityResult.state (fst out)) = false.
Proof.
  cbv zeta.
  pose proof
    (proj2 (proj2 (proj2 (proj2
       (planRemediation_contract unit
          (fun _ (w : unit) => (Normal (Examples.startCache, []), w))
          (with_feasibility
             (with_incidentGraph
                (createInitialState [js "[cache] Container stopped unexpectedly"])
                (Some Examples.cacheStopped))
             (Some (FeasibilityAssessment.mk true (js "restartable") None)))
          tt))))
       (FeasibilityAssessment.mk true (js "restartable") None)
       Examples.cacheStopped 0%Z
       (IncidentNode.mk (js "cache") (js "container.cache.stopped")
          [js "[cache] Container stopped unexpectedly"]
          (js "2026-01-01T00:00:00.000Z"))
       eq_refl eq_refl (or_introl eq_refl) eq_refl
       ltac:(discriminate) eq_refl eq_refl) as H.
  cbv zeta in H. destruct H as (_ & H). cbn [fst] in H.
  destruct H as (S & _ & _ & P & V & _).
  split; [exact S|]. split; [exact P|exact V].
Defined.

End PlanRemediationFacts.


(** ** The orchestrator loop *)

Module WorkflowFacts.

Import Workflow Examples.

Lemma bounded_skip bound current before rest :
  bounded bound current (before ++ rest) ->
  exists current', bounded bound current' rest.
Proof.
  revert current. induction before as [|t before IH]; intros current H.
  - exists current. exact H.
  - cbn [app bounded] in H. destruct (isInjection t).
    + eapply IH; eauto.
    + destruct (isReplan t).
      * destruct H as [_ H]. eapply IH; eauto.
      * eapply IH; eauto.
Qed.

Lemma bounded_stretch bound current stretch rest :
  bounded bound current (stretch ++ rest) ->
  (forall t, In t stretch -> isInjection t = false) ->
  replans stretch = 0 \/ current + replans stretch <= bound.
Proof.
  revert current. induction stretch as [|t stretch IH]; intros current H Hn.
  - left. reflexivity.
  - cbn [app bounded] in H. rewrite (Hn t) in H by (left; reflexivity).
    assert (Hn' : forall x, In x stretch -> isInjection x = false)
      by (intros x Hx; apply Hn; right; exact Hx).
    unfold replans in *. cbn [filter].
    destruct (isReplan t).
    + destruct H as [Hle H]. right. cbn [List.length].
      destruct (IH _ H Hn') as [E|E]; lia.
    + destruct (IH _ H Hn') as [E|E]; auto.
Qed.

Section WithWorld.

Variable World : Type.
Variable env : Collaborators World.

Ltac oracle :=
  match goal with
  | |- context [resolveEscalation env ?a ?b ?w] =>
      destruct (resolveEscalation env a b w) as [[?|] ?]
  | |- context [generateContent env ?h ?w] =>
      destruct (generateContent env h w) as [[?| |?|? ? ? ?] ?]
  | |- context [askPlanApproval env ?w] =>
      destruct (askPlanApproval env w) as [[|?] ?]
  | |- context [handler env ?c ?s ?w] =>
      let r := fresh "result" in
      destruct (handler env c s w) as [r ?];
      destruct (CapabilityResult.idle r) as [[|]|]
  | |- context [now env ?w] => destruct (now env w) as [? ?]
  | |- context [CAPABILITY_REGISTRY ?n] =>
      destruct (CAPABILITY_REGISTRY n) as [[| | | | | | | |]|]
  | |- context [failureContext ?s] =>
      destruct (failureContext s) as [?|]
  end.

Ltac light :=
  cbn [fst snd attemptCount maxAttempts pushConversation pushHistory
       setAttemptCount isBreaker isInjection isReplan isPlanRemediation
       andb orb negb].

(** How one pass moves the attempt counter. *)
Lemma pass_counts state context w :
  let out := iteration env state context w in
  maxAttempts (contextOf out) = maxAttempts context
  /\ (if maxAttempts context <=? attemptCount context
      then isBreaker (traceOf out) = true
      else isBreaker (traceOf out) = false)
  /\ (isInjection (traceOf out) = true ->
      attemptCount (contextOf out) = 0 /\ nextOf out = Continue state)
  /\ (traceOf out = BreakerDismissed ->
      nextOf out = Break (with_resolution state dismissed)
      /\ attemptCount (contextOf out) = attemptCount context)
  /\ (isInjection (traceOf out) = false ->
      attemptCount (contextOf out)
      = if isReplan (traceOf out)
        then match nextOf out with
             | Continue _ => S (attemptCount context)
             | _ => attemptCount context
             end
        else attemptCount context).
Proof.
  unfold iteration, traceOf, nextOf, contextOf, caught.
  destruct (maxAttempts context <=? attemptCount context).
  - oracle; light; repeat split; auto; discriminate.
  - repeat oracle; light; repeat split; auto; discriminate.
Qed.

Lemma run_bounded fuel state context w :
  attemptCount context <= maxAttempts context ->
  bounded (maxAttempts context) (attemptCount context)
    (fst (fst (fst (loop env fuel state context w)))).
Proof.
  revert state context w.
  induction fuel as [|fuel IH]; intros state context w Hle.
  - cbn [loop]. destruct (resolution state); exact I.
  - cbn [loop]. destruct (resolution state); try exact I.
    pose proof (pass_counts state context w) as P. cbv zeta in P.
    destruct (iteration env state context w) as [[[t next] context'] w'].
    unfold traceOf, nextOf, contextOf in P. cbn [fst snd] in P.
    destruct P as (Hmax & Hbr & Hinj & _ & Hcount).
    assert (Hrep : isInjection t = false -> isReplan t = true ->
                   S (attemptCount context) <= maxAttempts context).
    { intros _ Hr. destruct (Nat.leb_spec (maxAttempts context) (attemptCount context)).
      - destruct t; try discriminate.
      - lia. }
    destruct next as [state'|state'|r].
    + specialize (IH state' context' w').
      destruct (loop env fuel state' context' w') as [[[ts r] c] w''].
      cbn [fst snd] in *. cbn [bounded].
      destruct (isInjection t) eqn:Ei.
      * destruct (Hinj eq_refl) as [H0 _]. rewrite H0, Hmax in IH.
        apply IH. lia.
      * specialize (Hcount eq_refl). destruct (isReplan t) eqn:Er.
        -- split; [auto|]. rewrite Hcount, Hmax in IH. apply IH.
           specialize (Hrep eq_refl eq_refl). lia.
        -- rewrite Hcount, Hmax in IH. apply IH. exact Hle.
    + cbn [fst snd bounded]. destruct (isInjection t) eqn:Ei; [exact I|].
      destruct (isReplan t) eqn:Er; [|exact I]. split; [auto|exact I].
    + cbn [fst snd bounded]. destruct (isInjection t) eqn:Ei; [exact I|].
      destruct (isReplan t) eqn:Er; [|exact I]. split; [auto|exact I].
Qed.

(** C6.  In one pass of the loop the attempt counter grows only by one
    and only in a pass that dispatched planRemediation while a failure
    context was present; it is reset, to 0, only in a pass in which the
    human answered the circuit breaker with context; a pass entered with
    the counter at or above [maxAttempts] asks the human at the circuit
    breaker and dispatches nothing, and the breaker is consulted in no
    other pass; a dismissal at the breaker leaves the loop with the
    resolution [dismissed].  Hence, in every run from the initial state,
    any stretch of passes without such a context injection holds at most
    [maxAttempts] planning calls made with a failure context present. *)
Theorem attempts_bounded :
  (forall state context w,
     let out := iteration env state context w in
     maxAttempts (contextOf out) = maxAttempts context
     /\ (attemptCount context < attemptCount (contextOf out) ->
         attemptCount (contextOf out) = S (attemptCount context)
         /\ exists hadResult,
              traceOf out = Dispatched planRemediation true hadResult)
     /\ (attemptCount (contextOf out) < attemptCount context ->
         attemptCount (contextOf out) = 0
         /\ exists userContext, traceOf out = BreakerContext userContext)
     /\ (maxAttempts context <= attemptCount context <->
         isBreaker (traceOf out) = true)
     /\ (traceOf out = BreakerDismissed ->
         nextOf out = Break (with_resolution state dismissed)))
  /\ (forall maxActionsPerIncident fuel logs w before stretch after,
        fst (fst (fst (runOrchestrator env maxActionsPerIncident fuel logs w)))
        = before ++ stretch ++ after ->
        (forall t, In t stretch -> isInjection t = false) ->
        replans stretch <= maxActionsPerIncident).
Proof.
  split.
  - intros state context w out.
    pose proof (pass_counts state context w) as P. cbv zeta in P. fold out in P.
    destruct P as (Hmax & Hbr & Hinj & Hdis & Hcount).
    split; [exact Hmax|]. split; [|split; [|split]].
    + intros Hlt. destruct (isInjection (traceOf out)) eqn:Ei.
      * destruct (Hinj eq_refl) as [H0 _]. lia.
      * specialize (Hcount eq_refl).
        destruct (isReplan (traceOf out)) eqn:Er; [|lia].
        destruct (nextOf out); try lia. split; [exact Hcount|].
        destruct (traceOf out) as [| | | | | | | |c h res]; try discriminate.
        destruct c; try discriminate. destruct h; try discriminate. eauto.
    + intros Hlt. destruct (isInjection (traceOf out)) eqn:Ei.
      * destruct (Hinj eq_refl) as [H0 _]. split; [exact H0|].
        destruct (traceOf out); try discriminate. eauto.
      * specialize (Hcount eq_refl).
        destruct (isReplan (traceOf out)); [destruct (nextOf out)|]; lia.
    + destruct (Nat.leb_spec (maxAttempts context) (attemptCount context));
        split; auto; try lia. intros E. rewrite E in Hbr. discriminate.
    + intros E. apply Hdis. exact E.
  - intros maxA fuel logs w before stretch after E Hn.
    unfold runOrchestrator in E.
    pose proof (run_bounded fuel (createInitialState logs)
                  (createInitialContext maxA) w) as B.
    cbn [createInitialContext attemptCount maxAttempts] in B.
    specialize (B (Nat.le_0_l _)). rewrite E in B.
    destruct (bounded_skip _ _ _ _ B) as (current & B').
    destruct (bounded_stretch _ _ _ _ B' Hn) as [H|H]; lia.
Qed.

(** C9.  When the reasoner selects requestApproval and the human rejects
    the plan, the next state carries a [user_rejected] failure context
    whose reason is the feedback, [planValidated] false and no execution
    or verification result, and every other field - plan, logs, incident
    graph, feasibility, planner history, resolution - is the one of the
    state before; when the human approves, the state is the one before. *)
Theorem requestApproval_frame (state : IncidentResolutionState)
  (context : OrchestrationContext) (w w1 : World) (modelContent : Content)
  (reason neededContext : jsstring) :
  attemptCount context < maxAttempts context ->
  generateContent env
    (orchestratorConversationHistory
       (pushConversation context (stateMessage env state))) w
  = (FunctionCall modelContent (js "requestApproval") reason neededContext, w1) ->
  let out := iteration env state context w in
  (forall feedback w2,
     askPlanApproval env w1 = (Reject feedback, w2) ->
     traceOf out = Rejected feedback
     /\ exists state',
          nextOf out = Continue state'
          /\ failureContext state'
             = Some (FailureContext.mk user_rejected None (Some feedback) None)
          /\ planValidated state' = false
          /\ executionResult state' = None
          /\ verificationResult state' = None
          /\ plan state' = plan state
          /\ logs state' = logs state
          /\ incidentGraph state' = incidentGraph state
          /\ feasibility state' = feasibility state
          /\ plannerHistory state' = plannerHistory state
          /\ resolution state' = resolution state)
  /\ (forall w2,
        askPlanApproval env w1 = (Approve, w2) ->
        traceOf out = Approved /\ nextOf out = Continue state).
Proof.
  intros Hlt Hgen out. subst out. unfold iteration, traceOf, nextOf.
  destruct (Nat.leb_spec (maxAttempts context) (attemptCount context)); [lia|].
  rewrite Hgen.
  change (CAPABILITY_REGISTRY (js "requestApproval")) with (Some requestApproval).
  cbv iota. split.
  - intros feedback w2 Hask. rewrite Hask. destruct (now env w2) as [stamp w3].
    cbn [fst snd]. split; [reflexivity|]. eexists. split; [reflexivity|].
    cbn. repeat split.
  - intros w2 Hask. rewrite Hask. destruct (now env w2) as [stamp w3].
    cbn [fst snd]. split; reflexivity.
Qed.

End WithWorld.

(** With a reasoner that asks for approval and a human who rejects, the
    first pass of a run is a rejection. *)
Lemma requestApproval_frame_witness :
  let state := createInitialState [js "[db] connection refused"] in
  let context := createInitialContext 3 in
  attemptCount context < maxAttempts context
  /\ traceOf (iteration rejecting state context tt) = Rejected (js "not now").
Proof.
  cbv zeta. split; [cbn; lia|].
  refine (proj1 (proj1 (requestApproval_frame unit rejecting
            (createInitialState [js "[db] connection refused"])
            (createInitialContext 3) tt tt (ModelContent []) [] [] _ _)
            (js "not now") tt _)).
  - cbn. lia.
  - reflexivity.
  - reflexivity.
Defined.

End WorkflowFacts.
(** ** The orchestrator loop: passes, runs and the audit history *)

Module OrchestratorFacts.

Import Workflow WorkflowSpec.

Section WithWorld.

Variable World : Type.
Variable env : Collaborators World.

Ltac oracle :=
  match goal with
  | |- context [resolveEscalation env ?a ?b ?w] =>
      destruct (resolveEscalation env a b w) as [[?|] ?]
  | |- context [generateContent env ?h ?w] =>
      destruct (generateContent env h w) as [[?| |?|? ? ? ?] ?]
  | |- context [askPlanApproval env ?w] =>
      destruct (askPlanApproval env w) as [[|?] ?]
  | |- context [handler env ?c ?s ?w] =>
      let r := fresh "result" in
      let E := fresh "Eidle" in
      destruct (handler env c s w) as [r ?];
      destruct (CapabilityResult.idle r) as [[|]|] eqn:E
  | |- context [now env ?w] => destruct (now env w) as [? ?]
  | |- context [CAPABILITY_REGISTRY ?n] =>
      destruct (CAPABILITY_REGISTRY n) as [[| | | | | | | |]|]
  end.

(** A rule for invariants of the state and the world: what every
    collaborator's call and every state update of the loop body keeps, a
    pass keeps. *)
Lemma pass_keeps (P : IncidentResolutionState -> World -> Prop) :
  (forall s h w, P s w -> P s (snd (generateContent env h w))) ->
  (forall s a b w, P s w -> P s (snd (resolveEscalation env a b w))) ->
  (forall s w, P s w -> P s (snd (askPlanApproval env w))) ->
  (forall s a b w, P s w -> P s (addFact env a b w)) ->
  (forall s w, P s w -> P s (snd (now env w))) ->
  (forall s w, resolution s = pending -> P s w ->
               P (with_resolution s dismissed) w) ->
  (forall s w, resolution s = pending -> P s w -> P (afterContext s) w) ->
  (forall s feedback w, resolution s = pending -> P s w ->
                        P (afterRejection s feedback) w) ->
  (forall c s w, inline c = false -> resolution s = pending -> P s w ->
     P (CapabilityResult.state (fst (handler env c s w)))
       (snd (handler env c s w))) ->
  forall state context w,
    resolution state = pending -> P state w ->
    let out := iteration env state context w in
    P (stateOf (nextOf out)) (worldOf out).
Proof.
  intros Hgen Hesc Happ Hfact Hnow Hdis Hctx Hrej Hhan state context w Hpen HP.
  unfold iteration, nextOf, worldOf, caught.
  destruct (maxAttempts context <=? attemptCount context).
  - pose proof (Hesc state (breakerReason (maxAttempts context))
                  breakerNeededContext w HP) as H1.
    destruct (resolveEscalation env _ _ w) as [[ctx|] w1]; cbn [fst snd stateOf] in *.
    + apply Hfact. exact H1.
    + apply Hdis; assumption.
  - set (h := orchestratorConversationHistory
                (pushConversation context (stateMessage env state))).
    pose proof (Hgen state h w HP) as H1.
    destruct (generateContent env h w) as [[m| |mc|mc name reason needed] w1];
      cbn [fst snd stateOf] in *; auto.
    destruct (CAPABILITY_REGISTRY name) as [c|]; cbn [fst snd stateOf]; auto.
    destruct (inline c) eqn:Ein.
    + destruct c; try discriminate.
      * pose proof (Happ state w1 H1) as H2.
        destruct (askPlanApproval env w1) as [[|feedback] w2]; cbn [snd] in H2.
        -- pose proof (Hnow state w2 H2) as H3.
           destruct (now env w2) as [stamp w3]. cbn [fst snd stateOf] in *. exact H3.
        -- pose proof (Hrej state feedback w2 Hpen H2) as H3.
           pose proof (Hnow _ w2 H3) as H4.
           destruct (now env w2) as [stamp w3]. cbn [fst snd stateOf] in *. exact H4.
      * pose proof (Hesc state reason needed w1 H1) as H2.
        destruct (resolveEscalation env reason needed w1) as [[ctx|] w2];
          cbn [snd] in H2.
        -- pose proof (Hfact state reason ctx w2 H2) as H3.
           pose proof (Hctx state _ Hpen H3) as H4.
           pose proof (Hnow _ _ H4) as H5.
           destruct (now env (addFact env reason ctx w2)) as [stamp w4].
           cbn [fst snd stateOf] in *. exact H5.
        -- pose proof (Hdis state w2 Hpen H2) as H3.
           pose proof (Hnow _ _ H3) as H4.
           destruct (now env w2) as [stamp w3]. cbn [fst snd stateOf] in *. exact H4.
    + pose proof (Hhan c state w1 Ein Hpen H1) as H2.
      destruct c; try discriminate;
        (destruct (handler env _ state w1) as [result w2]; cbn [fst snd] in H2;
         destruct (CapabilityResult.idle result) as [[|]|];
         cbn [fst snd stateOf];
         [exact H2| |];
         (pose proof (Hnow _ _ H2) as H4; destruct (now env w2) as [stamp w3];
          cbn [fst snd stateOf] in *; exact H4)).
Qed.

(** The rule for whole runs: the invariant holds of the state a finished
    run returns and of some state with the world an unfinished run has
    reached. *)
Lemma run_keeps (P : IncidentResolutionState -> World -> Prop) :
  (forall s h w, P s w -> P s (snd (generateContent env h w))) ->
  (forall s a b w, P s w -> P s (snd (resolveEscalation env a b w))) ->
  (forall s w, P s w -> P s (snd (askPlanApproval env w))) ->
  (forall s a b w, P s w -> P s (addFact env a b w)) ->
  (forall s w, P s w -> P s (snd (now env w))) ->
  (forall s w, resolution s = pending -> P s w ->
               P (with_resolution s dismissed) w) ->
  (forall s w, resolution s = pending -> P s w -> P (afterContext s) w) ->
  (forall s feedback w, resolution s = pending -> P s w ->
                        P (afterRejection s feedback) w) ->
  (forall c s w, inline c = false -> resolution s = pending -> P s w ->
     P (CapabilityResult.state (fst (handler env c s w)))
       (snd (handler env c s w))) ->
  forall fuel state context w,
    P state w ->
    let out := loop env fuel state context w in
    exists s, P s (snd out)
              /\ forall r, snd (fst (fst out)) = Some r -> s = finalState r.
Proof.
  intros Hgen Hesc Happ Hfact Hnow Hdis Hctx Hrej Hhan.
  induction fuel as [|fuel IH]; intros state context w HP.
  - cbn [loop]. destruct (resolution state); cbn [fst snd];
      exists state; split; auto; intros r [= <-]; reflexivity.
  - cbn [loop]. destruct (resolution state) eqn:Hres;
      try (cbn [fst snd]; exists state; split; auto;
           intros r [= <-]; reflexivity).
    pose proof (pass_keeps P Hgen Hesc Happ Hfact Hnow Hdis Hctx Hrej Hhan
                  state context w Hres HP) as K.
    cbv zeta in K. unfold nextOf, worldOf in K.
    destruct (iteration env state context w) as [[[t next] context'] w'].
    cbn [fst snd] in K.
    destruct next as [state'|state'|r0]; cbn [stateOf] in K.
    + specialize (IH state' context' w' K). cbv zeta in IH.
      destruct (loop env fuel state' context' w') as [[[ts r] c] w''].
      cbn [fst snd] in *. exact IH.
    + cbn [fst snd]. exists state'. split; auto. intros r [= <-]. reflexivity.
    + cbn [fst snd]. exists (finalState r0). split; auto.
      intros r [= <-]. reflexivity.
Qed.

Ltac oracle_in E :=
  match type of E with
  | context [resolveEscalation env ?a ?b ?w] =>
      destruct (resolveEscalation env a b w) as [[?|] ?]
  | context [generateContent env ?h ?w] =>
      destruct (generateContent env h w) as [[?| |?|? ? ? ?] ?]
  | context [askPlanApproval env ?w] =>
      destruct (askPlanApproval env w) as [[|?] ?]
  | context [handler env ?c ?s ?w] =>
      let r := fresh "result" in
      let I := fresh "Eidle" in
      destruct (handler env c s w) as [r ?];
      destruct (CapabilityResult.idle r) as [[|]|] eqn:I
  | context [now env ?w] => destruct (now env w) as [? ?]
  | context [CAPABILITY_REGISTRY ?n] =>
      destruct (CAPABILITY_REGISTRY n) as [[| | | | | | | |]|]
  end.

(** Every way through the loop body, one goal each. *)
Ltac passes E :=
  unfold iteration, caught in E;
  destruct (maxAttempts _ <=? attemptCount _);
  repeat oracle_in E;
  injection E as <- <- <- <-.

(** What one pass, entered with a pending state, hands on. *)
Lemma pass_outcome state context w :
  let out := iteration env state context w in
  match traceOf out, nextOf out with
  | BreakerDismissed, Break s' => s' = with_resolution state dismissed
  | BreakerContext _, Continue s' => s' = state
  | Caught _, Continue s' => s' = state
  | Nudged, Continue s' => s' = state
  | EscalateDismissed, Continue s' => s' = with_resolution state dismissed
  | EscalateContinued _, Continue s' => s' = afterContext state
  | Approved, Continue s' => s' = state
  | Rejected feedback, Continue s' => s' = afterRejection state feedback
  | Dispatched c _ result, Continue s' =>
      inline c = false /\ s' = CapabilityResult.state result
      /\ CapabilityResult.idle result <> Some true
  | Dispatched c _ result, Return r =>
      inline c = false
      /\ r = mkOrchestratorResult (CapabilityResult.state result) true
      /\ CapabilityResult.idle result = Some true
  | _, _ => False
  end.
Proof.
  cbv zeta. unfold traceOf, nextOf.
  destruct (iteration env state context w) as [[[t n] c] w'] eqn:E.
  cbn [fst snd]. passes E;
    lazymatch goal with
    | |- _ = _ => reflexivity
    | |- _ /\ _ =>
        (split; [reflexivity|split; [reflexivity|]]);
        first [assumption | rewrite Eidle; discriminate]
    end.
Qed.

(** A pass that dispatches hands the state it was entered with to the
    handler, and records what the handler returned. *)
Lemma pass_dispatched state context w c had result :
  traceOf (iteration env state context w) = Dispatched c had result ->
  inline c = false
  /\ had = match failureContext state with Some _ => true | None => false end
  /\ exists w1, result = fst (handler env c state w1).
Proof.
  unfold traceOf, iteration, caught.
  destruct (maxAttempts _ <=? attemptCount _).
  - destruct (resolveEscalation env _ _ w) as [[?|] ?]; discriminate.
  - destruct (generateContent env _ w) as [[m| |mc|mc name reason needed] w1];
      try discriminate.
    destruct (CAPABILITY_REGISTRY name) as [c0|]; [|discriminate].
    destruct c0;
      try (destruct (askPlanApproval env w1) as [[|?] ?];
           destruct (now env _) as [? ?]; discriminate);
      try (destruct (resolveEscalation env reason needed w1) as [[?|] ?];
           destruct (now env _) as [? ?]; discriminate);
      (destruct (handler env _ state w1) as [r0 w2] eqn:Eh;
       destruct (CapabilityResult.idle r0) as [[|]|];
       try destruct (now env w2) as [? ?];
       cbn [fst snd]; intros [= <- <- <-];
       (split; [reflexivity|split; [reflexivity|]]);
       exists w1; rewrite Eh; reflexivity).
Qed.

(** The last pass of a finished run. *)
Lemma loop_last fuel state context w r :
  resolution state = pending ->
  snd (fst (fst (loop env fuel state context w))) = Some r ->
  exists before s c w0,
    resolution s = pending
    /\ fst (fst (fst (loop env fuel state context w)))
       = before ++ [traceOf (iteration env s c w0)]
    /\ match nextOf (iteration env s c w0) with
       | Return r' => r = r'
       | Break s' => r = mkOrchestratorResult s' false
       | Continue s' =>
           r = mkOrchestratorResult s' false /\ resolution s' <> pending
       end.
Proof.
  revert state context w. induction fuel as [|fuel IH]; intros state context w Hpen.
  - cbn [loop]. rewrite Hpen. discriminate.
  - cbn [loop]. rewrite Hpen.
    destruct (iteration env state context w) as [[[t next] context1] w1] eqn:E.
    destruct next as [state'|state'|r0].
    + destruct (resolution state') eqn:Hres'.
      * specialize (IH state' context1 w1 Hres').
        destruct (loop env fuel state' context1 w1) as [[[ts r1] c1] w2].
        cbn [fst snd] in *. intros Hr.
        destruct (IH Hr) as (before & s & c & w0 & Hs & Ht & Hn).
        exists (t :: before), s, c, w0. rewrite Ht. auto.
      * destruct fuel; cbn [loop]; rewrite Hres'; cbn [fst snd];
          intros [= <-]; exists [], state, context, w;
          unfold traceOf, nextOf; rewrite E; cbn [fst snd];
          (split; [exact Hpen|split; [reflexivity|split; [reflexivity|congruence]]]).
      * destruct fuel; cbn [loop]; rewrite Hres'; cbn [fst snd];
          intros [= <-]; exists [], state, context, w;
          unfold traceOf, nextOf; rewrite E; cbn [fst snd];
          (split; [exact Hpen|split; [reflexivity|split; [reflexivity|congruence]]]).
      * destruct fuel; cbn [loop]; rewrite Hres'; cbn [fst snd];
          intros [= <-]; exists [], state, context, w;
          unfold traceOf, nextOf; rewrite E; cbn [fst snd];
          (split; [exact Hpen|split; [reflexivity|split; [reflexivity|congruence]]]).
    + cbn [fst snd]. intros [= <-]. exists [], state, context, w.
      unfold traceOf, nextOf. rewrite E. cbn [fst snd]. auto.
    + cbn [fst snd]. intros [= <-]. exists [], state, context, w.
      unfold traceOf, nextOf. rewrite E. cbn [fst snd]. auto.
Qed.

(** What one pass adds to the audit history and to the conversation. *)
Lemma pass_audit state context w :
  let out := iteration env state context w in
  (exists entries,
     history (contextOf out) = history context ++ entries
     /\ map entryOf entries = audited (traceOf out))
  /\ exists messages,
       orchestratorConversationHistory (contextOf out)
       = orchestratorConversationHistory context ++ messages.
Proof.
  cbv zeta. unfold traceOf, contextOf.
  destruct (iteration env state context w) as [[[t n] c] w'] eqn:E.
  cbn [fst snd]. passes E;
    unfold audited; try rewrite Eidle;
    destruct (failureContext state);
    unfold pushHistory, pushConversation, setAttemptCount, push; simpl;
    (split;
     [lazymatch goal with
      | |- exists _, _ ++ _ = _ /\ _ =>
          eexists; split; [reflexivity|reflexivity]
      | |- _ => exists []; split; [symmetry; apply app_nil_r|reflexivity]
      end
     | rewrite <- ?app_assoc;
       lazymatch goal with
       | |- exists _, _ ++ _ = _ => eexists; reflexivity
       | |- _ => exists []; symmetry; apply app_nil_r
       end ]).
Qed.

(** How the audit history and the conversation grow over a run of the
    loop. *)
Lemma loop_audit fuel state context w :
  let out := loop env fuel state context w in
  let trace := fst (fst (fst out)) in
  let context' := snd (fst out) in
  (exists entries,
     history context' = history context ++ entries
     /\ map entryOf entries = flat_map audited trace)
  /\ exists messages,
       orchestratorConversationHistory context'
       = orchestratorConversationHistory context ++ messages.
Proof.
  revert state context w. induction fuel as [|fuel IH]; intros state context w.
  - cbn [loop]. destruct (resolution state); cbn [fst snd flat_map];
      (split; [exists []; split; [symmetry; apply app_nil_r|reflexivity]
              |exists []; symmetry; apply app_nil_r]).
  - cbn [loop]. destruct (resolution state);
      try (cbn [fst snd flat_map];
           split; [exists []; split; [symmetry; apply app_nil_r|reflexivity]
                  |exists []; symmetry; apply app_nil_r]).
    pose proof (pass_audit state context w) as P. cbv zeta in P.
    unfold traceOf, contextOf in P.
    destruct (iteration env state context w) as [[[t next] context1] w1].
    cbn [fst snd] in P. destruct P as ((e1 & He1 & Ha1) & (m1 & Hm1)).
    destruct next as [state'|state'|r0].
    + specialize (IH state' context1 w1). cbv zeta in IH.
      destruct (loop env fuel state' context1 w1) as [[[ts r] c] w2].
      cbn [fst snd] in *. destruct IH as ((e2 & He2 & Ha2) & (m2 & Hm2)).
      split.
      * exists (e1 ++ e2). rewrite He2, He1, <- app_assoc. split; [reflexivity|].
        cbn [flat_map]. rewrite map_app, Ha1, Ha2. reflexivity.
      * exists (m1 ++ m2). rewrite Hm2, Hm1, <- app_assoc. reflexivity.
    + cbn [fst snd flat_map]. rewrite app_nil_r. split; eauto.
    + cbn [fst snd flat_map]. rewrite app_nil_r. split; eauto.
Qed.

(** X1.  The audit history is append-only and complete: over any run of
    the loop the entries present at the start stay in place, and the
    entries added are, in order, one for every capability the loop handled
    - a handler that returned without reporting idle, an approval, a
    rejection, an escalation - with the capability's name and the success
    flag; a pass at the circuit breaker, a reasoner error, a nudge and an
    idle return add none. The conversation with the reasoner only grows as
    well. In a run from the initial state the history is exactly these
    entries. *)
Theorem audit_trail :
  (forall fuel state context w,
     let out := loop env fuel state context w in
     let trace := fst (fst (fst out)) in
     let context' := snd (fst out) in
     (exists entries,
        history context' = history context ++ entries
        /\ map entryOf entries = flat_map audited trace)
     /\ exists messages,
          orchestratorConversationHistory context'
          = orchestratorConversationHistory context ++ messages)
  /\ (forall maxActionsPerIncident fuel logs w,
        let out := runOrchestrator env maxActionsPerIncident fuel logs w in
        map entryOf (history (snd (fst out)))
        = flat_map audited (fst (fst (fst out)))).
Proof.
  split.
  - exact loop_audit.
  - intros maxA fuel logs w. unfold runOrchestrator.
    destruct (loop_audit fuel (createInitialState logs)
                (createInitialContext maxA) w) as ((e & He & Ha) & _).
    cbv zeta. rewrite He. exact Ha.
Qed.

(** X2.  When the reasoner selects escalate and the human answers with
    context, the reason and the answer go to the knowledge file, the
    failure context is cleared, the feasibility is cleared if it was
    negative and kept otherwise, and every other field of the state -
    plan, planValidated, execution and verification result included - and
    the attempt counter are as before. When the human dismisses, nothing
    is written to the knowledge file and the state is the one before with
    the resolution [dismissed]. *)
Theorem escalation_frame (state : IncidentResolutionState)
  (context : OrchestrationContext) (w w1 : World) (modelContent : Content)
  (reason neededContext : jsstring) :
  attemptCount context < maxAttempts context ->
  generateContent env
    (orchestratorConversationHistory
       (pushConversation context (stateMessage env state))) w
  = (FunctionCall modelContent (js "escalate") reason neededContext, w1) ->
  let out := iteration env state context w in
  (forall userContext w2,
     resolveEscalation env reason neededContext w1
     = (ContinueWith userContext, w2) ->
     traceOf out = EscalateContinued userContext
     /\ worldOf out = snd (now env (addFact env reason userContext w2))
     /\ attemptCount (contextOf out) = attemptCount context
     /\ exists state',
          nextOf out = Continue state'
          /\ failureContext state' = None
          /\ feasibility state'
             = match feasibility state with
               | Some f =>
                   if FeasibilityAssessment.feasible f then Some f else None
               | None => None
               end
          /\ plan state' = plan state
          /\ planValidated state' = planValidated state
          /\ executionResult state' = executionResult state
          /\ verificationResult state' = verificationResult state
          /\ logs state' = logs state
          /\ incidentGraph state' = incidentGraph state
          /\ plannerHistory state' = plannerHistory state
          /\ resolution state' = resolution state)
  /\ (forall w2,
        resolveEscalation env reason neededContext w1 = (Dismiss, w2) ->
        traceOf out = EscalateDismissed
        /\ worldOf out = snd (now env w2)
        /\ attemptCount (contextOf out) = attemptCount context
        /\ nextOf out = Continue (with_resolution state dismissed)).
Proof.
  intros Hlt Hgen out. subst out.
  unfold iteration, traceOf, nextOf, contextOf, worldOf.
  destruct (Nat.leb_spec (maxAttempts context) (attemptCount context)); [lia|].
  rewrite Hgen.
  change (CAPABILITY_REGISTRY (js "escalate")) with (Some escalate).
  cbv iota. split.
  - intros userContext w2 Hask. rewrite Hask.
    destruct (now env (addFact env reason userContext w2)) as [stamp w3].
    cbn [fst snd]. split; [reflexivity|]. split; [reflexivity|].
    split; [reflexivity|]. eexists. split; [reflexivity|].
    destruct (feasibility state) as [f|] eqn:Hf.
    + destruct (FeasibilityAssessment.feasible f) eqn:Hfe; cbn;
        rewrite ?Hf; repeat split.
    + cbn. rewrite ?Hf. repeat split.
  - intros w2 Hask. rewrite Hask. destruct (now env w2) as [stamp w3].
    cbn [fst snd]. repeat split.
Qed.

(** How a run from a pending state ends.  A finished run made at least
    one pass.  It reports idle exactly when the last pass was a handler
    that returned [idle], and then hands back that handler's state;
    otherwise the state it returns is no longer pending and came from a
    human dismissal - at the circuit breaker or in an escalation - or from
    the handler dispatched last.  An unfinished run has used all its
    fuel. *)
Lemma loop_ends fuel state context w :
  resolution state = pending ->
  let out := loop env fuel state context w in
  let trace := fst (fst (fst out)) in
  match snd (fst (fst out)) with
  | None => List.length trace = fuel
  | Some r =>
      exists before last,
        trace = before ++ [last]
        /\ match last with
           | BreakerDismissed | EscalateDismissed =>
               isIdle r = false /\ resolution (finalState r) = dismissed
           | Dispatched c _ result =>
               inline c = false
               /\ finalState r = CapabilityResult.state result
               /\ (isIdle r = true <-> CapabilityResult.idle result = Some true)
               /\ (isIdle r = false -> resolution (finalState r) <> pending)
           | _ => False
           end
  end.
Proof.
  revert state context w. induction fuel as [|fuel IH]; intros state context w Hpen.
  - cbn [loop]. rewrite Hpen. reflexivity.
  - cbn [loop]. rewrite Hpen.
    pose proof (pass_outcome state context w) as P. cbv zeta in P.
    unfold traceOf, nextOf in P.
    destruct (iteration env state context w) as [[[t next] context1] w1].
    cbn [fst snd] in P.
    destruct next as [state'|state'|r0].
    + destruct (resolution state') eqn:Hres'.
      * specialize (IH state' context1 w1 Hres'). cbv zeta in IH.
        destruct (loop env fuel state' context1 w1) as [[[ts r] c] w2].
        cbn [fst snd] in *. destruct r as [r|].
        -- destruct IH as (before & last & -> & Hlast).
           exists (t :: before), last. split; [reflexivity|exact Hlast].
        -- cbn [List.length]. congruence.
      * destruct fuel; cbn [loop]; rewrite Hres'; cbn [fst snd];
          exists [], t; (split; [reflexivity|]);
          destruct t; try contradiction; subst;
            cbn [resolution with_resolution afterContext afterRejection
                 with_failureContext with_feasibility] in Hres';
            try congruence;
            try (destruct (feasibility state) as [f|];
                 [destruct (FeasibilityAssessment.feasible f)|];
                 cbn in Hres'; congruence);
            try (split; reflexivity).
        all: destruct P as (Hin & -> & Hidle); cbn [finalState isIdle];
          (split; [exact Hin|split; [reflexivity|split; [|congruence]]]);
          split; [discriminate|intros E; contradiction].
      * destruct fuel; cbn [loop]; rewrite Hres'; cbn [fst snd];
          exists [], t; (split; [reflexivity|]);
          destruct t; try contradiction; subst;
            cbn [resolution with_resolution afterContext afterRejection
                 with_failureContext with_feasibility] in Hres';
            try congruence;
            try (destruct (feasibility state) as [f|];
                 [destruct (FeasibilityAssessment.feasible f)|];
                 cbn in Hres'; congruence);
            try (split; reflexivity).
        all: destruct P as (Hin & -> & Hidle); cbn [finalState isIdle];
          (split; [exact Hin|split; [reflexivity|split; [|congruence]]]);
          split; [discriminate|intros E; contradiction].
      * destruct fuel; cbn [loop]; rewrite Hres'; cbn [fst snd];
          exists [], t; (split; [reflexivity|]);
          destruct t; try contradiction; subst;
            cbn [resolution with_resolution afterContext afterRejection
                 with_failureContext with_feasibility] in Hres';
            try congruence;
            try (destruct (feasibility state) as [f|];
                 [destruct (FeasibilityAssessment.feasible f)|];
                 cbn in Hres'; congruence);
            try (split; reflexivity).
        all: destruct P as (Hin & -> & Hidle); cbn [finalState isIdle];
          (split; [exact Hin|split; [reflexivity|split; [|congruence]]]);
          split; [discriminate|intros E; contradiction].
    + cbn [fst snd]. exists [], t. split; [reflexivity|].
      destruct t; try contradiction. subst. split; reflexivity.
    + cbn [fst snd]. exists [], t. split; [reflexivity|].
      destruct t; try contradiction. destruct P as (Hin & -> & Hidle).
      cbn [finalState isIdle]. split; [exact Hin|]. split; [reflexivity|].
      split; [split; auto|discriminate].
Qed.

(** X3.  How a run from the initial state ends. A run that returns made at
    least one pass, and its last pass decides the result. It reports idle
    exactly when the last pass dispatched a handler that returned [idle],
    and the state handed back is then that handler's. Otherwise the state
    handed back is not pending: it is dismissed after the human's
    dismissal, at the circuit breaker or in an escalation, or it is the
    state of the handler dispatched last, which is never escalate or
    requestApproval. No run returns after a nudge, a reasoner error, an
    approval or a rejection. A run that does not return made as many
    passes as it was given. *)
Theorem run_ends (maxActionsPerIncident fuel : nat) (logs : list jsstring)
  (w : World) :
  let out := runOrchestrator env maxActionsPerIncident fuel logs w in
  let trace := fst (fst (fst out)) in
  match snd (fst (fst out)) with
  | None => List.length trace = fuel
  | Some r =>
      exists before last,
        trace = before ++ [last]
        /\ match last with
           | BreakerDismissed | EscalateDismissed =>
               isIdle r = false /\ resolution (finalState r) = dismissed
           | Dispatched c _ result =>
               inline c = false
               /\ finalState r = CapabilityResult.state result
               /\ (isIdle r = true <-> CapabilityResult.idle result = Some true)
               /\ (isIdle r = false -> resolution (finalState r) <> pending)
           | _ => False
           end
  end.
Proof.
  apply loop_ends. reflexivity.
Qed.

(** The attempt counter stays within the limit over any run of the loop. *)
Lemma loop_within fuel state context w :
  attemptCount context <= maxAttempts context ->
  let out := loop env fuel state context w in
  attemptCount (snd (fst out)) <= maxAttempts context
  /\ maxAttempts (snd (fst out)) = maxAttempts context.
Proof.
  revert state context w. induction fuel as [|fuel IH]; intros state context w Hle.
  - cbn [loop]. destruct (resolution state); cbn [fst snd]; auto.
  - cbn [loop]. destruct (resolution state); cbn [fst snd]; auto.
    pose proof (WorkflowFacts.pass_counts World env state context w) as P.
    cbv zeta in P. unfold traceOf, nextOf, contextOf in P.
    destruct (iteration env state context w) as [[[t next] context1] w1].
    cbn [fst snd] in P. destruct P as (Hmax & Hbr & Hinj & Hdis & Hcount).
    assert (Hle1 : attemptCount context1 <= maxAttempts context1).
    { rewrite Hmax. destruct (isInjection t) eqn:Ei.
      - destruct (Hinj eq_refl) as [-> _]. lia.
      - specialize (Hcount eq_refl).
        destruct (Nat.leb_spec (maxAttempts context) (attemptCount context)).
        + destruct t; try discriminate; cbn [isReplan] in Hcount; lia.
        + destruct (isReplan t); [destruct next|]; lia. }
    destruct next as [state'|state'|r0]; cbn [fst snd]; try (split; [lia|auto]).
    specialize (IH state' context1 w1 Hle1). cbv zeta in IH.
    destruct (loop env fuel state' context1 w1) as [[[ts r] c] w2].
    cbn [fst snd] in *. rewrite Hmax in IH. exact IH.
Qed.

(** With no attempt allowed every pass is a pass at the circuit breaker. *)
Lemma loop_zero fuel state context w :
  maxAttempts context = 0 -> resolution state = pending ->
  let out := loop env fuel state context w in
  Forall (fun t => isBreaker t = true) (fst (fst (fst out)))
  /\ forall r, snd (fst (fst out)) = Some r ->
               r = mkOrchestratorResult (with_resolution state dismissed) false.
Proof.
  revert state context w. induction fuel as [|fuel IH]; intros state context w H0 Hpen.
  - cbn [loop]. rewrite Hpen. cbn [fst snd]. split; [constructor|discriminate].
  - cbn [loop]. rewrite Hpen.
    pose proof (WorkflowFacts.pass_counts World env state context w) as P.
    pose proof (pass_outcome state context w) as O.
    cbv zeta in P, O. unfold traceOf, nextOf, contextOf in P, O.
    destruct (iteration env state context w) as [[[t next] context1] w1].
    cbn [fst snd] in P, O. destruct P as (Hmax & Hbr & Hinj & Hdis & _).
    rewrite H0 in Hbr. cbn [Nat.leb] in Hbr.
    destruct t; try discriminate.
    + destruct next; try contradiction. subst. cbn [fst snd].
      split; [repeat constructor|]. intros r [= <-]. reflexivity.
    + destruct next as [state'| |]; try contradiction. subst state'.
      specialize (IH state context1 w1). rewrite Hmax in IH.
      specialize (IH H0 Hpen). cbv zeta in IH.
      destruct (loop env fuel state context1 w1) as [[[ts r] c] w2].
      cbn [fst snd] in *. destruct IH as [IH1 IH2].
      split; [constructor; [reflexivity|exact IH1]|exact IH2].
Qed.

(** X4.  The attempt counter never exceeds [maxActionsPerIncident]. With
    [maxActionsPerIncident] 0 the reasoner is never consulted and no
    capability is dispatched: every pass asks the human at the circuit
    breaker, and the only way the run ends is the human's dismissal, with
    the initial state. *)
Theorem attempt_limit :
  (forall maxActionsPerIncident fuel logs w,
     attemptCount
       (snd (fst (runOrchestrator env maxActionsPerIncident fuel logs w)))
     <= maxActionsPerIncident)
  /\ (forall fuel logs w,
        let out := runOrchestrator env 0 fuel logs w in
        Forall (fun t => t = BreakerDismissed \/ exists c, t = BreakerContext c)
          (fst (fst (fst out)))
        /\ forall r, snd (fst (fst out)) = Some r ->
                     r = mkOrchestratorResult
                           (with_resolution (createInitialState logs) dismissed)
                           false).
Proof.
  split.
  - intros maxA fuel logs w. unfold runOrchestrator.
    pose proof (loop_within fuel (createInitialState logs)
                  (createInitialContext maxA) w) as L.
    cbn [createInitialContext attemptCount maxAttempts] in L.
    apply L. lia.
  - intros fuel logs w. unfold runOrchestrator.
    destruct (loop_zero fuel (createInitialState logs) (createInitialContext 0) w
                eq_refl eq_refl) as [F R].
    cbv zeta. split; [|exact R].
    eapply Forall_impl; [|exact F]. intros t Ht.
    destruct t; try discriminate; eauto.
Qed.

End WithWorld.

(** A pass does not depend on the handlers registered for escalate and
    requestApproval. *)
Lemma iteration_inline {World : Type} (env : Collaborators World)
  (h : CapabilityName -> IncidentResolutionState -> World ->
       CapabilityResult.t * World) :
  (forall c state w, inline c = false -> h c state w = handler env c state w) ->
  forall state context w,
    iteration (withHandler env h) state context w = iteration env state context w.
Proof.
  intros Hagree state context w.
  unfold iteration, stateMessage, caught, withHandler.
  cbn [generateContent resolveEscalation askPlanApproval addFact now handler
       stringify].
  destruct (maxAttempts context <=? attemptCount context); [reflexivity|].
  destruct (generateContent env _ w) as [[m| |mc|mc name reason needed] w1];
    try reflexivity.
  destruct (CAPABILITY_REGISTRY name) as [c|]; [|reflexivity].
  destruct c; try reflexivity; rewrite Hagree; reflexivity.
Qed.

(** X5.  The handlers registered for escalate and requestApproval are
    never called: the loop handles these two capabilities itself, so a run
    with any other handlers in their place - all other handlers being the
    same - is the same run, pass by pass, with the same result, context
    and world. *)
Theorem inline_handlers_never_called {World : Type} (env : Collaborators World)
  (h : CapabilityName -> IncidentResolutionState -> World ->
       CapabilityResult.t * World) :
  (forall c state w, inline c = false -> h c state w = handler env c state w) ->
  forall maxActionsPerIncident fuel logs w,
    runOrchestrator (withHandler env h) maxActionsPerIncident fuel logs w
    = runOrchestrator env maxActionsPerIncident fuel logs w.
Proof.
  intros Hagree maxA fuel logs w. unfold runOrchestrator.
  generalize (createInitialState logs) (createInitialContext maxA).
  revert w. induction fuel as [|fuel IH]; intros w state context.
  - reflexivity.
  - cbn [loop]. rewrite (iteration_inline env h Hagree).
    destruct (resolution state); try reflexivity.
    destruct (iteration env state context w) as [[[t next] context1] w1].
    destruct next; try reflexivity. rewrite IH. reflexivity.
Qed.

(** With a reasoner that escalates and a human who answers, the handlers
    put in place of the inline ones make no difference. *)
Lemma inline_handlers_never_called_witness :
  (forall c state w,
     inline c = false -> otherInline c state w = handler escalating c state w)
  /\ runOrchestrator (withHandler escalating otherInline) 3 5 [js "[db] down"] tt
     = runOrchestrator escalating 3 5 [js "[db] down"] tt.
Proof.
  assert (H : forall c state w,
            inline c = false ->
            otherInline c state w = handler escalating c state w).
  { intros c state w Hc. unfold otherInline. rewrite Hc. reflexivity. }
  split; [exact H|].
  exact (inline_handlers_never_called escalating otherInline H 3 5 [js "[db] down"] tt).
Defined.

(** The reasoner escalates in the first pass and the human answers: the
    failure context is gone and the counter is where it was. *)
Lemma escalation_frame_witness :
  let state :=
    with_failureContext (createInitialState [js "[db] down"])
      (Some (FailureContext.mk execution_failed None None None)) in
  let context := createInitialContext 3 in
  attemptCount context < maxAttempts context
  /\ traceOf (iteration escalating state context tt)
     = EscalateContinued (js "512m").
Proof.
  cbv zeta. split; [cbn; lia|].
  refine (proj1 (proj1 (escalation_frame unit escalating
            (with_failureContext (createInitialState [js "[db] down"])
               (Some (FailureContext.mk execution_failed None None None)))
            (createInitialContext 3) tt tt (ModelContent [])
            (js "memory limit unknown") (js "the limit of the cache") _ _)
            (js "512m") tt _)).
  - cbn. lia.
  - reflexivity.
  - reflexivity.
Defined.

End OrchestratorFacts.

(** ** analyzeIncident, assessFeasibility and executePlan *)

Module CapabilityFacts.

Import Typed.

Section Analysis.

Variable World : Type.
Variable runAgent : list jsstring -> World -> completion IncidentGraph.t * World.

(** X6.  [analyzeIncident] fails, with the state and the world as they
    were - the reasoner is not consulted - when the state has no log line
    or already holds an incident graph. Otherwise the reasoner runs once
    on the log lines: when it throws, the call fails with the state
    unchanged; when its analysis has no root or no node, the call succeeds
    with the state unchanged and null data; otherwise it succeeds and the
    state differs from the input in the incident graph only, which is the
    analysis. So a graph stored by the analysis has a root and at least
    one node. The handler reports idle exactly when the call succeeded and
    the state it returns holds no graph. *)
Theorem analyzeIncident_contract (state : IncidentResolutionState) (w : World) :
  let out := AnalyzeIncident.analyzeIncident runAgent state w in
  let r := fst out in
  ((forall lines, logs state = Some lines -> lines = [])
   \/ incidentGraph state <> None ->
   success r = false /\ Typed.state r = state /\ snd out = w)
  /\ (forall lines,
        logs state = Some lines -> lines <> [] -> incidentGraph state = None ->
        snd out = snd (runAgent lines w)
        /\ match fst (runAgent lines w) with
           | Throws message =>
               success r = false /\ Typed.state r = state
               /\ error r = Some (js "Analysis failed: " ++ message)
           | Normal g =>
               success r = true
               /\ if match IncidentGraph.root g with
                     | None => true
                     | Some _ => false
                     end
                     || Nat.eqb (List.length (IncidentGraph.nodes g)) 0
                  then Typed.state r = state /\ data r = Some None
                  else Typed.state r = with_incidentGraph state (Some g)
                       /\ data r = Some (Some g)
           end)
  /\ (forall g, incidentGraph state = None ->
                incidentGraph (Typed.state r) = Some g ->
                IncidentGraph.root g <> None /\ IncidentGraph.nodes g <> [])
  /\ (let h := fst (AnalyzeIncident.handler runAgent state w) in
      success h = success r /\ Typed.state h = Typed.state r
      /\ snd (AnalyzeIncident.handler runAgent state w) = snd out
      /\ (idle h = Some true
          <-> success r = true /\ incidentGraph (Typed.state r) = None)).
Proof.
  cbv zeta. unfold AnalyzeIncident.handler, AnalyzeIncident.analyzeIncident.
  destruct (logs state) as [lines|] eqn:Hl.
  2:{ cbn. split; [auto|]. split; [discriminate|].
      split; [congruence|]. repeat split; try discriminate. intros [E _]. discriminate. }
  destruct lines as [|l lines].
  { cbn. split; [auto|]. split; [intros ? [= <-] N; contradiction|].
    split; [congruence|]. repeat split; try discriminate. intros [E _]. discriminate. }
  cbn [List.length Nat.eqb].
  destruct (incidentGraph state) as [g0|] eqn:Hg.
  { cbn. split; [auto|]. split; [discriminate|]. split; [discriminate|].
    repeat split; try discriminate. intros [E _]. discriminate. }
  split.
  { intros [N|N]; [specialize (N _ eq_refl); discriminate|contradiction]. }
  destruct (runAgent (l :: lines) w) as [[g|m] w'] eqn:Hrun.
  - destruct g as [nodes edges root summary]. cbn [IncidentGraph.root IncidentGraph.nodes
      IncidentGraph.edges IncidentGraph.summary].
    destruct root as [root|]; cbn [orb].
    + destruct nodes as [|n nodes]; cbn [List.length Nat.eqb].
      * cbn. rewrite Hg. split.
        { intros ? [= <-] _ _. rewrite Hrun. cbn. auto. }
        split; [discriminate|]. repeat split; auto.
      * cbn. split.
        { intros ? [= <-] _ _. rewrite Hrun. cbn. auto. }
        split; [intros g _ [= <-]; cbn; split; discriminate|].
        repeat split; try discriminate. intros [_ E]. discriminate.
    + cbn. rewrite Hg. split.
      { intros ? [= <-] _ _. rewrite Hrun. cbn. auto. }
      split; [discriminate|]. repeat split; auto.
  - cbn. rewrite Hg. split.
    { intros ? [= <-] _ _. rewrite Hrun. cbn. auto. }
    split; [discriminate|]. repeat split; try discriminate.
    intros [E _]. discriminate.
Qed.

End Analysis.

Section Feasibility.

Variable World : Type.
Variable runAgent :
  IncidentResolutionState -> World -> completion FeasibilityAssessment.t * World.

(** X7.  [assessFeasibility] fails, with the state and the world as they
    were, unless the state holds an incident graph with at least one node
    and a root that is an index of its nodes. With such a graph the
    reasoner runs once: when it throws, the call fails with the state
    unchanged; otherwise it succeeds and the state differs from the input
    in the feasibility only, which is the reasoner's assessment - negative
    or positive, and whatever assessment the state held before. *)
Theorem assessFeasibility_contract (state : IncidentResolutionState) (w : World) :
  let out := AssessFeasibility.assessFeasibility runAgent state w in
  let r := fst out in
  ((~ exists graph root node,
        incidentGraph state = Some graph
        /\ IncidentGraph.root graph = Some root
        /\ index (IncidentGraph.nodes graph) root = Some node) ->
   success r = false /\ Typed.state r = state /\ snd out = w)
  /\ (forall graph root node,
        incidentGraph state = Some graph ->
        IncidentGraph.root graph = Some root ->
        index (IncidentGraph.nodes graph) root = Some node ->
        snd out = snd (runAgent state w)
        /\ match fst (runAgent state w) with
           | Throws message =>
               success r = false /\ Typed.state r = state
               /\ error r
                  = Some (js "Feasibility assessment failed: " ++ message)
           | Normal assessment =>
               success r = true
               /\ Typed.state r = with_feasibility state (Some assessment)
               /\ data r = Some assessment
           end).
Proof.
  cbv zeta. unfold AssessFeasibility.assessFeasibility.
  destruct (incidentGraph state) as [graph|] eqn:Hg.
  2:{ cbn. split; [auto|]. intros; discriminate. }
  destruct (IncidentGraph.nodes graph) as [|n nodes] eqn:Hn.
  { cbn. split; [auto|]. intros g root node [= <-] _ Hi. rewrite Hn in Hi.
    unfold index in Hi. destruct (root <? 0)%Z; [discriminate|].
    destruct (Z.to_nat root); discriminate. }
  cbn [List.length Nat.eqb].
  destruct (IncidentGraph.root graph) as [root|] eqn:Hr.
  2:{ cbn. split; [auto|]. intros g root node [= <-]. congruence. }
  destruct (index (n :: nodes) root) as [node|] eqn:Hi.
  2:{ cbn. split; [auto|]. intros g root' node [= <-] E. rewrite Hr in E.
      injection E as <-. rewrite Hn. congruence. }
  split.
  { intros N. exfalso. apply N. exists graph, root, node. rewrite Hn. auto. }
  intros g root' node' _ _ _.
  destruct (runAgent state w) as [[a|m] w']; cbn; auto.
Qed.

End Feasibility.

Section Execution.

Variable World : Type.
Variable execCmd : jsstring -> World -> Executor.CommandResult * World.
Variable now : World -> jsstring * World.

(** X8.  [executePlan] always returns a result. It fails, with the state
    and the world as they were - no command runs - unless the state holds
    a plan that is validated and has at least one step. With such a plan
    the steps run in order through [executeCommands]; the call succeeds
    exactly when no step fails, and either way the execution result is
    stored. When a step fails, the failure context names it: type
    [execution_failed], the failing command, and its output (stderr, or
    stdout when stderr is empty). The plan, its validation, the
    verification result and the resolution are never touched. *)
Theorem executePlan_contract (state : IncidentResolutionState) (w : World) :
  let out := ExecutePlan.executePlan execCmd now state w in
  exists r,
    fst out = Normal r
    /\ plan (CapabilityResult.state r) = plan state
    /\ planValidated (CapabilityResult.state r) = planValidated state
    /\ verificationResult (CapabilityResult.state r) = verificationResult state
    /\ resolution (CapabilityResult.state r) = resolution state
    /\ ((~ exists p, plan state = Some p /\ planValidated state = true
                     /\ RemediationPlan.steps p <> []) ->
        CapabilityResult.success r = false
        /\ CapabilityResult.state r = state /\ snd out = w)
    /\ (forall p,
          plan state = Some p -> planValidated state = true ->
          RemediationPlan.steps p <> [] ->
          let run := Executor.executeCommands execCmd now
                       (RemediationPlan.steps p) w in
          let result := fst run in
          snd out = snd run
          /\ executionResult (CapabilityResult.state r) = Some result
          /\ (CapabilityResult.success r = true
              <-> ExecutionResult.failedAtStep result = (-1)%Z)
          /\ (ExecutionResult.failedAtStep result = (-1)%Z ->
              CapabilityResult.state r
              = with_executionResult state (Some result))
          /\ (ExecutionResult.failedAtStep result <> (-1)%Z ->
              exists x s,
                index (ExecutionResult.results result)
                  (ExecutionResult.failedAtStep result) = Some x
                /\ index (RemediationPlan.steps p)
                     (ExecutionResult.failedAtStep result) = Some s
                /\ StepResult.status x = Failure
                /\ failureContext (CapabilityResult.state r)
                   = Some (FailureContext.mk execution_failed
                             (Some (PlanStep.action s))
                             (Some (js "Command failed at step "
                                    ++ Number_toString
                                         (ExecutionResult.failedAtStep result + 1)))
                             (Some (orElse (StepResult.stderr x)
                                           (StepResult.stdout x)))))).
Proof.
  cbv zeta. unfold ExecutePlan.executePlan.
  destruct (plan state) as [p|] eqn:Hp.
  2:{ eexists. split; [reflexivity|].
      cbn [fst snd CapabilityResult.state CapabilityResult.success Capability.failure].
      split; [exact Hp|]. do 3 (split; [reflexivity|]).
      split; [intros _; repeat split|]. intros; discriminate. }
  destruct (planValidated state) eqn:Hv; cbn [negb].
  2:{ eexists. split; [reflexivity|].
      cbn [fst snd CapabilityResult.state CapabilityResult.success Capability.failure].
      split; [exact Hp|]. split; [exact Hv|]. do 2 (split; [reflexivity|]).
      split; [intros _; repeat split|]. intros; discriminate. }
  destruct (RemediationPlan.steps p) as [|s ss] eqn:Hs.
  { cbn [List.length Nat.eqb]. eexists. split; [reflexivity|].
    cbn [fst snd CapabilityResult.state CapabilityResult.success Capability.failure].
    split; [exact Hp|]. split; [exact Hv|]. do 2 (split; [reflexivity|]).
    split; [intros _; repeat split|].
    intros p' [= <-] _ N. rewrite Hs in N. contradiction. }
  cbn [List.length Nat.eqb].
  pose proof (ExecutorFacts.failed_step_exists World execCmd now (s :: ss) w) as FS.
  cbv zeta in FS.
  destruct (Executor.executeCommands execCmd now (s :: ss) w) as [result w'] eqn:Hrun.
  cbn [fst snd] in FS.
  destruct (Z.eqb_spec (ExecutionResult.failedAtStep result) (-1)) as [Hr|Hr].
  { eexists. split; [reflexivity|]. cbn [fst snd CapabilityResult.state Capability.success].
    split; [exact Hp|]. split; [exact Hv|]. split; [reflexivity|]. split; [reflexivity|].
    split.
    { intros N. exfalso. apply N. exists p. rewrite Hs. repeat split; auto. discriminate. }
    intros p' [= <-] _ _. rewrite Hs, Hrun. cbn [fst snd].
    split; [reflexivity|]. split; [reflexivity|]. split; [split; auto|].
    split; [reflexivity|]. intros N. contradiction. }
  destruct (FS Hr) as (x & st & Hx & Hst & Hfail & _). rewrite Hx, Hst.
  eexists. split; [reflexivity|]. cbn [fst snd CapabilityResult.state Capability.failure].
  split; [exact Hp|]. split; [exact Hv|]. split; [reflexivity|]. split; [reflexivity|].
  split.
  { intros N. exfalso. apply N. exists p. rewrite Hs. repeat split; auto. discriminate. }
  intros p' [= <-] _ _. rewrite Hs, Hrun. cbn [fst snd].
  split; [reflexivity|]. split; [reflexivity|].
  split; [split; [discriminate|intros N; contradiction]|].
  split; [intros N; contradiction|]. intros _.
  exists x, st. rewrite Hx, Hst. repeat split. exact Hfail.
Qed.

End Execution.

End CapabilityFacts.

(** ** The engine: the loop with the registry's handlers *)

Module SystemFacts.

Import Validator Executor ExecutorSpec Workflow WorkflowSpec Registry Journal
  SystemSpec.

Lemma validateEach_accepted steps set :
  validateEach steps set = Valid ->
  Forall (fun s => validateCommand (PlanStep.action s) set = Valid) steps.
Proof.
  induction steps as [|s steps IH]; intros H; [constructor|].
  cbn [validateEach] in H.
  destruct (validateCommand (PlanStep.action s) set) eqn:E; [|discriminate].
  constructor; auto.
Qed.

(** A run that reports no failure ran every command, with success. *)
Lemma well_formed_allSucceeded steps r :
  well_formed steps r -> ExecutionResult.failedAtStep r = (-1)%Z ->
  allSucceeded steps r.
Proof.
  intros (Hiff & _ & Hlen & Hmap) Hf. split; [exact Hf|]. split.
  - rewrite Hmap, (Hlen Hf), firstn_all. reflexivity.
  - apply Hiff. exact Hf.
Qed.

Section WithWorld.

Variable World : Type.
Variable containers : list jsstring.
Variable o : Oracles World.

(** What holds of the world and is kept by every oracle, and by the shell
    on the commands the validator accepts. *)
Variable Q : World -> Prop.

Hypothesis reasoner_keeps : forall h w, Q w -> Q (snd (reasoner o h w)).
Hypothesis escalation_keeps : forall a b w, Q w -> Q (snd (escalation o a b w)).
Hypothesis approval_keeps : forall w, Q w -> Q (snd (approval o w)).
Hypothesis knowledge_keeps : forall a b w, Q w -> Q (knowledge o a b w).
Hypothesis clock_keeps : forall w, Q w -> Q (snd (clock o w)).
Hypothesis analyst_keeps : forall l w, Q w -> Q (snd (analyst o l w)).
Hypothesis assessor_keeps : forall s w, Q w -> Q (snd (assessor o s w)).
Hypothesis planner_keeps : forall s w, Q w -> Q (snd (planner o s w)).
Hypothesis shell_keeps :
  forall command w, accepted containers command -> Q w ->
                    Q (snd (shell o command w)).

Lemma executeFrom_keeps steps i results w :
  Forall (fun s => accepted containers (PlanStep.action s)) steps -> Q w ->
  Q (snd (executeFrom (shell o) (clock o) steps i results w)).
Proof.
  revert i results w. induction steps as [|s steps IH]; intros i results w Hall HQ.
  - exact HQ.
  - cbn [executeFrom]. inversion Hall as [|? ? Hs Hrest]; subst.
    pose proof (shell_keeps _ w Hs HQ) as H1.
    destruct (shell o (PlanStep.action s) w) as [c w1]. cbn [snd] in H1.
    pose proof (clock_keeps _ H1) as H2.
    destruct (clock o w1) as [stamp w2]. cbn [snd] in H2.
    destruct (Executor.success c); cbn [negb]; [|exact H2].
    apply IH; assumption.
Qed.

Local Abbreviation kept := (SystemSpec.kept containers Q).

Lemma sound_frame s s' :
  plan s' = plan s -> planValidated s' = planValidated s ->
  executionResult s' = executionResult s ->
  sound containers s -> sound containers s'.
Proof.
  intros Hp Hv He [S1 S2]. unfold sound. rewrite Hp, Hv, He. split; assumption.
Qed.

Lemma kept_frame s s' w' :
  plan s' = plan s -> planValidated s' = planValidated s ->
  executionResult s' = executionResult s ->
  resolution s' <> resolved ->
  sound containers s -> Q w' -> kept s' w'.
Proof.
  intros Hp Hv He Hr Hs HQ. split; [eapply sound_frame; eauto|].
  split; [intros E; contradiction|exact HQ].
Qed.

Ltac field := cbn; first [reflexivity | assumption | congruence].

Lemma kept_world s w w' : kept s w -> Q w' -> kept s w'.
Proof. intros (S & R & _) HQ. split; [exact S|split; [exact R|exact HQ]]. Qed.

(** [executePlan] settles, and what it leaves. *)
Lemma executePlan_settles state w :
  sound containers state -> Q w ->
  exists r w',
    ExecutePlan.executePlan (shell o) (clock o) state w = (Normal r, w')
    /\ plan (CapabilityResult.state r) = plan state
    /\ planValidated (CapabilityResult.state r) = planValidated state
    /\ resolution (CapabilityResult.state r) = resolution state
    /\ sound containers (CapabilityResult.state r)
    /\ Q w'.
Proof.
  intros Hs HQ. unfold ExecutePlan.executePlan.
  destruct (plan state) as [p|] eqn:Hp.
  2:{ eexists _, _. split; [reflexivity|]. cbn. auto. }
  destruct (planValidated state) eqn:Hv; cbn [negb].
  2:{ eexists _, _. split; [reflexivity|]. cbn. auto. }
  destruct (Nat.eqb (List.length (RemediationPlan.steps p)) 0).
  { eexists _, _. split; [reflexivity|]. cbn. auto. }
  destruct Hs as [S1 S2]. destruct (S1 Hv) as (p' & Hp' & Hvet & Hvet2).
  rewrite Hp in Hp'. injection Hp' as <-.
  pose proof (executeFrom_keeps (RemediationPlan.steps p) 0 [] w Hvet HQ) as HQ'.
  pose proof (ExecutorFacts.executeCommands_shape World (shell o) (clock o)
                (RemediationPlan.steps p) w) as WF.
  pose proof (ExecutorFacts.failed_step_exists World (shell o) (clock o)
                (RemediationPlan.steps p) w) as FS. cbv zeta in FS.
  unfold executeCommands in *.
  destruct (executeFrom (shell o) (clock o) (RemediationPlan.steps p) 0 [] w)
    as [result w'].
  cbn [fst snd] in *.
  assert (Hsound : forall s',
            plan s' = Some p -> planValidated s' = true ->
            executionResult s' = Some result -> sound containers s').
  { intros s' E1 E2 E3. split.
    - intros _. exists p. split; [exact E1|split; assumption].
    - intros er Her. rewrite E3 in Her. injection Her as <-.
      split; [exact E2|]. exists p. split; [exact E1|exact WF]. }
  destruct (Z.eqb_spec (ExecutionResult.failedAtStep result) (-1)) as [Hr|Hr].
  { eexists _, _. split; [reflexivity|]. cbn.
    repeat split; auto; apply Hsound; cbn; auto. }
  destruct (FS Hr) as (x & st & Hx & Hst & _). rewrite Hx, Hst.
  eexists _, _. split; [reflexivity|]. cbn.
  repeat split; auto; apply Hsound; cbn; auto.
Qed.

(** [verifyPlan] settles, and what it leaves. *)
Lemma verifyPlan_settles state w :
  sound containers state -> Q w ->
  exists r w',
    VerifyPlan.verifyPlan (shell o) (clock o) state w = (Normal r, w')
    /\ plan (CapabilityResult.state r) = plan state
    /\ planValidated (CapabilityResult.state r) = planValidated state
    /\ executionResult (CapabilityResult.state r) = executionResult state
    /\ (resolution (CapabilityResult.state r) = resolution state
        \/ resolution (CapabilityResult.state r) = resolved
           /\ verified containers (CapabilityResult.state r))
    /\ Q w'.
Proof.
  intros Hs HQ. unfold VerifyPlan.verifyPlan.
  destruct (plan state) as [p|] eqn:Hp.
  2:{ eexists _, _. split; [reflexivity|]. cbn. auto 10. }
  destruct (executionResult state) as [er|] eqn:He.
  2:{ eexists _, _. split; [reflexivity|]. cbn. auto 10. }
  destruct (Z.eqb_spec (ExecutionResult.failedAtStep er) (-1)) as [Hf|Hf];
    cbn [negb].
  2:{ eexists _, _. split; [reflexivity|]. cbn. auto 10. }
  destruct Hs as [S1 S2]. destruct (S2 er He) as (Hv & p' & Hp' & WFe).
  rewrite Hp in Hp'. injection Hp' as <-.
  destruct (S1 Hv) as (p' & Hp' & Hvet & Hvet2).
  rewrite Hp in Hp'. injection Hp' as <-.
  pose proof (well_formed_allSucceeded _ _ WFe Hf) as Hall.
  destruct (RemediationPlan.verification p) as [|v vs] eqn:Hver.
  { cbn [List.length Nat.eqb]. eexists _, _. split; [reflexivity|].
    cbn [CapabilityResult.state Capability.success].
    split; [field|]. split; [field|]. split; [field|].
    split; [|exact HQ]. right. split; [reflexivity|].
    exists p, er, (ExecutionResult.mk [] (-1)). cbn. rewrite Hver.
    split; [exact Hp|]. split; [exact Hv|].
    split; [split; [exact Hvet|rewrite Hver; exact Hvet2]|].
    split; [exact He|]. split; [exact Hall|]. split; [reflexivity|].
    repeat split; constructor. }
  cbn [List.length Nat.eqb].
  pose proof (executeFrom_keeps (v :: vs) 0 [] w Hvet2 HQ) as HQ'.
  pose proof (ExecutorFacts.executeCommands_shape World (shell o) (clock o)
                (v :: vs) w) as WF.
  pose proof (ExecutorFacts.failed_step_exists World (shell o) (clock o)
                (v :: vs) w) as FS. cbv zeta in FS.
  unfold executeCommands in *.
  destruct (executeFrom (shell o) (clock o) (v :: vs) 0 [] w) as [result w'].
  cbn [fst snd] in *.
  destruct (Z.eqb_spec (ExecutionResult.failedAtStep result) (-1)) as [Hr|Hr].
  { eexists _, _. split; [reflexivity|].
    cbn [CapabilityResult.state Capability.success].
    split; [field|]. split; [field|]. split; [field|].
    split; [|exact HQ']. right. split; [reflexivity|].
    exists p, er, result. cbn. rewrite Hver.
    split; [exact Hp|]. split; [exact Hv|].
    split; [split; [exact Hvet|rewrite Hver; exact Hvet2]|].
    split; [exact He|]. split; [exact Hall|]. split; [reflexivity|].
    apply (well_formed_allSucceeded _ _ WF Hr). }
  destruct (FS Hr) as (x & st & Hx & Hst & _). rewrite Hx, Hst.
  eexists _, _. split; [reflexivity|].
  cbn [CapabilityResult.state Capability.failure].
  split; [field|]. split; [field|]. split; [field|].
  split; [left; field|exact HQ'].
Qed.

(** Every registered handler the loop calls keeps the invariant. *)
Lemma handler_keeps c state w :
  inline c = false -> resolution state = pending -> kept state w ->
  kept (CapabilityResult.state (fst (handlerOf containers o c state w)))
       (snd (handlerOf containers o c state w)).
Proof.
  intros Hin Hpen (Hs & _ & HQ).
  destruct c; try discriminate; cbn [handlerOf].
  - (* analyzeIncident *)
    unfold AnalyzeIncident.handler, AnalyzeIncident.analyzeIncident.
    destruct (logs state) as [lines|];
      [|cbn; apply (kept_frame state); auto; cbn; congruence].
    destruct (Nat.eqb (List.length lines) 0);
      [cbn; apply (kept_frame state); auto; cbn; congruence|].
    destruct (incidentGraph state);
      [cbn; apply (kept_frame state); auto; cbn; congruence|].
    pose proof (analyst_keeps lines w HQ) as H1.
    destruct (analyst o lines w) as [[result|m] w']; cbn [snd] in H1.
    + destruct (match IncidentGraph.root result with
                | Some _ => false | None => true end
                || Nat.eqb (List.length (IncidentGraph.nodes result)) 0);
        cbn; apply (kept_frame state); auto; cbn; congruence.
    + cbn; apply (kept_frame state); auto; cbn; congruence.
  - (* assessFeasibility *)
    unfold AssessFeasibility.assessFeasibility.
    destruct (incidentGraph state) as [graph|];
      [|cbn; apply (kept_frame state); auto; cbn; congruence].
    destruct (Nat.eqb (List.length (IncidentGraph.nodes graph)) 0);
      [cbn; apply (kept_frame state); auto; cbn; congruence|].
    destruct (IncidentGraph.root graph) as [root|];
      [|cbn; apply (kept_frame state); auto; cbn; congruence].
    destruct (index (IncidentGraph.nodes graph) root);
      [|cbn; apply (kept_frame state); auto; cbn; congruence].
    pose proof (assessor_keeps state w HQ) as H1.
    destruct (assessor o state w) as [[result|m] w']; cbn [snd] in H1;
      cbn; apply (kept_frame state); auto; cbn; congruence.
  - (* planRemediation *)
    unfold PlanRemediation.planRemediation.
    destruct (incidentGraph state) as [graph|];
      [|cbn; apply (kept_frame state); auto; cbn; congruence].
    destruct (Nat.eqb (List.length (IncidentGraph.nodes graph)) 0);
      [cbn; apply (kept_frame state); auto; cbn; congruence|].
    destruct (feasibility state) as [feas|];
      [|cbn; apply (kept_frame state); auto; cbn; congruence].
    destruct (negb (FeasibilityAssessment.feasible feas));
      [cbn; apply (kept_frame state); auto; cbn; congruence|].
    pose proof (planner_keeps state w HQ) as H1.
    destruct (plan state), (failureContext state);
      try (cbn; apply (kept_frame state); auto; cbn; congruence);
      (destruct (IncidentGraph.root graph) as [root|];
       [|cbn; apply (kept_frame state); auto; cbn; congruence];
       destruct (index (IncidentGraph.nodes graph) root);
       [|cbn; apply (kept_frame state); auto; cbn; congruence];
       destruct (planner o state w) as [[[result conv]|m] w']; cbn [snd] in H1;
       [cbn; split; [|split; [cbn; congruence|exact H1]];
        split; cbn; [discriminate|intros er; discriminate]
       |cbn; apply (kept_frame state); auto; cbn; congruence]).
  - (* validatePlan *)
    unfold ValidatePlan.validatePlan.
    destruct (plan state) as [p|] eqn:Hp;
      [|cbn; apply (kept_frame state); auto; cbn; congruence].
    destruct (planValidated state) eqn:Hv;
      [cbn; apply (kept_frame state); auto; cbn; congruence|].
    unfold assertCommandsValid.
    destruct (validateEach (RemediationPlan.steps p) (newSet containers []))
      eqn:E1.
    + destruct (validateEach (RemediationPlan.verification p)
                  (newSet containers [])) eqn:E2.
      * cbn. split; [|split; [cbn; congruence|exact HQ]].
        split; cbn.
        -- intros _. exists p. split; [exact Hp|].
           split; apply validateEach_accepted; assumption.
        -- intros er Her. destruct Hs as [_ S2].
           destruct (S2 er Her) as [Hv' _]. congruence.
      * cbn; apply (kept_frame state); auto; cbn; congruence.
    + cbn; apply (kept_frame state); auto; cbn; congruence.
  - (* executePlan *)
    destruct (executePlan_settles state w Hs HQ)
      as (r & w' & E & Hp & Hv & Hr & Hs' & HQ').
    unfold awaited. rewrite E. cbn [fst snd].
    split; [exact Hs'|]. split; [congruence|exact HQ'].
  - (* verifyPlan *)
    destruct (verifyPlan_settles state w Hs HQ)
      as (r & w' & E & Hp & Hv & He & Hr & HQ').
    unfold awaited. rewrite E. cbn [fst snd].
    split; [eapply sound_frame; eauto|].
    split; [|exact HQ'].
    destruct Hr as [Hr|[_ Hr]]; [congruence|auto].
  - (* reportFindings *)
    cbn. apply (kept_frame state); auto. cbn. discriminate.
Qed.

(** The invariant over a run of the engine. *)
Lemma engine_keeps fuel state context w :
  kept state w ->
  let out := loop (engine containers o) fuel state context w in
  exists s, kept s (snd out)
            /\ forall r, snd (fst (fst out)) = Some r -> s = finalState r.
Proof.
  apply (OrchestratorFacts.run_keeps World (engine containers o) kept);
    cbn [engine generateContent resolveEscalation askPlanApproval addFact now
         handler].
  - intros s h w0 K. eapply kept_world; eauto. apply reasoner_keeps, K.
  - intros s a b w0 K. eapply kept_world; eauto. apply escalation_keeps, K.
  - intros s w0 K. eapply kept_world; eauto. apply approval_keeps, K.
  - intros s a b w0 K. eapply kept_world; eauto. apply knowledge_keeps, K.
  - intros s w0 K. eapply kept_world; eauto. apply clock_keeps, K.
  - intros s w0 Hpen (S & _ & HQ). apply kept_frame with (s := s); auto.
    cbn. discriminate.
  - intros s w0 Hpen (S & _ & HQ). apply kept_frame with (s := s); auto.
    + unfold afterContext. destruct (feasibility s) as [f|];
        [destruct (FeasibilityAssessment.feasible f)|]; reflexivity.
    + unfold afterContext. destruct (feasibility s) as [f|];
        [destruct (FeasibilityAssessment.feasible f)|]; reflexivity.
    + unfold afterContext. destruct (feasibility s) as [f|];
        [destruct (FeasibilityAssessment.feasible f)|]; reflexivity.
    + unfold afterContext. destruct (feasibility s) as [f|];
        [destruct (FeasibilityAssessment.feasible f)|]; cbn; congruence.
  - intros s feedback w0 Hpen (S & _ & HQ).
    split; [|split; [cbn; congruence|exact HQ]].
    split; cbn; [discriminate|intros er; discriminate].
  - intros c s w0 Hin Hpen K. apply handler_keeps; assumption.
Qed.

End WithWorld.

Section Outcomes.

Variable World : Type.
Variable containers : list jsstring.
Variable o : Oracles World.

(** [executePlan] always returns, with the resolution it was given and
    without a word on idleness. *)
Lemma executePlan_normal state w :
  exists r,
    fst (ExecutePlan.executePlan (shell o) (clock o) state w) = Normal r
    /\ resolution (CapabilityResult.state r) = resolution state
    /\ CapabilityResult.idle r = None.
Proof.
  unfold ExecutePlan.executePlan.
  destruct (plan state) as [p|]; [|eexists; split; [reflexivity|split; reflexivity]].
  destruct (planValidated state); cbn [negb];
    [|eexists; split; [reflexivity|split; reflexivity]].
  destruct (Nat.eqb (List.length (RemediationPlan.steps p)) 0);
    [eexists; split; [reflexivity|split; reflexivity]|].
  pose proof (ExecutorFacts.failed_step_exists World (shell o) (clock o)
                (RemediationPlan.steps p) w) as FS. cbv zeta in FS.
  destruct (executeCommands (shell o) (clock o) (RemediationPlan.steps p) w)
    as [result w'].
  cbn [fst snd] in FS.
  destruct (Z.eqb_spec (ExecutionResult.failedAtStep result) (-1)) as [Hr|Hr];
    [eexists; split; [reflexivity|split; reflexivity]|].
  destruct (FS Hr) as (x & st & Hx & Hst & _). rewrite Hx, Hst.
  eexists; split; [reflexivity|split; reflexivity].
Qed.

(** [verifyPlan] always returns; it leaves the resolution alone or, when
    it succeeds, sets it to [resolved]. *)
Lemma verifyPlan_normal state w :
  exists r,
    fst (VerifyPlan.verifyPlan (shell o) (clock o) state w) = Normal r
    /\ (resolution (CapabilityResult.state r) = resolution state
        \/ resolution (CapabilityResult.state r) = resolved
           /\ CapabilityResult.success r = true)
    /\ CapabilityResult.idle r = None.
Proof.
  unfold VerifyPlan.verifyPlan.
  destruct (plan state) as [p|];
    [|eexists; split; [reflexivity|split; [left|]; reflexivity]].
  destruct (executionResult state) as [er|];
    [|eexists; split; [reflexivity|split; [left|]; reflexivity]].
  destruct (negb (ExecutionResult.failedAtStep er =? -1)%Z);
    [eexists; split; [reflexivity|split; [left|]; reflexivity]|].
  destruct (Nat.eqb (List.length (RemediationPlan.verification p)) 0);
    [eexists; split; [reflexivity|split; [right; split|]; reflexivity]|].
  pose proof (ExecutorFacts.failed_step_exists World (shell o) (clock o)
                (RemediationPlan.verification p) w) as FS. cbv zeta in FS.
  destruct (executeCommands (shell o) (clock o) (RemediationPlan.verification p) w)
    as [result w'].
  cbn [fst snd] in FS.
  destruct (Z.eqb_spec (ExecutionResult.failedAtStep result) (-1)) as [Hr|Hr];
    [eexists; split; [reflexivity|split; [right; split|]; reflexivity]|].
  destruct (FS Hr) as (x & st & Hx & Hst & _). rewrite Hx, Hst.
  eexists; split; [reflexivity|split; [left|]; reflexivity].
Qed.

(** What a registered handler can make of a pending state: only
    verifyPlan resolves, only reportFindings observes, nothing dismisses,
    and only an analysis that finds no incident reports idle. *)
Lemma handler_outcome c state w :
  inline c = false -> resolution state = pending ->
  let result := fst (handlerOf containers o c state w) in
  match resolution (CapabilityResult.state result) with
  | pending => True
  | resolved => c = verifyPlan /\ CapabilityResult.success result = true
  | observed => c = reportFindings
  | dismissed => False
  end
  /\ (CapabilityResult.idle result = Some true ->
      c = analyzeIncident /\ CapabilityResult.success result = true
      /\ CapabilityResult.state result = state
      /\ incidentGraph state = None).
Proof.
  intros Hin Hpen. destruct c; try discriminate; cbn [handlerOf].
  - (* analyzeIncident *)
    unfold AnalyzeIncident.handler, AnalyzeIncident.analyzeIncident.
    destruct (logs state) as [lines|];
      [|cbn; rewrite Hpen; split; [exact I|discriminate]].
    destruct (Nat.eqb (List.length lines) 0);
      [cbn; rewrite Hpen; split; [exact I|discriminate]|].
    destruct (incidentGraph state) eqn:Hg;
      [cbn; rewrite Hpen; split; [exact I|discriminate]|].
    destruct (analyst o lines w) as [[result|m] w'].
    + destruct (IncidentGraph.root result) as [root|]; cbn [orb].
      * destruct (Nat.eqb (List.length (IncidentGraph.nodes result)) 0) eqn:Hn.
        -- cbn. rewrite Hpen, Hg. cbn. split; [exact I|]. intros _. auto.
        -- cbn. rewrite Hpen, Hn. split; [exact I|discriminate].
      * cbn. rewrite Hpen, Hg. cbn. split; [exact I|]. intros _. auto.
    + cbn. rewrite Hpen. split; [exact I|discriminate].
  - (* assessFeasibility *)
    unfold AssessFeasibility.assessFeasibility.
    destruct (incidentGraph state) as [graph|];
      [|cbn; rewrite Hpen; split; [exact I|discriminate]].
    destruct (Nat.eqb (List.length (IncidentGraph.nodes graph)) 0);
      [cbn; rewrite Hpen; split; [exact I|discriminate]|].
    destruct (IncidentGraph.root graph) as [root|];
      [|cbn; rewrite Hpen; split; [exact I|discriminate]].
    destruct (index (IncidentGraph.nodes graph) root);
      [|cbn; rewrite Hpen; split; [exact I|discriminate]].
    destruct (assessor o state w) as [[result|m] w'];
      cbn; rewrite Hpen; split; try exact I; discriminate.
  - (* planRemediation *)
    unfold PlanRemediation.planRemediation.
    destruct (incidentGraph state) as [graph|];
      [|cbn; rewrite Hpen; split; [exact I|discriminate]].
    destruct (Nat.eqb (List.length (IncidentGraph.nodes graph)) 0);
      [cbn; rewrite Hpen; split; [exact I|discriminate]|].
    destruct (feasibility state) as [feas|];
      [|cbn; rewrite Hpen; split; [exact I|discriminate]].
    destruct (negb (FeasibilityAssessment.feasible feas));
      [cbn; rewrite Hpen; split; [exact I|discriminate]|].
    destruct (plan state), (failureContext state);
      try (cbn; rewrite Hpen; split; [exact I|discriminate]);
      (destruct (IncidentGraph.root graph) as [root|];
       [|cbn; rewrite Hpen; split; [exact I|discriminate]];
       destruct (index (IncidentGraph.nodes graph) root);
       [|cbn; rewrite Hpen; split; [exact I|discriminate]];
       destruct (planner o state w) as [[[result conv]|m] w'];
       cbn; rewrite Hpen; split; try exact I; discriminate).
  - (* validatePlan *)
    unfold ValidatePlan.validatePlan.
    destruct (plan state) as [p|];
      [|cbn; rewrite Hpen; split; [exact I|discriminate]].
    destruct (planValidated state);
      [cbn; rewrite Hpen; split; [exact I|discriminate]|].
    destruct (assertCommandsValid (RemediationPlan.steps p) containers);
      [destruct (assertCommandsValid (RemediationPlan.verification p) containers)|];
      cbn; rewrite Hpen; split; try exact I; discriminate.
  - (* executePlan *)
    destruct (executePlan_normal state w) as (r & E & Hr & Hi).
    unfold awaited. rewrite E. cbn [fst]. rewrite Hr, Hpen, Hi.
    split; [exact I|discriminate].
  - (* verifyPlan *)
    destruct (verifyPlan_normal state w) as (r & E & Hr & Hi).
    unfold awaited. rewrite E. cbn [fst]. rewrite Hi.
    split; [|discriminate].
    destruct Hr as [Hr|[Hr Hs]]; rewrite Hr; [rewrite Hpen; exact I|auto].
  - (* reportFindings *)
    cbn. split; [reflexivity|discriminate].
Qed.

(** X9.  How a run of the engine ends. [resolved]: the last pass
    dispatched verifyPlan and it succeeded. [observed]: the last pass
    dispatched reportFindings. [dismissed]: the last pass was the human's
    dismissal, at the circuit breaker or in an escalation. Idle: the last
    pass dispatched analyzeIncident, which succeeded and found no
    incident, and the state handed back is the one it was given. No
    finished run returns a pending state without being idle. *)
Theorem engine_outcome (maxActionsPerIncident fuel : nat)
  (logs : list jsstring) (w : World) (r : OrchestratorResult) :
  snd (fst (fst (runOrchestrator (engine containers o) maxActionsPerIncident
                   fuel logs w))) = Some r ->
  exists before last,
    fst (fst (fst (runOrchestrator (engine containers o) maxActionsPerIncident
                     fuel logs w))) = before ++ [last]
    /\ if isIdle r
       then exists had result,
              last = Dispatched analyzeIncident had result
              /\ CapabilityResult.success result = true
              /\ finalState r = CapabilityResult.state result
              /\ incidentGraph (finalState r) = None
              /\ resolution (finalState r) = pending
       else match resolution (finalState r) with
            | pending => False
            | resolved =>
                exists had result,
                  last = Dispatched verifyPlan had result
                  /\ CapabilityResult.success result = true
                  /\ finalState r = CapabilityResult.state result
            | observed =>
                exists had result,
                  last = Dispatched reportFindings had result
                  /\ finalState r = CapabilityResult.state result
            | dismissed => last = BreakerDismissed \/ last = EscalateDismissed
            end.
Proof.
  unfold runOrchestrator. intros Hr.
  destruct (OrchestratorFacts.loop_last World (engine containers o) fuel
              (createInitialState logs)
              (createInitialContext maxActionsPerIncident) w r eq_refl Hr)
    as (before & s & c & w0 & Hpen & Ht & Hn).
  exists before, (traceOf (iteration (engine containers o) s c w0)).
  split; [exact Ht|].
  pose proof (OrchestratorFacts.pass_outcome World (engine containers o) s c w0)
    as O. cbv zeta in O.
  pose proof (OrchestratorFacts.pass_dispatched World (engine containers o) s c w0)
    as D.
  destruct (traceOf (iteration (engine containers o) s c w0)) as
    [| | | | | | | |cap had result];
    destruct (nextOf (iteration (engine containers o) s c w0)) as [s'|s'|r'];
    try contradiction.
  - subst. cbn. auto.
  - destruct Hn as [-> Hn]. subst s'. cbn in *. contradiction.
  - destruct Hn as [-> Hn]. subst s'. cbn in *. contradiction.
  - destruct Hn as [-> Hn]. subst s'. cbn in *. contradiction.
  - destruct Hn as [-> Hn]. subst s'. cbn. auto.
  - destruct Hn as [-> Hn]. subst s'. exfalso. apply Hn.
    unfold afterContext. destruct (feasibility s) as [f|];
      [destruct (FeasibilityAssessment.feasible f)|]; cbn; exact Hpen.
  - destruct Hn as [-> Hn]. subst s'. cbn in *. contradiction.
  - destruct Hn as [-> Hn]. subst s'. cbn in *. contradiction.
  - destruct Hn as [-> Hn]. destruct O as (Hin & -> & Hidle).
    destruct (D cap had result eq_refl) as (_ & _ & w1 & Hres).
    cbn [engine handler] in Hres.
    pose proof (handler_outcome cap s w1 Hin Hpen) as [H1 _]. cbv zeta in H1.
    rewrite <- Hres in H1. cbn [isIdle finalState] in *.
    destruct (resolution (CapabilityResult.state result));
      try contradiction.
    + destruct H1 as [-> Hs]. eauto.
    + subst cap. eauto.
  - destruct O as (Hin & -> & Hidle). subst r.
    destruct (D cap had result eq_refl) as (_ & _ & w1 & Hres).
    cbn [engine handler] in Hres.
    pose proof (handler_outcome cap s w1 Hin Hpen) as [_ H2]. cbv zeta in H2.
    rewrite <- Hres in H2. destruct (H2 Hidle) as (-> & Hs & Hst & Hg).
    cbn [isIdle finalState]. exists had, result.
    rewrite Hst. auto.
Qed.

End Outcomes.

(** X10.  The engine never hands the shell a command the validator has not
    accepted: with every command that reaches the shell entered in a
    journal, after any run - finished or not, whatever the reasoner, the
    planner and the human do - every entry of the journal is a command
    that [validateCommand] accepts for the known containers. *)
Theorem commands_run_are_validated {World : Type} (containers : list jsstring)
  (o : Oracles World) (maxActionsPerIncident fuel : nat)
  (logs : list jsstring) (w : World) :
  let out :=
    runOrchestrator (engine containers (shellJournal o)) maxActionsPerIncident
      fuel logs (w, []) in
  Forall (accepted containers) (snd (snd out)).
Proof.
  cbv zeta. unfold runOrchestrator.
  destruct (engine_keeps (Journaled World jsstring) containers (shellJournal o)
              (fun j => Forall (accepted containers) (snd j)))
    with (fuel := fuel) (state := createInitialState logs)
         (context := createInitialContext maxActionsPerIncident)
         (w := (w, @nil jsstring))
    as (s & (_ & _ & HQ) & _).
  - intros h [w0 l] H. cbn [snd] in H. unfold shellJournal, silently.
    cbn [reasoner fst snd]. destruct (reasoner o h w0). exact H.
  - intros a b [w0 l] H. cbn [snd] in H. unfold shellJournal, silently.
    cbn [escalation fst snd]. destruct (escalation o a b w0). exact H.
  - intros [w0 l] H. cbn [snd] in H. unfold shellJournal, silently.
    cbn [approval fst snd]. destruct (approval o w0). exact H.
  - intros a b [w0 l] H. exact H.
  - intros [w0 l] H. cbn [snd] in H. unfold shellJournal, silently.
    cbn [clock fst snd]. destruct (clock o w0). exact H.
  - intros a [w0 l] H. cbn [snd] in H. unfold shellJournal, silently.
    cbn [analyst fst snd]. destruct (analyst o a w0). exact H.
  - intros a [w0 l] H. cbn [snd] in H. unfold shellJournal, silently.
    cbn [assessor fst snd]. destruct (assessor o a w0). exact H.
  - intros a [w0 l] H. cbn [snd] in H. unfold shellJournal, silently.
    cbn [planner fst snd]. destruct (planner o a w0). exact H.
  - intros command [w0 l] Hc H. cbn [snd] in H. unfold shellJournal, recording.
    cbn [shell fst snd]. destruct (shell o command w0). cbn [snd].
    apply Forall_app. split; [exact H|]. constructor; [exact Hc|constructor].
  - split; [|split; [discriminate|constructor]].
    split; cbn; [discriminate|intros er; discriminate].
  - exact HQ.
Qed.

(** X11.  A run of the engine that ends [resolved] has a validated plan
    all of whose commands the validator accepts, an execution result in
    which every remediation step of that plan ran, in order, and
    succeeded, and a verification result in which every verification
    command of that plan ran, in order, and succeeded. *)
Theorem resolved_means_verified {World : Type} (containers : list jsstring)
  (o : Oracles World) (maxActionsPerIncident fuel : nat)
  (logs : list jsstring) (w : World) (r : OrchestratorResult) :
  snd (fst (fst (runOrchestrator (engine containers o) maxActionsPerIncident
                   fuel logs w))) = Some r ->
  resolution (finalState r) = resolved ->
  verified containers (finalState r).
Proof.
  unfold runOrchestrator. intros Hr Hres.
  destruct (engine_keeps World containers o (fun _ => True))
    with (fuel := fuel) (state := createInitialState logs)
         (context := createInitialContext maxActionsPerIncident) (w := w)
    as (s & (_ & Hv & _) & Hs); auto.
  - split; [|split; [discriminate|exact I]].
    split; cbn; [discriminate|intros er; discriminate].
  - rewrite (Hs r Hr) in Hv. apply Hv. exact Hres.
Qed.

(** Scenario 1 ends resolved, and so verified. *)
Lemma resolved_means_verified_witness :
  snd (fst (fst (runOrchestrator
                   (engine Laboratory.labContainers Laboratory.labOracles) 3 20
                   [js "[cache] Container stopped unexpectedly"]
                   (Examples.happyPath, [true; true]))))
  = Some Laboratory.labResult
  /\ resolution (finalState Laboratory.labResult) = resolved
  /\ verified Laboratory.labContainers (finalState Laboratory.labResult).
Proof.
  assert (E : snd (fst (fst (runOrchestrator
                   (engine Laboratory.labContainers Laboratory.labOracles) 3 20
                   [js "[cache] Container stopped unexpectedly"]
                   (Examples.happyPath, [true; true]))))
              = Some Laboratory.labResult)
    by (vm_compute; reflexivity).
  assert (R : resolution (finalState Laboratory.labResult) = resolved)
    by (vm_compute; reflexivity).
  split; [exact E|]. split; [exact R|].
  exact (resolved_means_verified Laboratory.labContainers
           Laboratory.labOracles 3 20
           [js "[cache] Container stopped unexpectedly"]
           (Examples.happyPath, [true; true]) Laboratory.labResult E R).
Defined.

(** Scenario 1 ends with a successful verifyPlan. *)
Lemma engine_outcome_witness :
  snd (fst (fst (runOrchestrator
                   (engine Laboratory.labContainers Laboratory.labOracles) 3 20
                   [js "[cache] Container stopped unexpectedly"]
                   (Examples.happyPath, [true; true]))))
  = Some Laboratory.labResult
  /\ exists before last,
       fst (fst (fst (runOrchestrator
                        (engine Laboratory.labContainers Laboratory.labOracles)
                        3 20 [js "[cache] Container stopped unexpectedly"]
                        (Examples.happyPath, [true; true]))))
       = before ++ [last].
Proof.
  assert (E : snd (fst (fst (runOrchestrator
                   (engine Laboratory.labContainers Laboratory.labOracles) 3 20
                   [js "[cache] Container stopped unexpectedly"]
                   (Examples.happyPath, [true; true]))))
              = Some Laboratory.labResult)
    by (vm_compute; reflexivity).
  split; [exact E|].
  destruct (engine_outcome _ Laboratory.labContainers Laboratory.labOracles 3 20
              [js "[cache] Container stopped unexpectedly"]
              (Examples.happyPath, [true; true]) Laboratory.labResult E)
    as (before & last & H & _).
  exists before, last. exact H.
Defined.

End SystemFacts.


(** ** The log filter and the batcher *)

Module LogBufferFacts.

Import LogBuffer LogBufferSpec JsStringFacts.

Section Filter.

Variable toLowerCase : jsstring -> jsstring.

Lemma isLifecycleEvent_iff msg :
  isLifecycleEvent toLowerCase msg = true
  <-> exists k, In k LIFECYCLE_KEYWORDS /\ contains (toLowerCase msg) k.
Proof.
  unfold isLifecycleEvent. rewrite existsb_exists.
  split; intros (k & Hk & H); exists k; split; auto; apply includes_contains; auto.
Qed.

Lemma hasErrorIndicator_iff event :
  hasErrorIndicator toLowerCase event = true
  <-> (exists k, In k ERROR_KEYWORDS
                 /\ contains (toLowerCase (message event)) k)
      \/ (exists p, In p ERROR_PATTERNS /\ test p (message event) = true).
Proof.
  unfold hasErrorIndicator.
  destruct (existsb _ ERROR_KEYWORDS) eqn:K.
  - split; auto. intros _. left. apply existsb_exists in K.
    destruct K as (k & Hk & H). exists k. split; auto.
    apply includes_contains; auto.
  - destruct (existsb _ ERROR_PATTERNS) eqn:P.
    + split; auto. intros _. right. apply existsb_exists in P. exact P.
    + split; [discriminate|]. intros [(k & Hk & H)|(p & Hp & H)].
      * assert (E : existsb (fun keyword =>
                       includes (toLowerCase (message event)) keyword)
                      ERROR_KEYWORDS = true).
        { apply existsb_exists. exists k. split; auto.
          apply includes_contains; auto. }
        congruence.
      * assert (E : existsb (fun pattern => test pattern (message event))
                      ERROR_PATTERNS = true).
        { apply existsb_exists. eauto. }
        congruence.
Qed.

Lemma matchesIn_test (p : RegExp) (t : jsstring) :
  matchesIn p t <-> test p t = true.
Proof. unfold matchesIn. symmetry. apply RegExpFacts.test_spec. Qed.

Lemma contains_token (k t : jsstring) :
  k <> [] -> (contains t k <-> matchesIn (mkRegExp (RLit k) false) t).
Proof.
  intros Hk. rewrite matchesIn_test, ValidatorFacts.test_literal by exact Hk.
  symmetry. apply includes_contains.
Qed.

(** The last error pattern looks for one of four tokens in upper case. *)
Lemma tokens_pattern (t : jsstring) :
  test (nth 7 ERROR_PATTERNS Validator.neverMatches) t = true
  <-> exists token, In token UPPER_CASE_TOKENS /\ contains t token.
Proof.
  rewrite <- matchesIn_test. unfold matchesIn.
  change (source (nth 7 ERROR_PATTERNS Validator.neverMatches))
    with (RAlt (RStr "ERROR") (RAlt (RStr "FATAL")
            (RAlt (RStr "CRITICAL") (RStr "SEVERE")))).
  change (ignoreCase (nth 7 ERROR_PATTERNS Validator.neverMatches)) with false.
  cbn [Matches]. split.
  - intros (i & j & Hi & [H|[H|[H|H]]]).
    + exists (js "ERROR"). split; [cbn; auto|].
      apply contains_token; [discriminate|]. exists i, j. auto.
    + exists (js "FATAL"). split; [cbn; auto|].
      apply contains_token; [discriminate|]. exists i, j. auto.
    + exists (js "CRITICAL"). split; [cbn; auto|].
      apply contains_token; [discriminate|]. exists i, j. auto.
    + exists (js "SEVERE"). split; [cbn; auto|].
      apply contains_token; [discriminate|]. exists i, j. auto.
  - intros (token & Hin & Hc).
    apply contains_token in Hc.
    2:{ cbn in Hin. intuition (subst; discriminate). }
    destruct Hc as (i & j & Hi & H). exists i, j. split; [exact Hi|].
    cbn [source ignoreCase] in H. cbn in Hin.
    destruct Hin as [<-|[<-|[<-|[<-|[]]]]]; auto.
Qed.

Lemma error_patterns_families (t : jsstring) :
  (exists p, In p ERROR_PATTERNS /\ test p t = true)
  <-> (exists p, In p (STATUS_PATTERNS ++ LEVEL_PATTERNS) /\ matchesIn p t)
      \/ (exists token, In token UPPER_CASE_TOKENS /\ contains t token).
Proof.
  assert (E : ERROR_PATTERNS
              = (STATUS_PATTERNS ++ LEVEL_PATTERNS)
                  ++ [nth 7 ERROR_PATTERNS Validator.neverMatches]) by reflexivity.
  split.
  - intros (p & Hp & H). rewrite E in Hp. apply in_app_or in Hp.
    destruct Hp as [Hp|[<-|[]]].
    + left. exists p. split; [exact Hp|]. apply matchesIn_test. exact H.
    + right. apply tokens_pattern. exact H.
  - intros [(p & Hp & H)|H].
    + exists p. split; [rewrite E; apply in_or_app; left; exact Hp|].
      apply matchesIn_test. exact H.
    + exists (nth 7 ERROR_PATTERNS Validator.neverMatches).
      split; [rewrite E; apply in_or_app; right; left; reflexivity|].
      apply tokens_pattern. exact H.
Qed.

(** C8 (amended).  An event is included exactly when its lower-cased
    message contains no lifecycle keyword and, besides, its stream is
    stderr, or its lower-cased message contains an error keyword, or its
    message matches one of the regexes for an HTTP status 4xx or 5xx or
    for a structured log level error, fatal, critical or panic, or its
    message contains one of the tokens ERROR, FATAL, CRITICAL, SEVERE in
    upper case; so an event on stderr whose message contains a lifecycle
    keyword is dropped. *)
Theorem shouldInclude_iff (event : LogEvent) :
  (shouldInclude toLowerCase event = true
   <-> (forall k, In k LIFECYCLE_KEYWORDS ->
          ~ contains (toLowerCase (message event)) k)
       /\ (stream event = stderr
           \/ (exists k, In k ERROR_KEYWORDS
                         /\ contains (toLowerCase (message event)) k)
           \/ (exists p, In p (STATUS_PATTERNS ++ LEVEL_PATTERNS)
                         /\ matchesIn p (message event))
           \/ (exists token, In token UPPER_CASE_TOKENS
                             /\ contains (message event) token)))
  /\ ((exists k, In k LIFECYCLE_KEYWORDS
                 /\ contains (toLowerCase (message event)) k) ->
      shouldInclude toLowerCase event = false).
Proof.
  unfold shouldInclude.
  destruct (isLifecycleEvent toLowerCase (message event)) eqn:L.
  - apply isLifecycleEvent_iff in L. destruct L as (k & Hk & H). split.
    + split; [discriminate|]. intros [N _]. exfalso. exact (N k Hk H).
    + reflexivity.
  - assert (NL : forall k, In k LIFECYCLE_KEYWORDS ->
                   ~ contains (toLowerCase (message event)) k).
    { intros k Hk H.
      assert (E : isLifecycleEvent toLowerCase (message event) = true)
        by (apply isLifecycleEvent_iff; eauto).
      congruence. }
    split.
    + destruct (stream event) eqn:S.
      * rewrite hasErrorIndicator_iff, error_patterns_families. split.
        -- intros H. split; [exact NL|]. right. tauto.
        -- intros [_ [N|H]]; [discriminate|tauto].
      * split; auto.
    + intros (k & Hk & H). exfalso. exact (NL k Hk H).
Qed.

Variable windowMs : N.

Lemma length_makeBatch events dateNow :
  size (makeBatch events dateNow) = List.length events.
Proof. unfold size, makeBatch. cbn [logs]. apply length_map. Qed.

Lemma filter_other (h : nat) (l : list (nat * N)) :
  ~ In h (map fst (filter (fun t => negb (Nat.eqb (fst t) h)) l)).
Proof.
  intros H. apply in_map_iff in H. destruct H as ((h' & d) & E & Hin).
  apply filter_In in Hin. destruct Hin as [_ Hin]. cbn [fst] in *. subst h'.
  rewrite Nat.eqb_refl in Hin. discriminate.
Qed.

(** The backpressure branch, whatever the buffer held. *)
Lemma backpressure (m : Monitor) (event : LogEvent) (dateNow : N) :
  shouldInclude toLowerCase event = true ->
  isProcessing m = false ->
  MAX_BUFFER_SIZE <= S (List.length (buffer m)) ->
  let out := handleLogEvent toLowerCase windowMs event dateNow m in
  snd out = Some (makeBatch (buffer m ++ [event]) dateNow)
  /\ buffer (fst out) = []
  /\ isProcessing (fst out) = true
  /\ timer (fst out) = None
  /\ (forall h, timer m = Some h -> ~ In h (map fst (timeouts (fst out)))).
Proof.
  intros Hinc Hproc Hlen out. subst out. unfold handleLogEvent.
  rewrite Hinc. cbn [negb buffer isProcessing timer timeouts nextHandle].
  rewrite Hproc. cbn [negb]. rewrite andb_true_r.
  assert (L : List.length (buffer m ++ [event]) = S (List.length (buffer m)))
    by (rewrite length_app; cbn; lia).
  rewrite L. destruct (Nat.leb_spec MAX_BUFFER_SIZE (S (List.length (buffer m))));
    [|lia].
  unfold flush.
  destruct (timer m) as [h|] eqn:T;
    cbn [buffer isProcessing timer timeouts nextHandle setTimerVar clearTimeout];
    rewrite ?L, ?Hproc;
    cbn [Nat.eqb orb fst snd buffer isProcessing timer timeouts];
    repeat split; try discriminate.
  intros h' [= <-]. apply filter_other.
Qed.

Lemma handle_emits (m : Monitor) (event : LogEvent) (dateNow : N) b :
  snd (handleLogEvent toLowerCase windowMs event dateNow m) = Some b ->
  shouldInclude toLowerCase event = true
  /\ isProcessing m = false
  /\ MAX_BUFFER_SIZE <= S (List.length (buffer m))
  /\ size b = S (List.length (buffer m)).
Proof.
  unfold handleLogEvent.
  destruct (shouldInclude toLowerCase event); cbn [negb]; [|discriminate].
  cbn [buffer isProcessing timer timeouts nextHandle].
  assert (L : List.length (buffer m ++ [event]) = S (List.length (buffer m)))
    by (rewrite length_app; cbn; lia).
  rewrite L.
  destruct (Nat.leb_spec MAX_BUFFER_SIZE (S (List.length (buffer m))));
    destruct (isProcessing m) eqn:P; cbn [negb andb]; try discriminate.
  - unfold flush.
    destruct (timer m);
      cbn [buffer isProcessing timer timeouts nextHandle setTimerVar clearTimeout];
      rewrite ?L, ?P; cbn [Nat.eqb orb snd]; intros [= <-];
      rewrite length_makeBatch, L; auto.
Qed.

Lemma step_below (m : Monitor) (a : Action) :
  below m ->
  (a = Settle -> isProcessing m = true ->
   List.length (buffer m) < MAX_BUFFER_SIZE) ->
  below (fst (step toLowerCase windowMs m a)).
Proof.
  unfold below. intros B Hs. destruct a as [event dateNow|h dateNow| |].
  - cbn [step]. destruct (handleLogEvent toLowerCase windowMs event dateNow m) as [m' b] eqn:E.
    cbn [fst]. revert E. unfold handleLogEvent.
    destruct (shouldInclude toLowerCase event); cbn [negb].
    2:{ intros [= <- _]. exact B. }
    cbn [buffer isProcessing timer timeouts nextHandle].
    assert (L : List.length (buffer m ++ [event]) = S (List.length (buffer m)))
      by (rewrite length_app; cbn; lia).
    rewrite L.
    destruct (Nat.leb_spec MAX_BUFFER_SIZE (S (List.length (buffer m))));
      destruct (isProcessing m) eqn:P; cbn [negb andb].
    + intros [= <- _]. cbn. discriminate.
    + unfold flush.
      destruct (timer m);
        cbn [buffer isProcessing timer timeouts nextHandle setTimerVar clearTimeout];
        rewrite ?L, ?P; cbn [Nat.eqb orb]; intros [= <- _]; cbn; discriminate.
    + intros [= <- _]. cbn. discriminate.
    + destruct (timer m); intros [= <- _]; cbn; intros _; rewrite L; exact H.
  - cbn [step]. destruct (find _ (timeouts m)) as [[h' delay]|]; [|exact B].
    unfold flush. cbn [clearTimeout buffer isProcessing].
    destruct (Nat.eqb (List.length (buffer m)) 0 || isProcessing m);
      cbn [fst buffer isProcessing]; [exact B|discriminate].
  - cbn [step]. destruct (isProcessing m) eqn:P;
      [|cbn [fst]; intros _; apply B; reflexivity].
    cbn [fst]. specialize (Hs eq_refl eq_refl). intros _.
    unfold settled. cbn [buffer timer].
    destruct (buffer m); [cbn; unfold MAX_BUFFER_SIZE; lia|].
    destruct (timer m); exact Hs.
  - cbn [step fst]. unfold stop.
    destruct (timer m); cbn [buffer isProcessing setTimerVar clearTimeout]; exact B.
Qed.

Lemma run_sizes (m : Monitor) (actions : list Action) :
  Forall (fun out => fst out = ByCap -> MAX_BUFFER_SIZE <= size (snd out))
    (snd (run toLowerCase windowMs m actions))
  /\ (below m -> calm toLowerCase windowMs m actions ->
      Forall (fun out => fst out = ByCap -> size (snd out) = MAX_BUFFER_SIZE)
        (snd (run toLowerCase windowMs m actions))).
Proof.
  revert m. induction actions as [|a rest IH]; intros m.
  - cbn [run snd]. split; constructor.
  - cbn [run calm].
    pose proof (step_below m a) as SB.
    destruct (step toLowerCase windowMs m a) as [m' out] eqn:E.
    cbn [fst] in SB.
    destruct (IH m') as [IH1 IH2].
    destruct (run toLowerCase windowMs m' rest) as [m'' outs].
    cbn [snd] in *.
    assert (Hout : forall t b, out = Some (t, b) -> t = ByCap ->
                   MAX_BUFFER_SIZE <= size b
                   /\ (below m -> size b = MAX_BUFFER_SIZE)).
    { intros t b -> ->. destruct a as [event dateNow|h dateNow| |]; cbn [step] in E.
      - destruct (handleLogEvent toLowerCase windowMs event dateNow m) as [m1 b1] eqn:H1.
        injection E as _ E. destruct b1 as [b1|]; [|discriminate].
        injection E as ->.
        assert (H2 : snd (handleLogEvent toLowerCase windowMs event dateNow m) = Some b) by (rewrite H1; auto).
        apply handle_emits in H2. destruct H2 as (_ & P & Hle & Hsz).
        split; [lia|]. intros B. specialize (B P). lia.
      - destruct (find _ (timeouts m)) as [[h' delay]|]; [|discriminate].
        destruct (flush dateNow (clearTimeout h m)) as [m1 [b1|]];
          discriminate.
      - destruct (isProcessing m); discriminate.
      - discriminate. }
    split.
    + destruct out as [[t b]|]; [|exact IH1].
      constructor; [|exact IH1]. cbn [fst snd]. intros ->.
      apply (Hout ByCap b eq_refl eq_refl).
    + intros B [Hs C]. specialize (IH2 (SB B Hs) C).
      destruct out as [[t b]|]; [|exact IH2].
      constructor; [|exact IH2]. cbn [fst snd]. intros ->.
      apply (Hout ByCap b eq_refl eq_refl). exact B.
Qed.

(** C7 (amended).  When an included event brings the buffer to the cap
    or beyond while no batch is in flight, the pending timeout is cleared
    and the whole buffer is flushed at once.  A batch flushed by the cap
    carries at least [MAX_BUFFER_SIZE] events, and in a run from the
    start in which no callback settles with [MAX_BUFFER_SIZE] or more
    events waiting it carries exactly [MAX_BUFFER_SIZE]. *)
Theorem cap_flush :
  (forall m event dateNow,
     shouldInclude toLowerCase event = true ->
     isProcessing m = false ->
     MAX_BUFFER_SIZE <= S (List.length (buffer m)) ->
     let out := handleLogEvent toLowerCase windowMs event dateNow m in
     snd out = Some (makeBatch (buffer m ++ [event]) dateNow)
     /\ size (makeBatch (buffer m ++ [event]) dateNow)
        = S (List.length (buffer m))
     /\ buffer (fst out) = []
     /\ isProcessing (fst out) = true
     /\ timer (fst out) = None
     /\ (forall h, timer m = Some h -> ~ In h (map fst (timeouts (fst out)))))
  /\ (forall actions,
        Forall (fun out => fst out = ByCap -> MAX_BUFFER_SIZE <= size (snd out))
          (snd (run toLowerCase windowMs start actions)))
  /\ (forall actions,
        calm toLowerCase windowMs start actions ->
        Forall (fun out => fst out = ByCap -> size (snd out) = MAX_BUFFER_SIZE)
          (snd (run toLowerCase windowMs start actions))).
Proof.
  split; [|split].
  - intros m event dateNow Hinc Hproc Hlen out.
    destruct (backpressure m event dateNow Hinc Hproc Hlen) as (H1 & H2).
    split; [exact H1|]. split; [|exact H2].
    rewrite length_makeBatch, length_app. cbn. lia.
  - intros actions. apply (run_sizes start actions).
  - intros actions. apply (run_sizes start actions).
    unfold below, start. cbn. unfold MAX_BUFFER_SIZE. lia.
Qed.

End Filter.

(** C8 as stated fails: a line on stdout with the token SEVERE is
    included, though its message contains no lifecycle keyword and no
    error keyword and matches none of the regexes for an HTTP status or a
    structured log level. *)
Lemma shouldInclude_severe_counterexample :
  shouldInclude asciiToLowerCase severe = true
  /\ ~ ((forall k, In k LIFECYCLE_KEYWORDS ->
           ~ contains (asciiToLowerCase (message severe)) k)
        /\ (stream severe = stderr
            \/ (exists k, In k ERROR_KEYWORDS
                          /\ contains (asciiToLowerCase (message severe)) k)
            \/ (exists p, In p (STATUS_PATTERNS ++ LEVEL_PATTERNS)
                          /\ matchesIn p (message severe)))).
Proof.
  split; [vm_compute; reflexivity|].
  intros [_ [S|[(k & Hk & H)|(p & Hp & H)]]].
  - discriminate S.
  - apply includes_contains in H.
    assert (E : existsb (fun k => includes (asciiToLowerCase (message severe)) k)
                  ERROR_KEYWORDS = true)
      by (apply existsb_exists; eauto).
    vm_compute in E. discriminate E.
  - apply matchesIn_test in H.
    assert (E : existsb (fun p => test p (message severe))
                  (STATUS_PATTERNS ++ LEVEL_PATTERNS) = true)
      by (apply existsb_exists; eauto).
    vm_compute in E. discriminate E.
Qed.

(** C7 as stated fails: after events have gathered while a callback was
    in flight, the flush made by the cap carries 102 events. *)
Lemma cap_flush_exceeds_counterexample :
  map (fun out => (fst out, size (snd out)))
    (snd (run asciiToLowerCase 10000 start burst))
  = [(ByCap, 100); (ByCap, 102)].
Proof. vm_compute. reflexivity. Qed.

(** A run whose callbacks settle on an empty buffer is calm, and its cap
    flush carries a hundred events. *)
Lemma cap_flush_witness :
  calm asciiToLowerCase 10000 start quiet
  /\ Forall (fun out => fst out = ByCap -> size (snd out) = MAX_BUFFER_SIZE)
       (snd (run asciiToLowerCase 10000 start quiet)).
Proof.
  assert (C : calm asciiToLowerCase 10000 start quiet).
  { vm_compute. repeat split; try discriminate; intros; lia. }
  split; [exact C|].
  exact (proj2 (proj2 (cap_flush asciiToLowerCase 10000)) quiet C).
Defined.

End LogBufferFacts.
(** ** The batcher: nothing lost, one batch in flight, one timer *)

Module MonitorFacts.

Import LogBuffer LogBufferSpec MonitorSpec.

Section Runs.

Variable toLowerCase : jsstring -> jsstring.
Variable windowMs : N.

Lemma logs_makeBatch events dateNow :
  logs (makeBatch events dateNow) = map line events.
Proof. reflexivity. Qed.

(** What one action delivers and what it leaves in the buffer. *)
Lemma step_lines (m : Monitor) (a : Action) :
  let out := step toLowerCase windowMs m a in
  match snd out with Some b => logs (snd b) | None => [] end
  ++ map line (buffer (fst out))
  = map line (buffer m) ++ map line (arrivals toLowerCase [a]).
Proof.
  destruct a as [event dateNow|h dateNow| |]; cbn [step arrivals].
  - unfold handleLogEvent.
    destruct (shouldInclude toLowerCase event); cbn [negb].
    2:{ cbn. rewrite app_nil_r. reflexivity. }
    cbn [buffer isProcessing timer timeouts nextHandle].
    destruct ((MAX_BUFFER_SIZE <=? List.length (buffer m ++ [event]))
              && negb (isProcessing m)) eqn:C.
    + apply andb_prop in C. destruct C as [C1 C2].
      apply negb_true_iff in C2. unfold flush.
      assert (L : List.length (buffer m ++ [event]) <> 0)
        by (rewrite length_app; cbn; lia).
      apply Nat.eqb_neq in L.
      destruct (timer m);
        cbn [buffer isProcessing timer timeouts nextHandle setTimerVar clearTimeout];
        rewrite L, C2; cbn [orb fst snd option_map buffer logs makeBatch map];
        rewrite app_nil_r, map_app; reflexivity.
    + destruct (negb (isProcessing m)).
      * destruct (timer m); cbn; rewrite map_app; reflexivity.
      * cbn. rewrite map_app. reflexivity.
  - destruct (find _ (timeouts m)) as [[h' delay]|].
    2:{ cbn. rewrite app_nil_r. reflexivity. }
    unfold flush. cbn [clearTimeout buffer isProcessing].
    destruct (Nat.eqb (List.length (buffer m)) 0 || isProcessing m);
      cbn; rewrite ?app_nil_r; reflexivity.
  - destruct (isProcessing m); cbn [fst snd]; rewrite app_nil_r; [|reflexivity].
    unfold settled. cbn [buffer timer].
    destruct (buffer m); [reflexivity|]. destruct (timer m); reflexivity.
  - cbn [fst snd]. rewrite app_nil_r. unfold stop.
    destruct (timer m); reflexivity.
Qed.

Lemma arrivals_cons a rest :
  arrivals toLowerCase (a :: rest)
  = arrivals toLowerCase [a] ++ arrivals toLowerCase rest.
Proof.
  destruct a as [event d|h d| |]; cbn [arrivals]; try reflexivity.
  destruct (shouldInclude toLowerCase event); reflexivity.
Qed.

(** X12.  No included event is lost, delivered twice or out of order: in
    any run, from any monitor, the lines delivered by the batches,
    followed by the lines of the events still buffered, are the lines of
    the events buffered at the start followed by the lines of the events
    that passed the filter, in their order of arrival. Timers, the cap, a
    callback in flight and [stop] only decide when a line is delivered. *)
Theorem nothing_lost (m : Monitor) (actions : list Action) :
  let out := run toLowerCase windowMs m actions in
  delivered (snd out) ++ map line (buffer (fst out))
  = map line (buffer m) ++ map line (arrivals toLowerCase actions).
Proof.
  revert m. induction actions as [|a rest IH]; intros m.
  - cbn. rewrite app_nil_r. reflexivity.
  - cbn [run]. pose proof (step_lines m a) as S. cbv zeta in S.
    destruct (step toLowerCase windowMs m a) as [m1 b]. cbn [fst snd] in S.
    specialize (IH m1). cbv zeta in IH.
    destruct (run toLowerCase windowMs m1 rest) as [m2 outs]. cbn [fst snd] in *.
    rewrite arrivals_cons, map_app, app_assoc, <- S.
    destruct b as [b|]; unfold delivered in *; cbn [map List.concat app];
      rewrite <- ?app_assoc; rewrite IH; reflexivity.
Qed.

(** What a batch says of the monitor that handed it over. *)
Lemma step_emits (m : Monitor) (a : Action) b :
  snd (step toLowerCase windowMs m a) = Some b ->
  isProcessing m = false
  /\ isProcessing (fst (step toLowerCase windowMs m a)) = true
  /\ buffer (fst (step toLowerCase windowMs m a)) = []
  /\ timer (fst (step toLowerCase windowMs m a)) = None.
Proof.
  destruct a as [event dateNow|h dateNow| |]; cbn [step].
  - unfold handleLogEvent.
    destruct (shouldInclude toLowerCase event); cbn [negb]; [|discriminate].
    cbn [buffer isProcessing timer timeouts nextHandle].
    destruct ((MAX_BUFFER_SIZE <=? List.length (buffer m ++ [event]))
              && negb (isProcessing m)) eqn:C.
    + apply andb_prop in C. destruct C as [C1 C2].
      apply negb_true_iff in C2. unfold flush.
      destruct (timer m);
        cbn [buffer isProcessing timer timeouts nextHandle setTimerVar clearTimeout];
        rewrite C2;
        destruct (Nat.eqb (List.length (buffer m ++ [event])) 0);
        cbn [orb fst snd option_map]; try discriminate; auto.
    + destruct (negb (isProcessing m)); [destruct (timer m)|]; discriminate.
  - destruct (find _ (timeouts m)) as [[h' delay]|]; [|discriminate].
    unfold flush. cbn [clearTimeout buffer isProcessing].
    destruct (Nat.eqb (List.length (buffer m)) 0); cbn [orb]; [discriminate|].
    destruct (isProcessing m); [discriminate|]. cbn. auto.
  - destruct (isProcessing m); discriminate.
  - discriminate.
Qed.

(** While a batch is in flight nothing but the callback's settling ends
    the flight, and nothing is handed over. *)
Lemma step_in_flight (m : Monitor) (a : Action) :
  isProcessing m = true -> a <> Settle ->
  snd (step toLowerCase windowMs m a) = None
  /\ isProcessing (fst (step toLowerCase windowMs m a)) = true.
Proof.
  intros P Ha. destruct a as [event dateNow|h dateNow| |]; cbn [step].
  - unfold handleLogEvent.
    destruct (shouldInclude toLowerCase event); cbn [negb]; [|auto].
    cbn [buffer isProcessing timer timeouts nextHandle]. rewrite P.
    cbn [negb]. rewrite andb_false_r. cbn. auto.
  - destruct (find _ (timeouts m)) as [[h' delay]|]; [|auto].
    unfold flush. cbn [clearTimeout buffer isProcessing]. rewrite P.
    rewrite orb_true_r. cbn. auto.
  - contradiction.
  - cbn. unfold stop. destruct (timer m); cbn; auto.
Qed.

Lemma run_single_flight (m : Monitor) (actions : list Action) :
  List.length (snd (run toLowerCase windowMs m actions))
  <= settles actions + (if isProcessing m then 0 else 1).
Proof.
  revert m. induction actions as [|a rest IH]; intros m.
  - cbn. lia.
  - cbn [run].
    pose proof (step_emits m a) as E. pose proof (step_in_flight m a) as F.
    destruct (step toLowerCase windowMs m a) as [m1 b] eqn:S. cbn [fst snd] in *.
    specialize (IH m1).
    destruct (run toLowerCase windowMs m1 rest) as [m2 outs]. cbn [fst snd] in *.
    destruct b as [b|].
    + destruct (E b eq_refl) as (P & P1 & _). rewrite P. rewrite P1 in IH.
      cbn [List.length].
      assert (settles rest <= settles (a :: rest))
        by (destruct a; cbn [settles]; lia).
      lia.
    + destruct (isProcessing m) eqn:P.
      * destruct a as [event d|h d| |];
          try (destruct F as [_ F]; [reflexivity|discriminate|];
               rewrite F in IH; cbn [settles]; lia).
        cbn [settles]. destruct (isProcessing m1); lia.
      * assert (settles rest <= settles (a :: rest))
          by (destruct a; cbn [settles]; lia).
        destruct (isProcessing m1); lia.
Qed.

(** X13.  One batch in flight: a batch is handed over only while no
    callback is in flight, and then one is; while one is in flight only
    its settling ends the flight. So in any run the batches handed over
    number at most one more than the callback's settlings - none more when
    the run started with a batch in flight - and without a settling a run
    hands over at most one batch. *)
Theorem single_flight :
  (forall m a b,
     snd (step toLowerCase windowMs m a) = Some b ->
     isProcessing m = false
     /\ isProcessing (fst (step toLowerCase windowMs m a)) = true)
  /\ (forall m a,
        isProcessing m = true -> a <> Settle ->
        snd (step toLowerCase windowMs m a) = None
        /\ isProcessing (fst (step toLowerCase windowMs m a)) = true)
  /\ (forall m actions,
        List.length (snd (run toLowerCase windowMs m actions))
        <= settles actions + (if isProcessing m then 0 else 1)).
Proof.
  split; [|split].
  - intros m a b H. destruct (step_emits m a b H) as (P & P1 & _). auto.
  - exact step_in_flight.
  - exact run_single_flight.
Qed.

Lemma eqb_eq (a b : jsstring) : JsString.eqb a b = true <-> a = b.
Proof.
  unfold JsString.eqb. destruct (list_eq_dec N.eq_dec a b); split; auto; discriminate.
Qed.

Lemma seen_In (a : jsstring) seen :
  existsb (JsString.eqb a) seen = true <-> In a seen.
Proof.
  rewrite existsb_exists. split.
  - intros (x & Hx & E). apply eqb_eq in E. subst. exact Hx.
  - intros H. exists a. split; [exact H|apply eqb_eq; reflexivity].
Qed.

(** [new Set(array)] keeps every element once. *)
Lemma newSet_In l seen a :
  In a (newSet l seen) <-> In a l /\ ~ In a seen.
Proof.
  revert seen. induction l as [|x l IH]; intros seen; cbn [newSet].
  - cbn. tauto.
  - destruct (existsb (JsString.eqb x) seen) eqn:E.
    + apply seen_In in E. rewrite IH. cbn [In]. split.
      * intros [H1 H2]. auto.
      * intros [[->|H1] H2]; [contradiction|auto].
    + assert (N : ~ In x seen).
      { intros H. apply seen_In in H. congruence. }
      cbn [In]. rewrite IH. cbn [In]. split.
      * intros [->|[H1 H2]]; auto.
      * intros [[->|H1] H2]; [auto|].
        destruct (list_eq_dec N.eq_dec x a) as [->|Hne]; [auto|].
        right. split; [exact H1|]. intros [H|H]; auto.
Qed.

Lemma newSet_NoDup l seen : NoDup (newSet l seen).
Proof.
  revert seen. induction l as [|x l IH]; intros seen; cbn [newSet].
  - constructor.
  - destruct (existsb (JsString.eqb x) seen); [apply IH|].
    constructor; [|apply IH]. rewrite newSet_In. cbn [In]. tauto.
Qed.

(** A batch made of events carries them. *)
Lemma makeBatch_carries (events : list LogEvent) (dateNow : N) :
  events <> [] -> carries events (makeBatch events dateNow).
Proof.
  intros Hne. unfold carries. cbn [makeBatch logs containers].
  split; [exact Hne|]. split; [reflexivity|]. split; [apply newSet_NoDup|].
  intros c. rewrite newSet_In, in_map_iff. cbn [In]. split.
  - intros [(e & E & H) _]. eauto.
  - intros (e & H & E). split; [eauto|tauto].
Qed.

(** What one action does to the events: a batch takes the whole buffer
    and the event that arrives with it, and without a batch the buffer
    keeps what it had and takes the event that arrives. *)
Lemma step_events (m : Monitor) (a : Action) :
  let out := step toLowerCase windowMs m a in
  match snd out with
  | Some b =>
      buffer (fst out) = []
      /\ buffer m ++ arrivals toLowerCase [a] <> []
      /\ exists dateNow,
           snd b = makeBatch (buffer m ++ arrivals toLowerCase [a]) dateNow
  | None => buffer (fst out) = buffer m ++ arrivals toLowerCase [a]
  end.
Proof.
  destruct a as [event dateNow|h dateNow| |]; cbn [step arrivals].
  - unfold handleLogEvent.
    destruct (shouldInclude toLowerCase event); cbn [negb].
    2:{ cbn. rewrite app_nil_r. reflexivity. }
    cbn [buffer isProcessing timer timeouts nextHandle].
    destruct ((MAX_BUFFER_SIZE <=? List.length (buffer m ++ [event]))
              && negb (isProcessing m)) eqn:C.
    + apply andb_prop in C. destruct C as [C1 C2].
      apply negb_true_iff in C2. unfold flush.
      assert (L : List.length (buffer m ++ [event]) <> 0)
        by (rewrite length_app; cbn; lia).
      assert (NE : buffer m ++ [event] <> [])
        by (intros E; rewrite E in L; cbn in L; lia).
      apply Nat.eqb_neq in L.
      destruct (timer m);
        cbn [buffer isProcessing timer timeouts nextHandle setTimerVar clearTimeout];
        rewrite L, C2; cbn [orb fst snd option_map buffer];
        (split; [reflexivity|split; [exact NE|eauto]]).
    + destruct (negb (isProcessing m)); [destruct (timer m)|]; reflexivity.
  - destruct (find _ (timeouts m)) as [[h' delay]|].
    2:{ cbn. rewrite app_nil_r. reflexivity. }
    unfold flush. cbn [clearTimeout buffer isProcessing]. rewrite app_nil_r.
    destruct (Nat.eqb (List.length (buffer m)) 0) eqn:L; cbn [orb];
      [reflexivity|].
    destruct (isProcessing m); [reflexivity|]. cbn [fst snd option_map buffer].
    split; [reflexivity|]. split; [|eauto].
    intros E. rewrite E in L. discriminate.
  - rewrite app_nil_r. destruct (isProcessing m); cbn [fst snd]; [|reflexivity].
    unfold settled. cbn [buffer timer].
    destruct (buffer m); [reflexivity|]. destruct (timer m); reflexivity.
  - cbn [fst snd]. rewrite app_nil_r. unfold stop.
    destruct (timer m); reflexivity.
Qed.

(** X14.  No batch is empty, and a batch names its sources.  A batch is
    handed over with the whole buffer: the events buffered before the
    action and the event that arrives with it, if one does; it carries at
    least one line; its lines are those of these events, in order; its
    containers are the containers these events came from, each one once;
    and the buffer is empty afterwards.  So over any run the batches cut
    the events - those buffered at the start, then those that passed the
    filter, in their order of arrival - into consecutive pieces, one for
    each batch, with the events still buffered at the end as the rest. *)
Theorem batch_shape :
  (forall (m : Monitor) (a : Action) out,
     snd (step toLowerCase windowMs m a) = Some out ->
     carries (buffer m ++ arrivals toLowerCase [a]) (snd out)
     /\ buffer (fst (step toLowerCase windowMs m a)) = [])
  /\ (forall (m : Monitor) (actions : list Action),
        let out := run toLowerCase windowMs m actions in
        exists pieces,
          buffer m ++ arrivals toLowerCase actions
          = List.concat pieces ++ buffer (fst out)
          /\ Forall2 (fun events b => carries events (snd b)) pieces (snd out)).
Proof.
  split.
  - intros m a out H. pose proof (step_events m a) as E. cbv zeta in E.
    rewrite H in E. destruct E as (B & NE & dateNow & ->).
    split; [apply makeBatch_carries; exact NE|exact B].
  - intros m actions. revert m. induction actions as [|a rest IH]; intros m.
    + exists []. cbn. rewrite app_nil_r. split; [reflexivity|constructor].
    + cbv zeta. cbn [run]. pose proof (step_events m a) as E. cbv zeta in E.
      destruct (step toLowerCase windowMs m a) as [m1 b]. cbn [fst snd] in E.
      destruct (IH m1) as (pieces & Hp & Hf). cbv zeta in Hp, Hf.
      destruct (run toLowerCase windowMs m1 rest) as [m2 outs].
      cbn [fst snd] in *. rewrite arrivals_cons, app_assoc.
      destruct b as [b|].
      * destruct E as (B & NE & dateNow & Eb). rewrite B in Hp. cbn [app] in Hp.
        exists ((buffer m ++ arrivals toLowerCase [a]) :: pieces).
        cbn [List.concat]. rewrite Hp.
        split; [rewrite <- !app_assoc; reflexivity|].
        constructor; [|exact Hf]. rewrite Eb. apply makeBatch_carries. exact NE.
      * exists pieces. rewrite <- E. split; [exact Hp|exact Hf].
Qed.

Lemma clear_only h delay :
  filter (fun t : nat * N => negb (Nat.eqb (fst t) h)) [(h, delay)] = [].
Proof. cbn. rewrite Nat.eqb_refl. reflexivity. Qed.

(** One action keeps the timers tidy; a timeout that fires hands over the
    whole buffer. *)
Lemma step_tidy (m : Monitor) (a : Action) :
  tidy windowMs m ->
  tidy windowMs (fst (step toLowerCase windowMs m a))
  /\ forall delay b,
       snd (step toLowerCase windowMs m a) = Some (ByTimer delay, b) ->
       size b = List.length (buffer m)
       /\ (delay = windowMs /\ 1 <= size b < MAX_BUFFER_SIZE
           \/ delay = 0%N /\ MAX_BUFFER_SIZE <= size b).
Proof.
  unfold tidy. intros T.
  destruct a as [event dateNow|h dateNow| |]; cbn [step].
  - (* a log event *)
    destruct (handleLogEvent toLowerCase windowMs event dateNow m) as [m1 b] eqn:E.
    cbn [fst snd]. split.
    2:{ intros delay b0 H. destruct b; discriminate. }
    revert E. unfold handleLogEvent.
    destruct (shouldInclude toLowerCase event); cbn [negb].
    2:{ intros [= <- _]. exact T. }
    cbn [buffer isProcessing timer timeouts nextHandle].
    assert (L : List.length (buffer m ++ [event]) = S (List.length (buffer m)))
      by (rewrite length_app; cbn; lia).
    rewrite L.
    destruct (Nat.leb_spec MAX_BUFFER_SIZE (S (List.length (buffer m)))) as [C|C];
      destruct (isProcessing m) eqn:P; cbn [negb andb].
    + intros [= <- _]. cbn [timer timeouts].
      destruct (timer m) as [h|]; [destruct T as [T _]; discriminate|exact T].
    + unfold flush.
      destruct (timer m) as [h|];
        cbn [buffer isProcessing timer timeouts nextHandle setTimerVar clearTimeout];
        rewrite ?L, ?P; cbn [Nat.eqb orb]; intros [= <- _]; cbn [timer timeouts].
      * destruct T as (_ & _ & delay & -> & _). apply clear_only.
      * exact T.
    + intros [= <- _]. cbn [timer timeouts].
      destruct (timer m) as [h|]; [destruct T as [T _]; discriminate|exact T].
    + destruct (timer m) as [h|]; intros [= <- _];
        cbn [setTimer clearTimeout timer timeouts buffer isProcessing nextHandle].
      * destruct T as (_ & _ & delay & -> & _). rewrite clear_only.
        split; [reflexivity|]. split; [lia|]. exists windowMs.
        split; [reflexivity|].
        split; [intros N; apply app_eq_nil in N; destruct N; discriminate|].
        left. split; [reflexivity|lia].
      * rewrite T. split; [reflexivity|]. split; [lia|]. exists windowMs.
        split; [reflexivity|].
        split; [intros N; apply app_eq_nil in N; destruct N; discriminate|].
        left. split; [reflexivity|lia].
  - (* a timeout fires *)
    destruct (timer m) as [h0|] eqn:Tm.
    + destruct T as (P & Hlt & delay & Ht & Hne & Hd). rewrite Ht. cbn [find fst].
      destruct (Nat.eqb_spec h0 h) as [->|Hneq].
      * unfold flush. cbn [clearTimeout buffer isProcessing timeouts]. rewrite Ht.
        rewrite clear_only, P.
        destruct (Nat.eqb_spec (List.length (buffer m)) 0) as [Z|Z].
        { destruct (buffer m); [contradiction|discriminate]. }
        cbn [orb fst snd option_map timer timeouts]. split; [reflexivity|].
        intros delay' b [= <- <-]. rewrite LogBufferFacts.length_makeBatch.
        split; [reflexivity|]. destruct Hd as [[-> Hd]|[-> Hd]]; [left|right];
          split; auto; lia.
      * cbn [fst snd]. rewrite Tm. split.
        { split; [exact P|]. split; [exact Hlt|]. eauto. }
        intros; discriminate.
    + rewrite T. cbn [find fst snd]. rewrite Tm. split; [exact T|].
      intros; discriminate.
  - (* the callback settles *)
    destruct (isProcessing m) eqn:P; cbn [fst snd].
    2:{ split; [|intros; discriminate].
        destruct (timer m); [|exact T].
        destruct T as (_ & T'). split; [exact P|exact T']. }
    split; [|intros; discriminate].
    destruct (timer m) as [h|] eqn:Tm; [destruct T as [T _]; congruence|].
    unfold settled. cbn [buffer timer].
    destruct (buffer m) as [|e es] eqn:B; rewrite Tm.
    + cbn [timer timeouts]. exact T.
    + cbn [setTimer timer timeouts buffer isProcessing nextHandle].
      rewrite T. split; [reflexivity|]. split; [lia|].
      eexists. split; [reflexivity|]. split; [discriminate|].
      destruct (Nat.leb_spec MAX_BUFFER_SIZE (List.length (e :: es)));
        [right|left]; auto.
  - (* stop *)
    cbn [fst snd]. split; [|intros; discriminate]. unfold stop.
    destruct (timer m) as [h|] eqn:Tm.
    + cbn [setTimerVar clearTimeout timer timeouts].
      destruct T as (_ & _ & delay & -> & _). apply clear_only.
    + rewrite Tm. exact T.
Qed.

Lemma run_tidy (m : Monitor) (actions : list Action) :
  tidy windowMs m ->
  tidy windowMs (fst (run toLowerCase windowMs m actions))
  /\ Forall
       (fun out =>
          forall delay, fst out = ByTimer delay ->
            delay = windowMs /\ 1 <= size (snd out) < MAX_BUFFER_SIZE
            \/ delay = 0%N /\ MAX_BUFFER_SIZE <= size (snd out))
       (snd (run toLowerCase windowMs m actions)).
Proof.
  revert m. induction actions as [|a rest IH]; intros m T.
  - cbn. split; [exact T|constructor].
  - cbn [run]. destruct (step_tidy m a T) as [T1 S1].
    destruct (step toLowerCase windowMs m a) as [m1 b]. cbn [fst snd] in *.
    destruct (IH m1 T1) as [T2 F2].
    destruct (run toLowerCase windowMs m1 rest) as [m2 outs]. cbn [fst snd] in *.
    split; [exact T2|]. destruct b as [[trigger b]|]; [|exact F2].
    constructor; [|exact F2]. cbn [fst snd]. intros delay ->.
    destruct (S1 delay b eq_refl) as [_ H]. exact H.
Qed.

(** X15.  One timer.  After any run from the start the runtime holds at
    most one timeout of the monitor, the one [timer] names, and none while
    a batch is in flight; [timer] never names a timeout that has fired or
    was cleared.  A pending timeout stands for a buffer that is not empty,
    and when it fires it hands over the whole buffer.  So a batch handed
    over by a timeout carries at least one event; with fewer than 100
    events the timeout was set with the window's delay, and with 100 or
    more - the callback settled on a full buffer - it was set with no
    delay.  When the window is not 0 the delay tells the two apart: a
    timeout of the window's delay hands over 1 to 99 events, a timeout of
    no delay 100 or more.  [stop] leaves no timeout pending. *)
Theorem one_timer (actions : list Action) :
  let m := fst (run toLowerCase windowMs start actions) in
  (forall h delay,
     In (h, delay) (timeouts m) ->
     timeouts m = [(h, delay)] /\ timer m = Some h
     /\ isProcessing m = false /\ buffer m <> []
     /\ forall dateNow,
          exists b,
            step toLowerCase windowMs m (Fire h dateNow)
            = (mkMonitor [] None true [] (nextHandle m),
               Some (ByTimer delay, b))
            /\ logs b = map line (buffer m))
  /\ (forall h, timer m = Some h -> exists delay, timeouts m = [(h, delay)])
  /\ timeouts (stop m) = []
  /\ Forall
       (fun out =>
          forall delay, fst out = ByTimer delay ->
            1 <= size (snd out)
            /\ (size (snd out) < MAX_BUFFER_SIZE -> delay = windowMs)
            /\ (MAX_BUFFER_SIZE <= size (snd out) -> delay = 0%N)
            /\ (windowMs <> 0%N ->
                (delay = windowMs -> size (snd out) < MAX_BUFFER_SIZE)
                /\ (delay = 0%N -> MAX_BUFFER_SIZE <= size (snd out))))
       (snd (run toLowerCase windowMs start actions)).
Proof.
  assert (T0 : tidy windowMs start) by reflexivity.
  destruct (run_tidy start actions T0) as [T F]. cbv zeta.
  assert (F' : Forall
       (fun out =>
          forall delay, fst out = ByTimer delay ->
            1 <= size (snd out)
            /\ (size (snd out) < MAX_BUFFER_SIZE -> delay = windowMs)
            /\ (MAX_BUFFER_SIZE <= size (snd out) -> delay = 0%N)
            /\ (windowMs <> 0%N ->
                (delay = windowMs -> size (snd out) < MAX_BUFFER_SIZE)
                /\ (delay = 0%N -> MAX_BUFFER_SIZE <= size (snd out))))
       (snd (run toLowerCase windowMs start actions))).
  { eapply Forall_impl; [|exact F]. cbv beta. intros out H delay Hd.
    unfold MAX_BUFFER_SIZE in *.
    destruct (H delay Hd) as [[-> Hs]|[-> Hs]].
    - split; [lia|]. split; [reflexivity|]. split; [lia|].
      intros Hw. split; [lia|]. intros E. congruence.
    - split; [lia|]. split; [lia|]. split; [reflexivity|].
      intros Hw. split; [|lia]. intros E. congruence. }
  clear F.
  set (m := fst (run toLowerCase windowMs start actions)) in *.
  unfold tidy in T. split; [|split; [|split; [|exact F']]].
  - intros h delay Hin. destruct (timer m) as [h0|] eqn:Tm.
    + destruct T as (P & Hlt & d & Ht & Hne & Hd). rewrite Ht in Hin.
      destruct Hin as [[= <- <-]|[]]. split; [exact Ht|]. split; [reflexivity|].
      split; [exact P|]. split; [exact Hne|]. intros dateNow.
      exists (makeBatch (buffer m) dateNow). split; [|reflexivity].
      cbn [step]. rewrite Ht. cbn [find fst]. rewrite Nat.eqb_refl.
      unfold flush. cbn [clearTimeout buffer isProcessing timeouts nextHandle].
      rewrite Ht, clear_only, P.
      destruct (Nat.eqb_spec (List.length (buffer m)) 0) as [Z|Z].
      { destruct (buffer m); [contradiction|discriminate]. }
      reflexivity.
    + rewrite T in Hin. destruct Hin.
  - intros h Hh. rewrite Hh in T. destruct T as (_ & _ & d & Ht & _). eauto.
  - unfold stop. destruct (timer m) as [h|] eqn:Tm.
    + cbn [setTimerVar clearTimeout timeouts].
      destruct T as (_ & _ & d & -> & _). apply clear_only.
    + rewrite ?Tm. exact T.
Qed.

End Runs.

End MonitorFacts.

(** ** The lines of a chunk *)

Module ObserveFacts.

Import LogBuffer ObserveContainerLogs ObserveSpec TrimFacts.

Lemma splitFrom_current sep cur s :
  splitFrom sep cur s
  = match splitFrom sep [] s with
    | first :: more => (cur ++ first) :: more
    | [] => [cur]
    end.
Proof.
  revert cur. induction s as [|c s IH]; intros cur; cbn [splitFrom].
  - rewrite app_nil_r. reflexivity.
  - destruct (c =? sep)%N.
    + rewrite app_nil_r. reflexivity.
    + rewrite (IH (cur ++ [c])), (IH ([] ++ [c])).
      destruct (splitFrom sep [] s); rewrite <- ?app_assoc; reflexivity.
Qed.

Lemma splitFrom_nonempty sep cur s : splitFrom sep cur s <> [].
Proof.
  revert cur. induction s as [|c s IH]; intros cur; cbn [splitFrom];
    [discriminate|]. destruct (c =? sep)%N; [discriminate|apply IH].
Qed.

Lemma split_cons sep c s :
  split sep (c :: s)
  = if (c =? sep)%N then [] :: split sep s
    else match split sep s with
         | first :: more => (c :: first) :: more
         | [] => [[c]]
         end.
Proof.
  unfold split. cbn [splitFrom]. destruct (c =? sep)%N; [reflexivity|].
  rewrite splitFrom_current. reflexivity.
Qed.

Lemma split_snoc sep s c :
  split sep (s ++ [c])
  = if (c =? sep)%N then split sep s ++ [[]]
    else removelast (split sep s) ++ [last (split sep s) [] ++ [c]].
Proof.
  induction s as [|a s IH].
  - cbn. destruct (c =? sep)%N; reflexivity.
  - cbn [app]. rewrite !split_cons, IH.
    pose proof (splitFrom_nonempty sep [] s) as NE. fold (split sep s) in NE.
    destruct (a =? sep)%N, (c =? sep)%N.
    + reflexivity.
    + destruct (split sep s) as [|x xs] eqn:E; [contradiction|]. reflexivity.
    + destruct (split sep s) as [|x xs] eqn:E; [contradiction|]. reflexivity.
    + destruct (split sep s) as [|x xs] eqn:E; [contradiction|].
      destruct xs as [|y ys]; [reflexivity|].
      cbn [removelast last app].
      destruct (removelast (y :: ys) ++ [last (y :: ys) [] ++ [c]]) eqn:E2.
      * apply app_eq_nil in E2. destruct E2; discriminate.
      * reflexivity.
Qed.

(** No piece of a split holds the separator. *)
Lemma split_pieces sep s piece :
  In piece (split sep s) -> ~ In sep piece.
Proof.
  revert piece. induction s as [|c s IH]; intros piece.
  - cbn. intros [<-|[]] [].
  - rewrite split_cons. destruct (N.eqb_spec c sep) as [->|Hne].
    + intros [<-|H]; [intros []|auto].
    + destruct (split sep s) as [|first more] eqn:E.
      * intros [<-|[]] [->|[]]. contradiction.
      * intros [<-|H]; [|apply IH; right; exact H].
        intros [->|H]; [contradiction|]. apply (IH first); [left; reflexivity|exact H].
Qed.

Lemma messages_cons_space c s : isSpace c = true -> messages (c :: s) = messages s.
Proof.
  intros Hc. unfold messages. rewrite split_cons.
  destruct (c =? 10)%N; [reflexivity|].
  pose proof (splitFrom_nonempty 10 [] s) as NE. fold (split 10 s) in NE.
  destruct (split 10 s) as [|first more]; [contradiction|].
  cbn [map]. rewrite trim_cons_space by exact Hc. reflexivity.
Qed.

Lemma messages_snoc_space s c : isSpace c = true -> messages (s ++ [c]) = messages s.
Proof.
  intros Hc. unfold messages. rewrite split_snoc.
  destruct (c =? 10)%N.
  - rewrite map_app, filter_app. cbn. apply app_nil_r.
  - pose proof (splitFrom_nonempty 10 [] s) as NE. fold (split 10 s) in NE.
    rewrite (app_removelast_last [] NE) at 3.
    rewrite !map_app, !filter_app. cbn [map].
    rewrite trim_snoc_space by exact Hc. reflexivity.
Qed.

Lemma messages_spaces_left sp s :
  forallb isSpace sp = true -> messages (sp ++ s) = messages s.
Proof.
  induction sp as [|c sp IH]; intros H; [reflexivity|].
  cbn [forallb] in H. apply andb_prop in H. destruct H as [Hc H].
  cbn [app]. rewrite messages_cons_space by exact Hc. auto.
Qed.

Lemma messages_spaces_right s sp :
  forallb isSpace sp = true -> messages (s ++ sp) = messages s.
Proof.
  induction sp as [|c sp IH] using rev_ind; intros H; [rewrite app_nil_r; auto|].
  rewrite forallb_app in H. apply andb_prop in H. destruct H as [H Hc].
  cbn in Hc. rewrite andb_true_r in Hc.
  rewrite app_assoc, messages_snoc_space by exact Hc. auto.
Qed.

(** Trimming the chunk first changes nothing. *)
Lemma messages_trim chunk : messages (trim chunk) = messages chunk.
Proof.
  destruct (trim_split chunk) as (before & after & E & Hb & Ha).
  rewrite E at 2.
  rewrite messages_spaces_left, messages_spaces_right by assumption.
  reflexivity.
Qed.

Section WithWorld.

Variable World : Type.
Variable dateNow : World -> N * World.

Lemma deliver_messages containerName streamType lines w :
  map message (fst (deliver dateNow containerName streamType lines w))
  = filter (fun l => negb (isEmpty l)) (map trim lines)
  /\ Forall (fun e => container e = containerName /\ stream e = streamType)
       (fst (deliver dateNow containerName streamType lines w)).
Proof.
  revert w. induction lines as [|l lines IH]; intros w; cbn [deliver map filter].
  - split; [reflexivity|constructor].
  - destruct (isEmpty (trim l)); cbn [negb]; [apply IH|].
    destruct (dateNow w) as [t w1]. specialize (IH w1).
    destruct (deliver dateNow containerName streamType lines w1) as [events w2].
    cbn [fst map message] in *. destruct IH as [IH1 IH2]. split.
    + rewrite IH1. reflexivity.
    + constructor; [split; reflexivity|exact IH2].
Qed.

(** X16.  The events of a chunk are its lines: one event for every line
    that is not blank, in order, with the line trimmed as its message - so
    no message is empty, begins or ends with white space, or holds a line
    feed - and with the container and the stream of the listener. Trimming
    the chunk first does not change the events; a chunk of white space
    gives none and does not read the clock. *)
Theorem onData_events (containerName : jsstring) (streamType : Stream)
  (chunk : jsstring) (w : World) :
  let events := fst (onData dateNow containerName streamType chunk w) in
  map message events = messages chunk
  /\ Forall
       (fun e =>
          container e = containerName /\ stream e = streamType
          /\ message e <> [] /\ trim (message e) = message e
          /\ ~ In 10%N (message e))
       events
  /\ (trim chunk = [] ->
      onData dateNow containerName streamType chunk w = ([], w)).
Proof.
  cbv zeta. unfold onData.
  assert (M : forall lines w0,
            Forall (fun e => message e <> [] /\ trim (message e) = message e
                             /\ (Forall (fun l => ~ In 10%N l) lines ->
                                 ~ In 10%N (message e)))
              (fst (deliver dateNow containerName streamType lines w0))).
  { induction lines as [|l lines IH]; intros w0; cbn [deliver]; [constructor|].
    destruct (isEmpty (trim l)) eqn:El.
    - eapply Forall_impl; [|apply IH]. cbn beta. intros e (H1 & H2 & H3).
      repeat split; auto. intros F. inversion F; auto.
    - destruct (dateNow w0) as [t w1]. specialize (IH w1).
      destruct (deliver dateNow containerName streamType lines w1) as [events w2].
      cbn [fst] in *. constructor.
      + cbn [message]. split; [destruct (trim l); [discriminate|discriminate]|].
        split; [apply trim_idem|]. intros F. inversion F as [|? ? Hl _]; subst.
        intros H. apply Hl. apply trim_In. exact H.
      + eapply Forall_impl; [|apply IH]. cbn beta. intros e (H1 & H2 & H3).
        repeat split; auto. intros F. inversion F; auto. }
  destruct (isEmpty (trim chunk)) eqn:E.
  - cbn [fst]. split.
    + rewrite <- messages_trim.
      destruct (trim chunk); [reflexivity|discriminate].
    + split; [constructor|]. reflexivity.
  - destruct (deliver_messages containerName streamType (split 10 (trim chunk)) w)
      as [D1 D2].
    split; [|split].
    + rewrite D1. apply messages_trim.
    + pose proof (M (split 10 (trim chunk)) w) as M1.
      rewrite Forall_forall in *. intros e He.
      destruct (D2 e He) as [C1 C2]. destruct (M1 e He) as (H1 & H2 & H3).
      repeat split; auto. apply H3. rewrite Forall_forall.
      intros l Hl. apply (split_pieces 10 (trim chunk)). exact Hl.
    + intros N. rewrite N in E. discriminate.
Qed.

End WithWorld.

End ObserveFacts.

(** ** The knowledge file *)

Module KnowledgeFacts.

Import Knowledge KnowledgeSpec TrimFacts.

(** What ends with something else than white space keeps its end. *)
Lemma trimEnd_app s t : trimEnd t <> [] -> trimEnd (s ++ t) = s ++ trimEnd t.
Proof.
  intros H. induction s as [|c s IH]; [reflexivity|].
  cbn [app]. rewrite trimEnd_cons, IH.
  destruct (isSpace c); [|reflexivity].
  destruct (s ++ trimEnd t) eqn:E; [|reflexivity].
  apply app_eq_nil in E. tauto.
Qed.

Lemma trimEnd_prefix s t : trimEnd (s ++ arrow :: t) = s ++ arrow :: trimEnd t.
Proof.
  induction t as [|c t IH] using rev_ind.
  - change (s ++ [arrow]) with (s ++ [arrow]). rewrite trimEnd_snoc. reflexivity.
  - change (s ++ arrow :: t ++ [c]) with (s ++ (arrow :: t) ++ [c]).
    rewrite app_assoc, !trimEnd_snoc. destruct (isSpace c); [exact IH|].
    rewrite <- app_assoc. reflexivity.
Qed.

(** *** The well-formed form of a string *)

Lemma pairs_ind (P : list N -> Prop) :
  P [] -> (forall c, P [c]) ->
  (forall c d s, P s -> P (d :: s) -> P (c :: d :: s)) ->
  forall s : list N, P s.
Proof.
  intros H0 H1 H2 s.
  assert (H : P s /\ forall c, P (c :: s)).
  { induction s as [|d s [IH1 IH2]]; [split; auto|].
    split; [apply IH2|]. intros c. apply H2; auto. }
  apply H.
Qed.

Lemma toWellFormed_cons c rest :
  toWellFormed (c :: rest)
  = if isHighSurrogate c then
      match rest with
      | d :: rest' =>
          if isLowSurrogate d then c :: d :: toWellFormed rest'
          else REPLACEMENT :: toWellFormed rest
      | [] => [REPLACEMENT]
      end
    else if isLowSurrogate c then REPLACEMENT :: toWellFormed rest
    else c :: toWellFormed rest.
Proof. reflexivity. Qed.

Lemma surrogate_parts c :
  isSurrogate c = false -> isHighSurrogate c = false /\ isLowSurrogate c = false.
Proof. unfold isSurrogate. apply orb_false_elim. Qed.

Lemma toWellFormed_plain c s :
  isSurrogate c = false -> toWellFormed (c :: s) = c :: toWellFormed s.
Proof.
  intros H. apply surrogate_parts in H. destruct H as [H L].
  rewrite toWellFormed_cons, H, L. reflexivity.
Qed.

(** A code unit that is no surrogate separates what is before it from
    what is after it. *)
Lemma toWellFormed_app_plain s c t :
  isSurrogate c = false ->
  toWellFormed (s ++ c :: t) = toWellFormed s ++ c :: toWellFormed t.
Proof.
  intros Hc. pose proof (surrogate_parts c Hc) as [Hh Hl].
  pattern s; apply pairs_ind; clear s; [|intros x|intros x d s IH1 IH2].
  - apply toWellFormed_plain. exact Hc.
  - cbn [app]. rewrite (toWellFormed_cons x (c :: t)), (toWellFormed_cons x []).
    rewrite Hl, (toWellFormed_plain c t Hc).
    destruct (isHighSurrogate x); [reflexivity|].
    destruct (isLowSurrogate x); reflexivity.
  - cbn [app]. rewrite (toWellFormed_cons x (d :: s ++ c :: t)),
      (toWellFormed_cons x (d :: s)).
    change (d :: s ++ c :: t) with ((d :: s) ++ c :: t). rewrite IH1, IH2.
    destruct (isHighSurrogate x); [destruct (isLowSurrogate d)|
                                   destruct (isLowSurrogate x)]; reflexivity.
Qed.

Lemma space_plain c : isSpace c = true -> isSurrogate c = false.
Proof.
  intros H. destruct (isSurrogate c) eqn:S; [|reflexivity]. exfalso.
  assert (B : (55296 <= c <= 57343)%N).
  { unfold isSurrogate, isHighSurrogate, isLowSurrogate in S.
    apply orb_prop in S. destruct S as [S|S]; apply andb_prop in S;
      destruct S as [S1 S2]; apply N.leb_le in S1, S2; lia. }
  unfold isSpace, isWhiteSpace, isLineTerminator in H. cbn [existsb] in H.
  repeat match type of H with
         | context [N.eqb c ?k] =>
             destruct (N.eqb_spec c k) as [E|_]; [lia|]
         end.
  cbn [orb] in H.
  destruct (N.leb_spec 8192 c); destruct (N.leb_spec c 8202); cbn in H;
    try discriminate; lia.
Qed.

Lemma toWellFormed_spaces_left sp s :
  forallb isSpace sp = true -> toWellFormed (sp ++ s) = sp ++ toWellFormed s.
Proof.
  induction sp as [|c sp IH]; intros H; [reflexivity|].
  cbn [forallb] in H. apply andb_prop in H. destruct H as [Hc H].
  cbn [app]. rewrite toWellFormed_plain by (apply space_plain; exact Hc).
  rewrite IH by exact H. reflexivity.
Qed.

Lemma toWellFormed_spaces_right s sp :
  forallb isSpace sp = true -> toWellFormed (s ++ sp) = toWellFormed s ++ sp.
Proof.
  intros H. destruct sp as [|c sp]; [rewrite !app_nil_r; reflexivity|].
  cbn [forallb] in H. apply andb_prop in H. destruct H as [Hc H].
  rewrite toWellFormed_app_plain by (apply space_plain; exact Hc).
  pose proof (toWellFormed_spaces_left sp [] H) as E.
  rewrite !app_nil_r in E. rewrite E. reflexivity.
Qed.

(** Unit by unit, a string and its well-formed form differ only where a
    surrogate became U+FFFD; neither is white space. *)
Lemma toWellFormed_units s :
  Forall2 (fun a b => isSpace b = isSpace a) s (toWellFormed s).
Proof.
  assert (R : forall x, isSurrogate x = true ->
                        isSpace REPLACEMENT = isSpace x).
  { intros x Hx. destruct (isSpace x) eqn:E; [|reflexivity].
    apply space_plain in E. congruence. }
  assert (Rh : forall x, isHighSurrogate x = true ->
                         isSpace REPLACEMENT = isSpace x).
  { intros x Hx. apply R. unfold isSurrogate. rewrite Hx. reflexivity. }
  assert (Rl : forall x, isLowSurrogate x = true ->
                         isSpace REPLACEMENT = isSpace x).
  { intros x Hx. apply R. unfold isSurrogate. rewrite Hx. apply orb_true_r. }
  pattern s; apply pairs_ind; clear s; [|intros x|intros x d s IH1 IH2].
  - constructor.
  - rewrite toWellFormed_cons.
    destruct (isHighSurrogate x) eqn:H; [repeat constructor; auto|].
    destruct (isLowSurrogate x) eqn:L; repeat constructor; auto.
  - rewrite toWellFormed_cons.
    destruct (isHighSurrogate x) eqn:H.
    + destruct (isLowSurrogate d); repeat constructor; auto.
    + destruct (isLowSurrogate x) eqn:L; constructor; auto.
Qed.

Lemma toWellFormed_idem s : toWellFormed (toWellFormed s) = toWellFormed s.
Proof.
  assert (P : isSurrogate REPLACEMENT = false) by reflexivity.
  pattern s; apply pairs_ind; clear s; [|intros x|intros x d s IH1 IH2].
  - reflexivity.
  - rewrite toWellFormed_cons.
    destruct (isHighSurrogate x) eqn:H; [reflexivity|].
    destruct (isLowSurrogate x) eqn:L; [reflexivity|].
    rewrite toWellFormed_cons, H, L. reflexivity.
  - rewrite (toWellFormed_cons x (d :: s)).
    destruct (isHighSurrogate x) eqn:H.
    + destruct (isLowSurrogate d) eqn:Ld.
      * rewrite toWellFormed_cons, H, Ld, IH1. reflexivity.
      * rewrite toWellFormed_plain, IH2 by exact P. reflexivity.
    + destruct (isLowSurrogate x) eqn:L.
      * rewrite toWellFormed_plain, IH2 by exact P. reflexivity.
      * rewrite (toWellFormed_cons x), H, L, IH2. reflexivity.
Qed.

Lemma toWellFormed_nonempty s : s <> [] -> toWellFormed s <> [].
Proof.
  intros H E. pose proof (Forall2_length (toWellFormed_units s)) as L.
  rewrite E in L. destruct s; [contradiction|discriminate].
Qed.

(** *** Trimming and the well-formed form *)

Lemma trimStart_related s s' :
  Forall2 (fun a b => isSpace b = isSpace a) s s' ->
  Forall2 (fun a b => isSpace b = isSpace a) (trimStart s) (trimStart s').
Proof.
  induction 1 as [|a b s s' Hab H IH]; [constructor|].
  cbn [trimStart]. destruct (isSpace a) eqn:Ha; rewrite Hab; [exact IH|].
  constructor; [congruence|assumption].
Qed.

Lemma trimEnd_related s s' :
  Forall2 (fun a b => isSpace b = isSpace a) s s' ->
  Forall2 (fun a b => isSpace b = isSpace a) (trimEnd s) (trimEnd s').
Proof.
  induction 1 as [|a b s s' Hab H IH]; [constructor|].
  rewrite !trimEnd_cons. destruct (isSpace a) eqn:Ha; rewrite Hab.
  - destruct (trimEnd s), (trimEnd s'); inversion IH; subst;
      constructor; auto; congruence.
  - constructor; [congruence|assumption].
Qed.

Lemma trimEnd_fixed_related s s' :
  Forall2 (fun a b => isSpace b = isSpace a) s s' ->
  trimEnd s = s -> trimEnd s' = s'.
Proof.
  intros R E. pose proof (Forall2_length (trimEnd_related s s' R)) as L1.
  pose proof (Forall2_length R) as L2. rewrite E in L1.
  destruct (trimEnd_split s') as (sp & Es & _).
  assert (Hsp : sp = []).
  { apply (f_equal (@List.length _)) in Es. rewrite length_app in Es.
    destruct sp; [reflexivity|cbn in Es; lia]. }
  rewrite Hsp, app_nil_r in Es. congruence.
Qed.

Lemma trim_fixed_related s s' :
  Forall2 (fun a b => isSpace b = isSpace a) s s' ->
  trim s = s -> trim s' = s'.
Proof.
  intros R E.
  pose proof (Forall2_length
                (trimEnd_related _ _ (trimStart_related s s' R))) as L1.
  fold (trim s) in L1. fold (trim s') in L1.
  pose proof (Forall2_length R) as L2. rewrite E in L1.
  destruct (trim_split s') as (b & a & Es & _).
  apply (f_equal (@List.length _)) in Es. rewrite !length_app in Es.
  destruct (trim_split s') as (b' & a' & Es' & _).
  assert (Hb : b' = [] /\ a' = []).
  { apply (f_equal (@List.length _)) in Es'. rewrite !length_app in Es'.
    destruct b'; destruct a'; cbn in Es'; try lia. auto. }
  destruct Hb as [-> ->]. rewrite app_nil_r in Es'. cbn in Es'. congruence.
Qed.

Lemma toWellFormed_trimEnd s :
  trimEnd (toWellFormed s) = toWellFormed (trimEnd s).
Proof.
  destruct (trimEnd_split s) as (sp & E & Hsp).
  rewrite E at 1. rewrite toWellFormed_spaces_right, trimEnd_spaces by exact Hsp.
  apply (trimEnd_fixed_related (trimEnd s)); [apply toWellFormed_units|].
  apply trimEnd_idem.
Qed.

Lemma toWellFormed_trim s : trim (toWellFormed s) = toWellFormed (trim s).
Proof.
  destruct (trim_split s) as (b & a & E & Hb & Ha).
  rewrite E at 1.
  rewrite toWellFormed_spaces_left, toWellFormed_spaces_right by assumption.
  rewrite trim_spaces_left, trim_spaces_right by assumption.
  apply (trim_fixed_related (trim s)); [apply toWellFormed_units|].
  apply trim_idem.
Qed.

(** *** What is written and what is read *)

Lemma toWellFormed_factLine question answer :
  toWellFormed (factLine question answer)
  = factLine (toWellFormed question) (toWellFormed answer).
Proof.
  unfold factLine.
  change ([10; 10]%N ++ js "- " ++ question ++ js " " ++ [arrow] ++ js " " ++ answer)
    with (10%N :: 10%N :: 45%N :: 32%N
            :: (question ++ 32%N :: arrow :: 32%N :: answer)).
  rewrite !toWellFormed_plain by reflexivity.
  rewrite toWellFormed_app_plain by reflexivity.
  rewrite !toWellFormed_plain by reflexivity.
  reflexivity.
Qed.

Lemma toWellFormed_content content question answer :
  toWellFormed (content ++ factLine question answer)
  = toWellFormed content
    ++ factLine (toWellFormed question) (toWellFormed answer).
Proof.
  rewrite <- toWellFormed_factLine. unfold factLine at 1.
  change ([10; 10]%N ++ js "- " ++ question ++ js " " ++ [arrow] ++ js " " ++ answer)
    with (10%N :: ([10]%N ++ js "- " ++ question ++ js " " ++ [arrow]
                     ++ js " " ++ answer)).
  rewrite toWellFormed_app_plain by reflexivity.
  rewrite <- (toWellFormed_plain 10) by reflexivity. reflexivity.
Qed.

Lemma trim_factLine question answer :
  trimEnd (factLine (toWellFormed question) (toWellFormed answer))
  = [10; 10]%N ++ line question answer.
Proof.
  assert (E : factLine (toWellFormed question) (toWellFormed answer)
              = ([10; 10]%N ++ js "- " ++ toWellFormed question ++ js " ")
                  ++ arrow :: js " " ++ toWellFormed answer).
  { unfold factLine. rewrite <- !app_assoc. reflexivity. }
  rewrite E, trimEnd_prefix. unfold line. rewrite <- !app_assoc. reflexivity.
Qed.

Lemma line_arrow question answer : In arrow (line question answer).
Proof. unfold line. rewrite !in_app_iff. right. right. right. left. left. reflexivity. Qed.

Lemma content_after question answer file :
  trim (match file with
        | None => HEADER
        | Some text => trimEnd (toWellFormed text)
        end
        ++ factLine (toWellFormed question) (toWellFormed answer))
  = after question answer file.
Proof.
  pose proof (trim_factLine question answer) as E.
  assert (NE : trimEnd (factLine (toWellFormed question) (toWellFormed answer))
               <> []) by (rewrite E; discriminate).
  unfold trim at 1. rewrite <- trimStart_trimEnd, trimEnd_app by exact NE.
  rewrite E. destruct file as [text|]; cbn [after].
  - set (raw := toWellFormed text).
    destruct (trimStart_split (trimEnd raw)) as (sp & Es & Hsp).
    rewrite trimStart_trimEnd in Es. fold (trim raw) in Es.
    rewrite Es, <- app_assoc, trimStart_spaces by exact Hsp.
    pose proof (trimStart_head (trimEnd raw)) as Hd.
    rewrite trimStart_trimEnd in Hd. fold (trim raw) in Hd.
    destruct (trim raw) as [|c known]; [reflexivity|].
    cbn [app trimStart]. rewrite Hd. reflexivity.
  - reflexivity.
Qed.

Lemma after_arrow question answer file : In arrow (after question answer file).
Proof.
  pose proof (line_arrow question answer) as H.
  unfold after. destruct file as [text|].
  - destruct (trim (toWellFormed text)); [exact H|]. rewrite !in_app_iff. auto.
  - rewrite !in_app_iff. auto.
Qed.

(** The text that [addFact] leaves in the file. *)
Lemma addFact_writes question answer file :
  addFact question answer file
  = Some (match file with
          | None => HEADER
          | Some text => trimEnd (toWellFormed text)
          end
          ++ factLine (toWellFormed question) (toWellFormed answer)).
Proof.
  unfold addFact, writeFileSync, readFileSync. rewrite toWellFormed_content.
  destruct file as [text|]; [|reflexivity].
  rewrite <- toWellFormed_trimEnd, toWellFormed_idem. reflexivity.
Qed.

Lemma loadKnowledge_addFact question answer file :
  loadKnowledge (addFact question answer file) = Some (after question answer file).
Proof.
  pose proof (addFact_writes question answer file) as W.
  pose proof (content_after question answer file) as CA.
  pose proof (after_arrow question answer file) as A.
  assert (E : forall content,
            trim (content ++ factLine (toWellFormed question)
                               (toWellFormed answer))
            = after question answer file ->
            toWellFormed content = content ->
            loadKnowledge
              (Some (content ++ factLine (toWellFormed question)
                                  (toWellFormed answer)))
            = Some (after question answer file)).
  { intros content T C. unfold loadKnowledge, readFileSync.
    rewrite toWellFormed_content, C, !toWellFormed_idem, T.
    destruct (JsString.eqb (after question answer file) HEADER) eqn:B;
      [|reflexivity].
    apply MonitorFacts.eqb_eq in B. rewrite B in A. exfalso. vm_compute in A.
    repeat (destruct A as [A|A]; [discriminate A|]). exact A. }
  destruct file as [text|]; rewrite W; apply E; try exact CA.
  - rewrite <- toWellFormed_trimEnd, toWellFormed_idem. reflexivity.
  - reflexivity.
Qed.

Lemma line_exact question answer :
  trimEnd answer = answer -> answer <> [] ->
  line question answer
  = js "- " ++ toWellFormed question ++ js " " ++ [arrow] ++ js " "
    ++ toWellFormed answer.
Proof.
  intros Ha Hne. unfold line. do 4 f_equal.
  change (js " " ++ toWellFormed answer) with ([32%N] ++ toWellFormed answer).
  assert (T : trimEnd (toWellFormed answer) = toWellFormed answer)
    by (rewrite toWellFormed_trimEnd, Ha; reflexivity).
  rewrite trimEnd_app; [congruence|].
  rewrite T. apply toWellFormed_nonempty. exact Hne.
Qed.

Lemma after_ends question answer file :
  exists before, after question answer file = before ++ line question answer.
Proof.
  unfold after. destruct file as [text|].
  - destruct (trim (toWellFormed text)) as [|c known]; [exists []; reflexivity|].
    exists ((c :: known) ++ [10; 10]%N). rewrite <- app_assoc. reflexivity.
  - exists (HEADER ++ [10; 10]%N). rewrite <- app_assoc. reflexivity.
Qed.

(** X17.  A fact that was added is found: after [addFact] the file is
    never without knowledge, whatever it was before - absent, blank, the
    header alone or earlier facts.  What [loadKnowledge] reads then is
    the trimmed text of the file as it was (the header, for an absent
    file), an empty line unless that text was empty, and the line of the
    fact; so it begins with what [loadKnowledge] read before and ends with
    the line of the fact.  The line is the question, the arrow and the
    answer less the white space the answer ends with, each in its
    well-formed form: a surrogate code unit that is not part of a pair
    comes back as U+FFFD, and a question and an answer without such a code
    unit come back as they were, when the answer is not empty and does not
    end with white space. *)
Theorem fact_is_kept (question answer : jsstring) (file : File) :
  loadKnowledge (addFact question answer file)
  = Some (after question answer file)
  /\ (forall known, loadKnowledge file = Some known ->
      exists more, after question answer file = known ++ more)
  /\ (exists before, after question answer file = before ++ line question answer)
  /\ (trimEnd answer = answer -> answer <> [] ->
      line question answer
      = js "- " ++ toWellFormed question ++ js " " ++ [arrow] ++ js " "
        ++ toWellFormed answer)
  /\ (toWellFormed question = question -> toWellFormed answer = answer ->
      trimEnd answer = answer -> answer <> [] ->
      line question answer
      = js "- " ++ question ++ js " " ++ [arrow] ++ js " " ++ answer).
Proof.
  split; [apply loadKnowledge_addFact|]. split; [|split; [|split]].
  - intros known H. destruct file as [text|]; [|discriminate].
    unfold loadKnowledge, readFileSync in H.
    destruct (JsString.eqb (trim (toWellFormed text)) HEADER); [discriminate|].
    injection H as <-. cbn [after].
    destruct (trim (toWellFormed text)) as [|c known].
    + exists (line question answer). reflexivity.
    + eexists. reflexivity.
  - apply after_ends.
  - apply line_exact.
  - intros Hq Ha T NE. rewrite (line_exact question answer T NE), Hq, Ha.
    reflexivity.
Qed.

(** A surrogate without its pair in the answer is read back as U+FFFD. *)
Lemma fact_is_kept_witness :
  loadKnowledge (addFact (js "unit") [120; 55296; 121]%N None)
  = Some (HEADER ++ [10; 10]%N ++ js "- unit " ++ [arrow] ++ js " "
                 ++ [120; 65533; 121]%N).
Proof.
  rewrite (proj1 (fact_is_kept (js "unit") [120; 55296; 121]%N None)).
  vm_compute. reflexivity.
Defined.

Lemma learn_snoc facts question answer file :
  learn (facts ++ [(question, answer)]) file
  = addFact question answer (learn facts file).
Proof. unfold learn. rewrite fold_left_app. reflexivity. Qed.

Lemma paragraphs_snoc facts question answer :
  paragraphs (facts ++ [(question, answer)])
  = paragraphs facts ++ [10; 10]%N ++ line question answer.
Proof.
  unfold paragraphs. rewrite map_app, concat_app. cbn [map List.concat fst snd].
  rewrite ?app_nil_r, <- ?app_assoc. reflexivity.
Qed.

(** X18.  The facts of a session accumulate: from an absent file, what is
    read back after any number of facts is the header and one paragraph
    for every fact, in the order in which they were added - nothing is
    overwritten and nothing is lost.  The paragraph of a fact is an empty
    line and the line of the fact, with the question and the answer in
    their well-formed form. *)
Theorem facts_accumulate (facts : list (jsstring * jsstring)) :
  loadKnowledge (learn facts None)
  = match facts with
    | [] => None
    | _ :: _ => Some (HEADER ++ paragraphs facts)
    end.
Proof.
  induction facts as [|[question answer] facts IH] using rev_ind; [reflexivity|].
  rewrite learn_snoc, loadKnowledge_addFact, paragraphs_snoc.
  assert (E : after question answer (learn facts None)
              = HEADER ++ paragraphs facts ++ [10; 10]%N ++ line question answer).
  { destruct facts as [|fact facts].
    - reflexivity.
    - destruct (learn (fact :: facts) None) as [text|] eqn:L; [|discriminate].
      unfold loadKnowledge, readFileSync in IH.
      destruct (JsString.eqb (trim (toWellFormed text)) HEADER); [discriminate|].
      injection IH as IH. cbn [after]. rewrite IH.
      cbn [HEADER js map list_ascii_of_string app]. rewrite <- ?app_assoc.
      reflexivity. }
  rewrite E. destruct (facts ++ [(question, answer)]) eqn:N; [|reflexivity].
  apply app_eq_nil in N. destruct N; discriminate.
Qed.

End KnowledgeFacts.

(** ** The questions to the human *)

Module PromptsFacts.

Import Workflow Prompts TrimFacts.

Lemma truthy_nonempty s : truthy s = true <-> s <> [].
Proof. destruct s; cbn; split; congruence. Qed.

Section Host.

Variable toLowerCase : jsstring -> jsstring.

Lemma askFeedback_skips_blanks (t : Terminal) :
  match askFeedback t with
  | None => Forall (fun entered => trim entered = []) t
  | Some (feedback, rest) =>
      exists blanks entered,
        t = blanks ++ entered :: rest
        /\ Forall (fun blank => trim blank = []) blanks
        /\ feedback = trim entered /\ feedback <> []
  end.
Proof.
  induction t as [|entered t IH]; cbn [askFeedback]; [constructor|].
  destruct (truthy (trim entered)) eqn:E.
  - exists [], entered. apply truthy_nonempty in E. auto.
  - assert (B : trim entered = []) by (destruct (trim entered); [reflexivity|discriminate]).
    destruct (askFeedback t) as [[feedback rest]|].
    + destruct IH as (blanks & e & -> & F & H). exists (entered :: blanks), e.
      split; [reflexivity|]. split; [constructor; assumption|exact H].
    + constructor; assumption.
Qed.

(** X19.  Every outcome of the approval prompt. The plan is approved
    exactly when the first answer, trimmed and in lower case, is y or yes,
    and then one line is read. Any other answer rejects the plan, and the
    feedback of the rejection is the first line after it that is not
    blank, trimmed: it is never empty, the blank lines before it are asked
    for again and dropped. While only blank lines are entered the prompt
    does not return. *)
Theorem askPlanApproval_outcomes (t : Terminal) :
  let approves answer :=
    toLowerCase (trim answer) = js "y" \/ toLowerCase (trim answer) = js "yes" in
  match askPlanApproval toLowerCase t with
  | Some (Approve, rest) => exists answer, t = answer :: rest /\ approves answer
  | Some (Reject feedback, rest) =>
      exists answer blanks entered,
        t = answer :: blanks ++ entered :: rest
        /\ ~ approves answer
        /\ Forall (fun blank => trim blank = []) blanks
        /\ feedback = trim entered
        /\ feedback <> [] /\ trim feedback = feedback
  | None =>
      t = []
      \/ exists answer entered,
           t = answer :: entered /\ ~ approves answer
           /\ Forall (fun blank => trim blank = []) entered
  end.
Proof.
  cbv zeta. destruct t as [|answer t]; cbn [askPlanApproval]; [left; reflexivity|].
  destruct (JsString.eqb (toLowerCase (trim answer)) (js "y")) eqn:Y;
    [|destruct (JsString.eqb (toLowerCase (trim answer)) (js "yes")) eqn:YES];
    cbn [orb].
  - exists answer. apply MonitorFacts.eqb_eq in Y. auto.
  - exists answer. apply MonitorFacts.eqb_eq in YES. auto.
  - assert (N : ~ (toLowerCase (trim answer) = js "y"
                   \/ toLowerCase (trim answer) = js "yes")).
    { intros [H|H]; apply MonitorFacts.eqb_eq in H; congruence. }
    pose proof (askFeedback_skips_blanks t) as F.
    destruct (askFeedback t) as [[feedback rest]|].
    + destruct F as (blanks & entered & -> & B & -> & NE).
      exists answer, blanks, entered. repeat split; auto. apply trim_idem.
    + right. exists answer, t. auto.
Qed.

(** X20.  Every outcome of the escalation prompt. One line is read. The
    incident is dismissed exactly when the answer, trimmed and in lower
    case, is stop, dismiss or empty; any other answer continues the
    workflow with the answer trimmed as the context, which is then never
    empty and has no white space at either end. *)
Theorem resolveEscalation_outcomes (reason neededContext : jsstring) (t : Terminal) :
  toLowerCase [] = [] ->
  let dismisses answer :=
    toLowerCase (trim answer) = js "stop" \/ toLowerCase (trim answer) = js "dismiss"
    \/ toLowerCase (trim answer) = [] in
  match resolveEscalation toLowerCase reason neededContext t with
  | Some (Dismiss, rest) => exists answer, t = answer :: rest /\ dismisses answer
  | Some (ContinueWith context, rest) =>
      exists answer,
        t = answer :: rest /\ ~ dismisses answer
        /\ context = trim answer /\ context <> [] /\ trim context = context
  | None => t = []
  end.
Proof.
  intros L. cbv zeta. destruct t as [|answer t]; cbn [resolveEscalation]; [reflexivity|].
  destruct (JsString.eqb (toLowerCase (trim answer)) (js "stop")) eqn:S1;
    [|destruct (JsString.eqb (toLowerCase (trim answer)) (js "dismiss")) eqn:S2;
      [|destruct (JsString.eqb (toLowerCase (trim answer)) []) eqn:S3]];
    cbn [orb].
  - exists answer. apply MonitorFacts.eqb_eq in S1. auto.
  - exists answer. apply MonitorFacts.eqb_eq in S2. auto.
  - exists answer. apply MonitorFacts.eqb_eq in S3. auto.
  - exists answer. split; [reflexivity|]. split; [|split; [reflexivity|split]].
    + intros [H|[H|H]]; apply MonitorFacts.eqb_eq in H; congruence.
    + intros E. rewrite E, L in S3. discriminate.
    + apply trim_idem.
Qed.

Lemma askFeasibilityQuestion_outcomes (question : jsstring) (t : Terminal) :
  toLowerCase [] = [] ->
  match askFeasibilityQuestion toLowerCase question t with
  | Some (None, rest) =>
      exists answer,
        t = answer :: rest
        /\ (toLowerCase (trim answer) = js "skip" \/ toLowerCase (trim answer) = [])
  | Some (Some reply, rest) =>
      exists answer,
        t = answer :: rest
        /\ ~ (toLowerCase (trim answer) = js "skip" \/ toLowerCase (trim answer) = [])
        /\ reply = trim answer /\ reply <> [] /\ trimEnd reply = reply
  | None => t = []
  end.
Proof.
  intros L. destruct t as [|answer t]; cbn [askFeasibilityQuestion]; [reflexivity|].
  destruct (JsString.eqb (toLowerCase (trim answer)) (js "skip")) eqn:S1;
    [|destruct (JsString.eqb (toLowerCase (trim answer)) []) eqn:S2];
    cbn [orb].
  - exists answer. apply MonitorFacts.eqb_eq in S1. auto.
  - exists answer. apply MonitorFacts.eqb_eq in S2. auto.
  - exists answer. split; [reflexivity|]. split; [|split; [reflexivity|split]].
    + intros [H|H]; apply MonitorFacts.eqb_eq in H; congruence.
    + intros E. rewrite E, L in S2. discriminate.
    + unfold trim. apply trimEnd_idem.
Qed.

End Host.

Lemma resolveEscalation_outcomes_witness :
  let t := [js "  The cache is Redis  "; js "later"] in
  let context := js "The cache is Redis" in
  asciiToLowerCase [] = []
  /\ exists answer,
       t = answer :: [js "later"]
       /\ ~ (asciiToLowerCase (trim answer) = js "stop"
             \/ asciiToLowerCase (trim answer) = js "dismiss"
             \/ asciiToLowerCase (trim answer) = [])
       /\ context = trim answer /\ context <> [] /\ trim context = context.
Proof.
  split; [reflexivity|].
  exact (resolveEscalation_outcomes asciiToLowerCase (js "why") (js "what")
           [js "  The cache is Redis  "; js "later"] eq_refl).
Defined.

End PromptsFacts.

(** ** The question of the feasibility agent *)

Module UserToolFacts.

Import Prompts Knowledge KnowledgeSpec UserTool.

Section Host.

Variable toLowerCase : jsstring -> jsstring.

(** X21.  Every outcome of the tool.  One line is read.  When the answer,
    trimmed and in lower case, is skip or empty, the agent is told that
    the user declined and the knowledge file is not touched.  Any other
    answer is handed to the agent trimmed, and is in the knowledge file
    when the tool returns: what [loadKnowledge] reads then ends with the
    line of the question, the arrow and the answer the agent got, both in
    their well-formed form - as they are, when neither holds a surrogate
    code unit that is not part of a pair. *)
Theorem askUserTool_outcomes (question : jsstring) (t : Terminal) (file : File) :
  toLowerCase [] = [] ->
  match askUserTool toLowerCase question (t, file) with
  | None => t = []
  | Some (reply, (rest, file')) =>
      exists answer,
        t = answer :: rest
        /\ let skipped :=
             toLowerCase (trim answer) = js "skip" \/ toLowerCase (trim answer) = [] in
           (skipped /\ reply = declined /\ file' = file)
           \/ (~ skipped /\ reply = trim answer /\ reply <> []
               /\ file' = addFact question reply file
               /\ (exists before,
                     loadKnowledge file'
                     = Some (before ++ js "- " ++ toWellFormed question
                                    ++ js " " ++ [arrow] ++ js " "
                                    ++ toWellFormed reply))
               /\ (toWellFormed question = question ->
                   toWellFormed reply = reply ->
                   exists before,
                     loadKnowledge file'
                     = Some (before ++ js "- " ++ question ++ js " " ++ [arrow]
                                    ++ js " " ++ reply)))
  end.
Proof.
  intros L. unfold askUserTool. cbn [fst snd].
  pose proof (PromptsFacts.askFeasibilityQuestion_outcomes toLowerCase question t L) as H.
  destruct (askFeasibilityQuestion toLowerCase question t) as [[[reply|] rest]|];
    [| |exact H].
  - destruct H as (answer & -> & N & -> & NE & T). exists answer.
    split; [reflexivity|]. right.
    split; [exact N|]. split; [reflexivity|]. split; [exact NE|].
    split; [reflexivity|].
    rewrite KnowledgeFacts.loadKnowledge_addFact.
    destruct (KnowledgeFacts.after_ends question (trim answer) file)
      as (before & E).
    rewrite (KnowledgeFacts.line_exact question (trim answer) T NE) in E.
    split.
    + exists before. rewrite E. reflexivity.
    + intros Hq Ha. exists before. rewrite E, Hq, Ha. reflexivity.
  - destruct H as (answer & -> & S). exists answer. split; [reflexivity|].
    left. auto.
Qed.

End Host.

Lemma askUserTool_outcomes_witness :
  let reply := js "6379" in
  let file' := Some (HEADER ++ [10; 10]%N ++ js "- Which port? " ++ [arrow] ++ js " 6379") in
  asciiToLowerCase [] = []
  /\ exists answer,
       [js " 6379 "] = [answer]
       /\ let skipped :=
            asciiToLowerCase (trim answer) = js "skip"
            \/ asciiToLowerCase (trim answer) = [] in
          (skipped /\ reply = declined /\ file' = None)
          \/ (~ skipped /\ reply = trim answer /\ reply <> []
              /\ file' = addFact (js "Which port?") reply None
              /\ (exists before,
                    loadKnowledge file'
                    = Some (before ++ js "- " ++ toWellFormed (js "Which port?")
                                   ++ js " " ++ [arrow] ++ js " "
                                   ++ toWellFormed reply))
              /\ (toWellFormed (js "Which port?") = js "Which port?" ->
                  toWellFormed reply = reply ->
                  exists before,
                    loadKnowledge file'
                    = Some (before ++ js "- " ++ js "Which port?" ++ js " "
                                   ++ [arrow] ++ js " " ++ reply))).
Proof.
  split; [reflexivity|].
  exact (askUserTool_outcomes asciiToLowerCase (js "Which port?")
           [js " 6379 "] None eq_refl).
Defined.

End UserToolFacts.

(** ** withRetry *)

Module RetryFacts.

Import Helpers RetrySpec.

Section WithWorld.

Variable World : Type.
Variable T : Type.
Variable fn : World -> Settled T * World.
Variable sleep : Z -> World -> World.
Variable maxRetries : Z.
Variable baseDelayMs : Z.

Lemma calling_logs (w : World) (log : list (Entry T)) :
  calling fn (w, log) = (fst (fn w), (snd (fn w), log ++ [Called (fst (fn w))])).
Proof. unfold calling. cbn [fst snd]. destruct (fn w). reflexivity. Qed.

Lemma settled_cons (lastError lastError' : option Failure) (outcome next : Settled T)
  (outcomes : list (Settled T)) :
  settled lastError (outcome :: next :: outcomes) = settled lastError' (next :: outcomes).
Proof.
  unfold settled. change (last (outcome :: next :: outcomes) (Rejected lastError))
    with (last (next :: outcomes) (Rejected lastError)).
  revert next. induction outcomes as [|o outcomes IH]; intros next; [reflexivity|].
  change (last (next :: o :: outcomes) ?d) with (last (o :: outcomes) d).
  apply IH.
Qed.

Lemma sleeping_logs (delay : Z) (w : World) (log : list (Entry T)) :
  sleeping sleep delay (w, log) = (sleep delay w, log ++ [Slept delay]).
Proof. reflexivity. Qed.

Lemma attempts_journal (budget : nat) (attempt : Z) (lastError : option Failure)
  (w : World) (log : list (Entry T)) :
  (attempt + Z.of_nat budget = maxRetries)%Z ->
  let run := attempts (calling fn) (sleeping sleep) maxRetries baseDelayMs
               budget attempt lastError (w, log) in
  exists outcomes,
    snd (snd run) = log ++ schedule baseDelayMs attempt outcomes
    /\ List.length outcomes <= budget
    /\ (outcomes = [] -> budget = 0)
    /\ forallb retryable (removelast outcomes) = true
    /\ fst run = settled lastError outcomes
    /\ (retryable (fst run) = false \/ List.length outcomes = budget)
    /\ (fst run, fst (snd run))
       = attempts fn sleep maxRetries baseDelayMs budget attempt lastError w.
Proof.
  revert attempt lastError w log.
  induction budget as [|budget IH]; intros attempt lastError w log Hb; cbv zeta.
  - exists []. cbn. rewrite app_nil_r. repeat split; auto.
  - cbn [attempts]. rewrite calling_logs.
    destruct (fn w) as [outcome w1] eqn:F. cbn [fst snd].
    destruct outcome as [value|err].
    + exists [Resolved value]. cbn.
      repeat split; auto; try lia; try discriminate.
    + destruct (clientError err) eqn:C.
      * exists [Rejected err]. cbn. rewrite C.
        repeat split; auto; try lia; try discriminate.
      * destruct (Z.eqb_spec attempt (maxRetries - 1)) as [Hl|Hl].
        { exists [Rejected err]. cbn.
          repeat split; auto; try lia; try discriminate. }
        rewrite sleeping_logs.
        destruct (IH (attempt + 1)%Z err (sleep (baseDelayMs * 2 ^ attempt) w1)
                    ((log ++ [Called (Rejected err)])
                       ++ [Slept (baseDelayMs * 2 ^ attempt)]) ltac:(lia))
          as (outcomes & J & Len & Nil & R & S & E & P).
        cbv zeta in *.
        destruct outcomes as [|next outcomes]; [specialize (Nil eq_refl); lia|].
        exists (Rejected err :: next :: outcomes).
        split; [rewrite J, <- !app_assoc; reflexivity|].
        split; [cbn [List.length] in *; lia|].
        split; [discriminate|].
        split; [cbn [removelast forallb retryable] in *; rewrite C; exact R|].
        split; [rewrite S; symmetry; apply settled_cons|].
        split; [destruct E as [E|E]; [left; exact E|right; cbn [List.length] in *; lia]|].
        exact P.
Qed.

(** X22.  What [withRetry] does, as a journal of its calls and sleeps. It
    calls [fn] at most [maxRetries] times, and between one call and the
    next - never before the first or after the last - it sleeps,
    [baseDelayMs] at first and twice as long each time. Every call but the
    last was rejected with something else than a client error (status 400
    to 499); the last resolved, or was rejected with a client error, or
    was the last round. The result is the outcome of the last call, value
    or error; with no round at all ([maxRetries] 0 or less) [fn] is never
    called and [undefined] is thrown. The journal is a ghost: the result
    and the world are those of the plain run. *)
Theorem withRetry_schedule (w : World) :
  let run := withRetry (calling fn) (sleeping sleep) maxRetries baseDelayMs (w, []) in
  exists outcomes,
    snd (snd run) = schedule baseDelayMs 0 outcomes
    /\ (Z.of_nat (List.length outcomes) <= Z.max 0 maxRetries)%Z
    /\ (outcomes = [] <-> (maxRetries <= 0)%Z)
    /\ forallb retryable (removelast outcomes) = true
    /\ fst run = settled None outcomes
    /\ (retryable (fst run) = false
        \/ Z.of_nat (List.length outcomes) = Z.max 0 maxRetries)
    /\ (fst run, fst (snd run)) = withRetry fn sleep maxRetries baseDelayMs w.
Proof.
  cbv zeta. unfold withRetry.
  destruct (Z.leb_spec maxRetries 0) as [Hm|Hm].
  - replace (Z.to_nat maxRetries) with 0 by lia. exists []. cbn.
    repeat split; auto; try lia.
  - destruct (attempts_journal (Z.to_nat maxRetries) 0 None w [] ltac:(lia))
      as (outcomes & J & Len & Nil & R & S & E & P).
    cbv zeta in *. exists outcomes.
    split; [exact J|]. split; [lia|].
    split; [split; [intros H; specialize (Nil H); lia|lia]|].
    split; [exact R|]. split; [exact S|].
    split; [destruct E as [E|E]; [left; exact E|right; lia]|exact P].
Qed.

End WithWorld.

End RetryFacts.

(** ** The inspection of a container *)

Module DockerFacts.

Import ObserveContainerLogs DockerTools.

Lemma envKey_prefix (env : jsstring) :
  ~ In 61%N (envKey env)
  /\ (env = envKey env \/ exists value, env = envKey env ++ 61%N :: value).
Proof.
  unfold envKey. induction env as [|c env [IH1 IH2]].
  - cbn. split; [tauto|left; reflexivity].
  - rewrite ObserveFacts.split_cons. destruct (N.eqb_spec c 61) as [->|Hc].
    + cbn [hd app]. split; [intros []|]. right. exists env. reflexivity.
    + pose proof (ObserveFacts.splitFrom_nonempty 61 [] env) as NE.
      fold (split 61 env) in NE.
      destruct (split 61 env) as [|first more]; [contradiction|].
      cbn [hd] in *. split.
      * intros [H|H]; [congruence|auto].
      * destruct IH2 as [->|[value ->]]; [left; reflexivity|].
        right. exists value. reflexivity.
Qed.

Lemma positive_spec (v : option Z) (n : Z) :
  positive v = Some n <-> v = Some n /\ (0 < n)%Z.
Proof.
  unfold positive. destruct v as [m|]; [|split; [discriminate|intros [H _]; discriminate]].
  destruct (Z.ltb_spec 0 m); split.
  - intros H0. injection H0 as <-. auto.
  - intros [H0 _]. exact H0.
  - discriminate.
  - intros [H0 Hn]. injection H0 as ->. lia.
Qed.

Section WithPorts.

Variable Ports : Type.
Variable noPorts : Ports.

(** X23.  What the agents see of a container. Of the environment they see
    the names only: one key for every entry, in order, each the entry up
    to its first equals sign, so no key holds an equals sign and no value
    is disclosed. A resource limit is reported only when Docker gives a
    number above zero for it, and is null otherwise (0 is Docker's
    unlimited). When Docker gives no name the name asked for is reported. *)
Theorem inspection_discloses (containerName : jsstring) (data : InspectInfo Ports) :
  let seen := inspection noPorts containerName data in
  let hostConfig := HostConfig Ports data in
  Forall2
    (fun env key =>
       ~ In 61%N key /\ (env = key \/ exists value, env = key ++ 61%N :: value))
    (orDefault (field (Config Ports data) Env) []) (envKeys Ports seen)
  /\ (forall n,
        (memoryLimitBytes Ports seen = Some n
         <-> field hostConfig Memory = Some n /\ (0 < n)%Z)
        /\ (memorySwapBytes Ports seen = Some n
            <-> field hostConfig MemorySwap = Some n /\ (0 < n)%Z)
        /\ (cpuQuota Ports seen = Some n
            <-> field hostConfig CpuQuota = Some n /\ (0 < n)%Z)
        /\ (cpuPeriod Ports seen = Some n
            <-> field hostConfig CpuPeriod = Some n /\ (0 < n)%Z)
        /\ (cpuShares Ports seen = Some n
            <-> field hostConfig CpuShares = Some n /\ (0 < n)%Z))
  /\ (Name Ports data = None -> name Ports seen = containerName).
Proof.
  cbv zeta. unfold inspection. cbn [envKeys memoryLimitBytes memorySwapBytes
    cpuQuota cpuPeriod cpuShares name].
  split; [|split].
  - induction (orDefault (field (Config Ports data) Env) []) as [|env envs IH];
      cbn [map]; constructor; [apply envKey_prefix|exact IH].
  - intros n. repeat (split; [apply positive_spec|]). apply positive_spec.
  - intros ->. reflexivity.
Qed.

End WithPorts.

End DockerFacts.


(** ** The scenarios of the specification, evaluated *)

Module Scenarios.

Import Validator ValidatePlan Workflow LogBuffer LogBufferSpec Examples.

(** Scenario 1: the restart plan of a stopped cache validates. *)
Example stopped_cache_plan_validates :
  validateCommand (js "docker start cache") [js "cache"; js "api"] = Valid
  /\ validateCommand inspectRunning [js "cache"; js "api"] = Valid.
Proof. split; vm_compute; reflexivity. Qed.

(** Scenario 4: a shell invocation is rejected as such. *)
Example shell_invocation_rejected :
  validateCommand shellEcho [js "api"]
  = Invalid (mkError shellEcho (js "Shell invocation not allowed")).
Proof. vm_compute. reflexivity. Qed.

(** Any white space may follow docker. *)
Example tab_after_docker_accepted :
  validateCommand (js "docker" ++ [9%N] ++ js "start api") [js "api"] = Valid.
Proof. vm_compute. reflexivity. Qed.

(** [\bsh\s+-c\b] wants a word boundary before sh. *)
Example zsh_is_not_matched :
  includes (js "docker exec api zsh -c ls") (js "sh -c") = true
  /\ validateCommand (js "docker exec api zsh -c ls") [js "api"] = Valid.
Proof. split; vm_compute; reflexivity. Qed.

(** The pipe entry comes before the entry for [||]. *)
Example chaining_reported_as_pipe :
  validateCommand (js "docker exec api a || b") [js "api"]
  = Invalid (mkError (js "docker exec api a || b") (js "Pipes not allowed")).
Proof. vm_compute. reflexivity. Qed.

(** An empty container name is a falsy target. *)
Example empty_name_is_no_target :
  validateCommand (js "docker ps") [[]]
  = Invalid (mkError (js "docker ps")
               (js "Command references multiple containers: ")).
Proof. vm_compute. reflexivity. Qed.

(** A command that stands in both lists is tagged as verification. *)
Example duplicated_command_tagged_verification :
  let step := PlanStep.mk shellEcho (js "probe") in
  let plan := RemediationPlan.mk (js "probe") [step] [step] in
  let state := with_plan (createInitialState []) (Some plan) in
  option_map FailureContext.type
    (failureContext (CapabilityResult.state (ValidatePlan.validatePlan [js "api"] state)))
  = Some verification_command_rejected.
Proof. vm_compute. reflexivity. Qed.

(** The executor stops at the second of three commands. *)
Example executor_stops_at_failure :
  let r := fst (Executor.executeCommands scripted frozen three
                  [true; false; true]) in
  map StepResult.status (ExecutionResult.results r) = [Success; Failure]
  /\ ExecutionResult.failedAtStep r = 1%Z
  /\ snd (Executor.executeCommands scripted frozen three [true; false; true])
     = [true].
Proof. vm_compute. repeat split. Qed.

(** Scenario 5, the loop's part: with two attempts allowed, two planning
    calls after a rejection bring the circuit breaker, and the dismissal
    ends the run. *)
Example breaker_after_two_replans :
  let '(trace, result, context, _) :=
    runOrchestrator insisting 2 10 [js "[db] down"] 0 in
  map isReplan trace = [false; true; true; false]
  /\ map isBreaker trace = [false; false; false; true]
  /\ option_map (fun r => resolution (finalState r)) result = Some dismissed
  /\ attemptCount context = 2.
Proof. vm_compute. repeat split. Qed.

(** When the zero-delay timeout fires first, it carries the 101 events
    that gathered while the callback was in flight. *)
Example zero_delay_flush_carries_all :
  map (fun out => (fst out, size (snd out)))
    (snd (run asciiToLowerCase 10000 start
            (repeat (Log refused 0) 201 ++ [Settle; Fire 99 0])))
  = [(ByCap, 100); (ByTimer 0, 101)].
Proof. vm_compute. reflexivity. Qed.

(** An upper-case level token on stdout is an error indicator. *)
Example severe_on_stdout_included :
  shouldInclude asciiToLowerCase
    (mkEvent (js "api") (js "SEVERE: pool exhausted") stdout 0) = true
  /\ shouldInclude asciiToLowerCase
       (mkEvent (js "api") (js "Error while shutting down") stderr 0) = false.
Proof. vm_compute. split; reflexivity. Qed.

(** Scenario 1, the whole run: analysis, feasibility, plan, validation,
    approval, execution and verification resolve the incident without a
    replan. *)
Example stopped_cache_resolved :
  let '(trace, result, context, world) :=
    runOrchestrator lab 3 20 [js "[cache] Container stopped unexpectedly"]
      (happyPath, [true; true]) in
  option_map (fun r => resolution (finalState r)) result = Some resolved
  /\ option_map (fun r => planValidated (finalState r)) result = Some true
  /\ map HistoryEntry.capability (history context) = happyPath
  /\ map HistoryEntry.success (history context) = repeat true 7
  /\ attemptCount context = 0
  /\ world = ([], []).
Proof. vm_compute. repeat split. Qed.

(** When the first execution fails, the failure context lets the planner
    plan again; that one replan is counted, and the second try resolves
    the incident. *)
Example failed_execution_replanned :
  let '(trace, result, context, world) :=
    runOrchestrator lab 3 20 [js "[cache] Container stopped unexpectedly"]
      (secondTry, [false; true; true]) in
  option_map (fun r => resolution (finalState r)) result = Some resolved
  /\ map HistoryEntry.success (history context)
     = [true; true; true; true; true; false; true; true; true; true; true]
  /\ replans trace = 1
  /\ attemptCount context = 1.
Proof. vm_compute. repeat split. Qed.

(** Without approval's predecessor the executor refuses: a plan that was
    not validated does not run. *)
Example unvalidated_plan_not_executed :
  let state := with_plan (createInitialState []) (Some startCache) in
  fst (ExecutePlan.executePlan labShell labClock state ([], [true]))
  = Normal (failure state (js "Cannot execute: plan has not been validated."))
  /\ snd (ExecutePlan.executePlan labShell labClock state ([], [true]))
     = ([], [true]).
Proof. vm_compute. split; reflexivity. Qed.

End Scenarios.
